(** * caching-benchmark: a shallow embedding of the benchmark engine,
      the workload generator, the Ristretto + Pub/Sub caching strategy and
      the final comparison, with the properties of the written specification
      proved (or refuted) against them.

    Layout: Go primitives, then one module per Go package ([workload],
    [benchmark], [implementations], [main]) holding the embedded code,
    then concrete instances used to run the code, then the theorems. *)

From Stdlib Require Import ZArith List String Ascii Strings.Byte Lia Zpower.
From Stdlib Require Import Floats.SpecFloat DecimalString DecimalN DecimalPos.
From stdpp Require Import gmap strings list fin_maps sorting.

Local Open Scope Z_scope.
Set Warnings "-register-all".

(* ===================================================================== *)
(** * Go primitives used by the program                                   *)
(* ===================================================================== *)

Module Go.

(** [int64] values are carried as [Z]; every arithmetic result is wrapped
    back into the signed 64-bit range, as the hardware does. *)
Definition wrap64 (z : Z) : Z := (z + 2 ^ 63) mod 2 ^ 64 - 2 ^ 63.
Definition add64 (x y : Z) : Z := wrap64 (x + y).
Definition sub64 (x y : Z) : Z := wrap64 (x - y).
Definition MaxInt64 : Z := 2 ^ 63 - 1.

(** [time.Duration] is an [int64] count of nanoseconds. *)
Definition Duration := Z.
Definition Second : Duration := 1000000000.

(** Values of the interface type [error]: a plain message
    ([errors.New]) or a message wrapping another error
    ([fmt.Errorf] with the verb [%w]).  [None : option error] is [nil]. *)
Inductive error : Type :=
| errorString (msg : string)
| wrapError (msg : string) (inner : error)
| contextCanceled.

Definition error_Error (e : error) : string :=
  match e with
  | errorString msg => msg
  | wrapError msg _ => msg
  | contextCanceled => "context canceled"
  end.

(** [fmt.Errorf(prefix + "%w", err)]. *)
Definition Errorf_w (prefix : string) (err : error) : error :=
  wrapError (prefix +:+ error_Error err) err.

(** The comparison [err != context.Canceled]: interface values are
    compared by identity, and [context.Canceled] is one fixed value. *)
Definition is_context_Canceled (e : error) : bool :=
  match e with
  | contextCanceled => true
  | _ => false
  end.

(** [float64]: IEEE 754 binary64, through the executable specification of
    the Standard Library (53 bits of precision, exponent bound 1024). *)
Definition float64 := spec_float.
Definition prec64 : Z := 53.
Definition emax64 : Z := 1024.

(** Conversion [float64(n)] of an integer: round to nearest, ties to even. *)
Definition float64_of_int (n : Z) : float64 :=
  binary_normalize prec64 emax64 n 0 false.
Definition fdiv (x y : float64) : float64 := SFdiv prec64 emax64 x y.
Definition fmul (x y : float64) : float64 := SFmul prec64 emax64 x y.
Definition fadd (x y : float64) : float64 := SFadd prec64 emax64 x y.
(** The comparison [x > y] of two [float64]; false as soon as one is NaN. *)
Definition fgt (x y : float64) : bool :=
  match SFcompare x y with
  | Some Gt => true
  | _ => false
  end.
Definition fzero : float64 := S754_zero false.
Definition fone : float64 := float64_of_int 1.
Definition is_nan (x : float64) : bool :=
  match x with
  | S754_nan => true
  | _ => false
  end.

(** Conversion [int(x)] of a finite [float64]: truncation toward zero.
    (For NaN, infinities and values out of range Go leaves the result
    implementation-defined; those are reported as [None].) *)
Definition int_of_float64 (x : float64) : option Z :=
  match x with
  | S754_zero _ => Some 0
  | S754_finite s m e =>
      let a := if 0 <=? e then Z.pos m * 2 ^ e else Z.pos m / 2 ^ (- e) in
      if a <=? MaxInt64 then Some (if s then - a else a) else None
  | _ => None
  end.

(** [Duration.Seconds()]:
    [float64(d / Second) + float64(d % Second) / 1e9]; Go's integer
    division and remainder truncate toward zero. *)
Definition Duration_Seconds (d : Duration) : float64 :=
  fadd (float64_of_int (Z.quot d Second))
       (fdiv (float64_of_int (Z.rem d Second)) (float64_of_int 1000000000)).

(** [fmt.Sprintf("%x", b)] for [b : []byte]: two lower-case hexadecimal
    digits per byte, no separator. *)
Definition hex_digit (n : N) : ascii :=
  match n with
  | 0%N => "0" | 1%N => "1" | 2%N => "2" | 3%N => "3"
  | 4%N => "4" | 5%N => "5" | 6%N => "6" | 7%N => "7"
  | 8%N => "8" | 9%N => "9" | 10%N => "a" | 11%N => "b"
  | 12%N => "c" | 13%N => "d" | 14%N => "e" | _ => "f"
  end%char.

Fixpoint Sprintf_x (b : list byte) : string :=
  match b with
  | [] => EmptyString
  | c :: rest =>
      let n := Byte.to_N c in
      String (hex_digit (n / 16)%N)
             (String (hex_digit (n mod 16)%N) (Sprintf_x rest))
  end.

(** [fmt.Sprintf("%d", n)] for a non-negative integer. *)
Definition Sprintf_d (n : Z) : string :=
  NilZero.string_of_uint (N.to_uint (Z.to_N n)).

(** What a call that may panic produces. *)
Inductive panicking (A : Type) : Type :=
| Ok (a : A)
| Panic (msg : string).
Arguments Ok {A} a.
Arguments Panic {A} msg.

End Go.
Import Go.

(* ===================================================================== *)
(** * Package workload                                                    *)
(* ===================================================================== *)

Module workload.

(** [type OperationType int] with the two constants [ReadOp] and
    [WriteOp] declared by [iota]. *)
Inductive OperationType : Type := ReadOp | WriteOp.

Record Operation : Type := mkOperation {
  Type_ : OperationType;
  Key : string
}.

(** The pseudo-random sources.  They are seeded from the wall clock, so
    the embedding takes each source as a state with its drawing functions:
    [Float64] of [math/rand] draws a [float64], [Intn] an integer in
    [0, n), and the Zipf generator of [x/exp/rand] a rank. *)
Class RandSource (G : Type) : Type := {
  rand_Float64 : G -> float64 * G;
  rand_Intn : G -> Z -> Z * G
}.

Class ZipfSource (Zf : Type) : Type := {
  zipf_Uint64 : Zf -> Z * Zf
}.

Section Generators.
Context {G Zf : Type} `{RandSource G} `{ZipfSource Zf}.

  (** The read/write decision taken for one operation from its draw. *)
Definition classify (draw readWriteRatio : float64) : OperationType :=
    if fgt draw readWriteRatio then WriteOp else ReadOp.

  (** Body of the loop of [Generate], iterated [n] times: the key comes
      from the Zipf generator, the type from [ratioRng]. *)
Fixpoint Generate_loop (n : nat) (readWriteRatio : float64)
           (zipf : Zf) (ratioRng : G) : list Operation :=
    match n with
    | O => []
    | S n' =>
        let '(rank, zipf') := zipf_Uint64 zipf in
        let key := ("key-" +:+ Sprintf_d rank)%string in
        let '(draw, ratioRng') := rand_Float64 ratioRng in
        mkOperation (classify draw readWriteRatio) key
          :: Generate_loop n' readWriteRatio zipf' ratioRng'
    end.

  (** [Generate].  [make] panics on a negative length; [NewZipf] returns
      [nil] for parameters it rejects ([zipf = None]), and drawing from
      a nil generator panics. *)
Definition Generate (numOps numKeys : Z) (readWriteRatio : float64)
             (zipf : option Zf) (ratioRng : G) : panicking (list Operation) :=
    if numOps <? 0 then Panic "makeslice: len out of range"
    else
      match zipf with
      | Some z => Ok (Generate_loop (Z.to_nat numOps) readWriteRatio z ratioRng)
      | None =>
          if numOps =? 0 then Ok [] else Panic "rand: nil Zipf"
      end.

  (** Loop of [GenerateUniform]: one source, drawn twice per operation,
      first for the key and then for the type. *)
Fixpoint GenerateUniform_loop (n : nat) (numKeys : Z)
           (readWriteRatio : float64) (rng : G) : list Operation :=
    match n with
    | O => []
    | S n' =>
        let '(k, rng1) := rand_Intn rng numKeys in
        let key := ("key-" +:+ Sprintf_d k)%string in
        let '(draw, rng2) := rand_Float64 rng1 in
        mkOperation (classify draw readWriteRatio) key
          :: GenerateUniform_loop n' numKeys readWriteRatio rng2
    end.

  (** [GenerateUniform]; [Intn] panics when its argument is not positive. *)
Definition GenerateUniform (numOps numKeys : Z) (readWriteRatio : float64)
             (rng : G) : panicking (list Operation) :=
    if numOps <? 0 then Panic "makeslice: len out of range"
    else if (0 <? numOps) && (numKeys <=? 0) then
      Panic "invalid argument to Intn"
    else Ok (GenerateUniform_loop (Z.to_nat numOps) numKeys readWriteRatio rng).

  (** The draws of [Float64] consumed by the two loops, in order; used
      only to state what the generators did with them. *)
Fixpoint ratio_draws (n : nat) (ratioRng : G) : list float64 :=
    match n with
    | O => []
    | S n' =>
        let '(draw, ratioRng') := rand_Float64 ratioRng in
        draw :: ratio_draws n' ratioRng'
    end.

Fixpoint uniform_draws (n : nat) (numKeys : Z) (rng : G) : list float64 :=
    match n with
    | O => []
    | S n' =>
        let '(_, rng1) := rand_Intn rng numKeys in
        let '(draw, rng2) := rand_Float64 rng1 in
        draw :: uniform_draws n' numKeys rng2
    end.
End Generators.

End workload.

(* ===================================================================== *)
(** * Package benchmark                                                   *)
(* ===================================================================== *)

Module benchmark.
Import workload.

(** The interface [CachingStrategy].  A Go implementation is a pointer to
    a mutable struct; here its methods take the struct's state [S] and
    give the new one back, or panic.  The [context.Context] argument is
    the never-cancelled background context of [main] and is left out. *)
Record CachingStrategy (S : Type) : Type := {
  Name : S -> string;
  Init : S -> panicking (option error * S);
  Read : S -> string -> panicking ((string * bool * option error) * S);
  Write : S -> string -> string -> panicking (option error * S);
  Close : S -> panicking (option error * S)
}.
Arguments Name {S} _ _.
Arguments Init {S} _ _.
Arguments Read {S} _ _ _.
Arguments Write {S} _ _ _ _.
Arguments Close {S} _ _.

Record Result : Type := mkResult {
  StrategyName : string;
  TotalOperations : Z;
  TotalHits : Z;
  TotalMisses : Z;
  TotalWrites : Z;
  TotalErrors : Z;
  TotalDuration : Duration;
  HitRate : float64;
  OpsPerSecond : float64;
  Latencies : list Duration
}.

Definition set_TotalOperations (v : Z) (r : Result) : Result :=
  mkResult (StrategyName r) v (TotalHits r) (TotalMisses r) (TotalWrites r)
           (TotalErrors r) (TotalDuration r) (HitRate r) (OpsPerSecond r)
           (Latencies r).
Definition set_TotalHits (v : Z) (r : Result) : Result :=
  mkResult (StrategyName r) (TotalOperations r) v (TotalMisses r)
           (TotalWrites r) (TotalErrors r) (TotalDuration r) (HitRate r)
           (OpsPerSecond r) (Latencies r).
Definition set_TotalMisses (v : Z) (r : Result) : Result :=
  mkResult (StrategyName r) (TotalOperations r) (TotalHits r) v
           (TotalWrites r) (TotalErrors r) (TotalDuration r) (HitRate r)
           (OpsPerSecond r) (Latencies r).
Definition set_TotalWrites (v : Z) (r : Result) : Result :=
  mkResult (StrategyName r) (TotalOperations r) (TotalHits r) (TotalMisses r)
           v (TotalErrors r) (TotalDuration r) (HitRate r) (OpsPerSecond r)
           (Latencies r).
Definition set_TotalErrors (v : Z) (r : Result) : Result :=
  mkResult (StrategyName r) (TotalOperations r) (TotalHits r) (TotalMisses r)
           (TotalWrites r) v (TotalDuration r) (HitRate r) (OpsPerSecond r)
           (Latencies r).
Definition set_TotalDuration (v : Duration) (r : Result) : Result :=
  mkResult (StrategyName r) (TotalOperations r) (TotalHits r) (TotalMisses r)
           (TotalWrites r) (TotalErrors r) v (HitRate r) (OpsPerSecond r)
           (Latencies r).
Definition set_HitRate (v : float64) (r : Result) : Result :=
  mkResult (StrategyName r) (TotalOperations r) (TotalHits r) (TotalMisses r)
           (TotalWrites r) (TotalErrors r) (TotalDuration r) v
           (OpsPerSecond r) (Latencies r).
Definition set_OpsPerSecond (v : float64) (r : Result) : Result :=
  mkResult (StrategyName r) (TotalOperations r) (TotalHits r) (TotalMisses r)
           (TotalWrites r) (TotalErrors r) (TotalDuration r) (HitRate r) v
           (Latencies r).
Definition set_Latencies (v : list Duration) (r : Result) : Result :=
  mkResult (StrategyName r) (TotalOperations r) (TotalHits r) (TotalMisses r)
           (TotalWrites r) (TotalErrors r) (TotalDuration r) (HitRate r)
           (OpsPerSecond r) v.

Record Runner (S : Type) : Type := mkRunner {
  methods : CachingStrategy S;
  strategy : S;
  workload : list Operation;
  concurrency : Z;
  valueSizeBytes : Z;
  result : Result
}.
Arguments mkRunner {S} _ _ _ _ _ _.
Arguments methods {S} _.
Arguments strategy {S} _.
Arguments workload {S} _.
Arguments concurrency {S} _.
Arguments valueSizeBytes {S} _.
Arguments result {S} _.

Definition NewRunner {S : Type} (impl : CachingStrategy S) (s : S)
           (w : list Operation) (concurrency valueSizeBytes : Z) : Runner S :=
  mkRunner impl s w concurrency valueSizeBytes
           (mkResult (Name impl s) 0 0 0 0 0 0 fzero fzero []).

(** What the run takes from outside the program: the goroutine scheduler
    ([sched t] picks, among the workers that can still move, the one that
    moves at step [t]), the wall clock ([now t] is the reading at step
    [t]) and the bytes of [crypto/rand] ([entropy w i] is the [i]-th byte
    handed to worker [w]). *)
Record Environment : Type := mkEnvironment {
  sched : nat -> nat;
  now : nat -> Z;
  entropy : nat -> nat -> byte
}.

(** [time.Since(start)] at step [t]; [Time.Sub] saturates. *)
Definition time_Since (env : Environment) (t : nat) (start : Z) : Duration :=
  Z.max (- 2 ^ 63) (Z.min MaxInt64 (now env t - start)).

(** [generateValue]: [size] random bytes, printed in hexadecimal.
    [make] panics on a negative size. *)
Definition generateValue (src : nat -> byte) (size : Z) : panicking string :=
  if size <? 0 then Panic "makeslice: len out of range"
  else Ok (Sprintf_x (map src (seq 0 (Z.to_nat size)))).

(** Where a worker goroutine stands in the body of [worker]. *)
Inductive worker_state : Type :=
| WStart
    (* spawned; [generateValue] not yet called *)
| WReceive (valueToWrite : string)
    (* at [for op := range ops] *)
| WCall (valueToWrite : string) (op : Operation)
    (* holds [op]; before [time.Now()] and the strategy call *)
| WCount (valueToWrite : string) (op : Operation) (start : Z)
         (hit : bool) (err : option error)
    (* the strategy returned; before the hit/miss/write counter *)
| WSend (valueToWrite : string) (start : Z) (err : option error)
    (* before [latencies <- time.Since(start)] *)
| WErr (valueToWrite : string) (err : option error)
    (* before [if err != nil] *)
| WDone.
    (* the channel was found closed and empty; [wg.Done()] ran *)

Definition is_done (w : worker_state) : bool :=
  match w with
  | WDone => true
  | _ => false
  end.

(** One record per strategy call made by a worker; kept beside the
    program state only to state what the counters count. *)
Record call_event : Type := mkCall {
  ev_worker : nat;
  ev_op : Operation;
  ev_written : option string;
  ev_hit : bool;
  ev_err : option error
}.

(** The state shared by the goroutines between [wg.Add] and [wg.Wait]. *)
Record machine (S : Type) : Type := mkMachine {
  m_strategy : S;
  m_ops : list Operation;          (* [opsChan], closed *)
  m_latencies : list Duration;     (* [latencyChan] *)
  m_result : Result;               (* [r.result] *)
  m_workers : list worker_state;
  m_clock : nat;
  m_panic : option string;
  m_history : list call_event
}.
Arguments mkMachine {S} _ _ _ _ _ _ _ _.
Arguments m_strategy {S} _.
Arguments m_ops {S} _.
Arguments m_latencies {S} _.
Arguments m_result {S} _.
Arguments m_workers {S} _.
Arguments m_clock {S} _.
Arguments m_panic {S} _.
Arguments m_history {S} _.

Section Engine.
Context {S : Type}.
Variable impl : CachingStrategy S.
Variable env : Environment.
Variable size : Z.     (* [r.valueSizeBytes] *)

  (** The counter update after a strategy call (lines 89-95 and 98-100). *)
Definition count_outcome (op : Operation) (hit : bool) (err : option error)
             (r : Result) : Result :=
    match Type_ op, err with
    | ReadOp, None =>
        if hit then set_TotalHits (add64 (TotalHits r) 1) r
        else set_TotalMisses (add64 (TotalMisses r) 1) r
    | WriteOp, None => set_TotalWrites (add64 (TotalWrites r) 1) r
    | _, Some _ => r
    end.

  (** Lines 105-107. *)
Definition count_error (err : option error) (r : Result) : Result :=
    match err with
    | Some _ => set_TotalErrors (add64 (TotalErrors r) 1) r
    | None => r
    end.

  (** A goroutine panicked: the process is going down. *)
Definition crash (m : machine S) (msg : string) : machine S :=
  mkMachine (m_strategy m) (m_ops m) (m_latencies m) (m_result m)
            (m_workers m) (Datatypes.S (m_clock m)) (Some msg) (m_history m).

(** Worker [i], in state [w], makes its next move. *)
Definition worker_step (i : nat) (w : worker_state) (m : machine S)
  : machine S :=
  let t := Datatypes.S (m_clock m) in
  let put w' := <[i := w']> (m_workers m) in
  match w with
  | WStart =>
      match generateValue (entropy env i) size with
      | Ok v =>
          mkMachine (m_strategy m) (m_ops m) (m_latencies m) (m_result m)
                    (put (WReceive v)) t (m_panic m) (m_history m)
      | Panic msg => crash m msg
      end
  | WReceive v =>
      match m_ops m with
      | [] =>
          mkMachine (m_strategy m) [] (m_latencies m) (m_result m)
                    (put WDone) t (m_panic m) (m_history m)
      | op :: rest =>
          mkMachine (m_strategy m) rest (m_latencies m) (m_result m)
                    (put (WCall v op)) t (m_panic m) (m_history m)
      end
  | WCall v op =>
      let start := now env (m_clock m) in
      match Type_ op with
      | ReadOp =>
          match Read impl (m_strategy m) (Key op) with
          | Ok ((_, hit, err), s') =>
              mkMachine s' (m_ops m) (m_latencies m) (m_result m)
                        (put (WCount v op start hit err)) t (m_panic m)
                        (m_history m ++ [mkCall i op None hit err])
          | Panic msg => crash m msg
          end
      | WriteOp =>
          match Write impl (m_strategy m) (Key op) v with
          | Ok (err, s') =>
              mkMachine s' (m_ops m) (m_latencies m) (m_result m)
                        (put (WCount v op start false err)) t (m_panic m)
                        (m_history m ++ [mkCall i op (Some v) false err])
          | Panic msg => crash m msg
          end
      end
  | WCount v op start hit err =>
      mkMachine (m_strategy m) (m_ops m) (m_latencies m)
                (count_outcome op hit err (m_result m))
                (put (WSend v start err)) t (m_panic m) (m_history m)
  | WSend v start err =>
      mkMachine (m_strategy m) (m_ops m)
                (m_latencies m ++ [time_Since env (m_clock m) start])
                (m_result m) (put (WErr v err)) t (m_panic m) (m_history m)
  | WErr v err =>
      mkMachine (m_strategy m) (m_ops m) (m_latencies m)
                (count_error err (m_result m))
                (put (WReceive v)) t (m_panic m) (m_history m)
  | WDone => m
  end.

(** Indices of the workers that have not returned. *)
Fixpoint active_from (i : nat) (ws : list worker_state) : list nat :=
    match ws with
    | [] => []
    | w :: ws' =>
        if is_done w then active_from (Datatypes.S i) ws'
        else i :: active_from (Datatypes.S i) ws'
    end.
Definition active (ws : list worker_state) : list nat := active_from 0 ws.

  (** One step of the whole program: the scheduler picks a worker that
      can move.  [None] when nothing moves any more: every worker has
      returned, or a goroutine panicked and took the process down. *)
Definition step (m : machine S) : option (machine S) :=
    match m_panic m with
    | Some _ => None
    | None =>
        match active (m_workers m) with
        | [] => None
        | a :: rest =>
            let i := nth (sched env (m_clock m)
                            mod length (a :: rest))%nat (a :: rest) a in
            match m_workers m !! i with
            | Some w => Some (worker_step i w m)
            | None => None
            end
        end
    end.

Fixpoint run_workers (fuel : nat) (m : machine S) : machine S :=
    match fuel with
    | O => m
    | Datatypes.S fuel' =>
        match step m with
        | Some m' => run_workers fuel' m'
        | None => m
        end
    end.

  (** Moves a worker has left before it asks the channel again, plus
      the move with which it finds the channel empty. *)
Definition moves_left (w : worker_state) : nat :=
    match w with
    | WStart => 2
    | WReceive _ => 1
    | WCall _ _ => 5
    | WCount _ _ _ _ _ => 4
    | WSend _ _ _ => 3
    | WErr _ _ => 2
    | WDone => 0
    end.

  (** A bound on the number of steps of [run_workers]: five moves per
      queued operation and what each worker has left. *)
Definition steps_bound (m : machine S) : nat :=
    5 * length (m_ops m) + sum_list_with moves_left (m_workers m).
End Engine.

(** [calculateFinalMetrics]. *)
Definition calculateFinalMetrics (r : Result) : Result :=
  let r1 :=
    if 0 <? add64 (TotalHits r) (TotalMisses r) then
      set_HitRate (fdiv (float64_of_int (TotalHits r))
                        (float64_of_int (add64 (TotalHits r) (TotalMisses r))))
                  r
    else r in
  if fgt (Duration_Seconds (TotalDuration r1)) fzero then
    set_OpsPerSecond (fdiv (float64_of_int (TotalOperations r1))
                           (Duration_Seconds (TotalDuration r1))) r1
  else r1.

(** How a call of [Run] ends. *)
Inductive RunOutcome : Type :=
| Returned (res : Result) (err : option error)
| Crashed (msg : string).

(** [Run] leaves its receiver modified and, beside it, the calls the
    workers made. *)
Record RunExec (S : Type) : Type := mkRunExec {
  outcome : RunOutcome;
  runner_after : Runner S;
  calls : list call_event
}.
Arguments mkRunExec {S} _ _ _.
Arguments outcome {S} _.
Arguments runner_after {S} _.
Arguments calls {S} _.

Section Run.
Context {S : Type}.
Variable env : Environment.

Definition with_state (r : Runner S) (s : S) (res : Result) : Runner S :=
    mkRunner (methods r) s (workload r) (concurrency r) (valueSizeBytes r) res.

  (** [Run].  The log lines are left out.  [wg.Add] panics on a negative
    count, after [defer r.strategy.Close(ctx)] was registered, so [Close]
    still runs; a panic inside a worker goroutine ends the process at
    once.  On an [Init] error [Run] returns before the [defer]: [Close]
    is not called. *)
Definition Run (r : Runner S) : RunExec S :=
  let impl := methods r in
  match Init impl (strategy r) with
  | Panic msg => mkRunExec (Crashed msg) r []
  | Ok (Some err, s0) =>
      mkRunExec
        (Returned (result r)
                  (Some (Errorf_w "failed to initialize strategy: " err)))
        (with_state r s0 (result r)) []
  | Ok (None, s0) =>
      if concurrency r <? 0 then
        mkRunExec (Crashed "sync: negative WaitGroup counter")
                  (match Close impl s0 with
                   | Ok (_, s1) => with_state r s1 (result r)
                   | Panic _ => with_state r s0 (result r)
                   end) []
      else
        let startTime := now env 0 in
        let m0 :=
          mkMachine s0 (workload r) [] (result r)
                    (replicate (Z.to_nat (concurrency r)) WStart)
                    1%nat None [] in
        let m1 :=
          run_workers impl env (valueSizeBytes r) (steps_bound m0) m0 in
        match m_panic m1 with
        | Some msg =>
            mkRunExec (Crashed msg)
                      (with_state r (m_strategy m1) (m_result m1))
                      (m_history m1)
        | None =>
            let res1 :=
              set_TotalOperations
                (wrap64 (Z.of_nat (length (workload r))))
                (set_TotalDuration
                   (time_Since env (m_clock m1) startTime) (m_result m1)) in
            let res2 :=
              set_Latencies (Latencies res1 ++ m_latencies m1) res1 in
            let res3 := calculateFinalMetrics res2 in
            match Close impl (m_strategy m1) with
            | Ok (_, s2) =>
                mkRunExec (Returned res3 None) (with_state r s2 res3)
                          (m_history m1)
            | Panic msg =>
                mkRunExec (Crashed msg)
                          (with_state r (m_strategy m1) res3) (m_history m1)
            end
        end
  end.
End Run.

End benchmark.

(* ===================================================================== *)
(** * Package implementations: Ristretto L1 + Redis Pub/Sub               *)
(* ===================================================================== *)

Module implementations.

Definition InvalidationChannel : string := "cache-invalidation".

Record InvalidationMessage : Type := mkInvalidationMessage {
  msg_Key : string
}.

(** ** The libraries the strategy is written against, by interface *)

(** [ristretto.Cache].  [Get] may touch the cache's own bookkeeping,
    [Set] reports whether the entry was admitted. *)
Class L1Cache (C : Type) : Type := {
  ristretto_NewCache : Z -> Z -> Z -> error + C;
  cache_Get : C -> string -> option string * C;
  cache_Set : C -> string -> string -> Z -> bool * C;
  cache_Del : C -> string -> C;
  cache_Close : C -> C
}.

(** The commands the strategy builds with [client.B()]. *)
Inductive Command : Type :=
| CmdGet (key : string)
| CmdSet (key value : string)
| CmdPublish (channel message : string).

(** A [rueidis.RedisResult]: a reply, or an error (a Redis nil reply
    is the error [rueidis.Nil]). *)
Inductive RedisResult : Type :=
| RedisReply (payload : string)
| RedisError (e : error).

Definition RedisResult_ToString (r : RedisResult) : string * option error :=
  match r with
  | RedisReply payload => (payload, None)
  | RedisError e => (EmptyString, Some e)
  end.

Definition RedisResult_Error (r : RedisResult) : option error :=
  match r with
  | RedisReply _ => None
  | RedisError e => Some e
  end.

(** [rueidis.Client]; [rueidis_NewClient n] is the outcome of the
    [n]-th call of [rueidis.NewClient] made by [Init]. *)
Class RedisClient (R : Type) : Type := {
  rueidis_NewClient : nat -> error + R;
  redis_Do : R -> Command -> RedisResult * R;
  redis_Close : R -> R
}.

(** [encoding/json] at the type [InvalidationMessage]: [json.Marshal]
    of a message, and [json.Unmarshal] into a zero message. *)
Class JSONCodec : Type := {
  json_Marshal : InvalidationMessage -> string;
  json_Unmarshal : string -> error + InvalidationMessage
}.

(** What a method did to the world outside the struct, in order. *)
Inductive effect : Type :=
| EvCacheGet (key : string)
| EvCacheSet (key value : string) (cost : Z)
| EvCacheDel (key : string)
| EvRedis (cmd : Command)
| EvLog (line : string).

Definition is_redis_effect (e : effect) : bool :=
  match e with
  | EvRedis _ => true
  | _ => false
  end.

Definition is_cache_write (e : effect) : bool :=
  match e with
  | EvCacheSet _ _ _ | EvCacheDel _ => true
  | _ => false
  end.

(** The struct [RistrettoPubSubStrategy].  Pointer and interface fields
    are [None] while nil; [cancelBgTasks] holds whether the background
    context was cancelled.  [trace] is not a field of the Go struct: it
    records the calls made on the cache and the clients. *)
Record RistrettoPubSubStrategy (C R : Type) : Type := mkStrategy {
  l1Cache : option C;
  redisClient : option R;
  pubsubClient : option R;
  cancelBgTasks : option bool;
  maxCost : Z;
  trace : list effect
}.
Arguments mkStrategy {C R} _ _ _ _ _ _.
Arguments l1Cache {C R} _.
Arguments redisClient {C R} _.
Arguments pubsubClient {C R} _.
Arguments cancelBgTasks {C R} _.
Arguments maxCost {C R} _.
Arguments trace {C R} _.

Definition nil_deref : string :=
  "invalid memory address or nil pointer dereference".

Section Strategy.
Context {C R : Type} `{L1Cache C} `{RedisClient R} `{JSONCodec}.

Abbreviation strategy := (RistrettoPubSubStrategy C R).

Definition NewRistrettoPubSubStrategy (maxCost : Z) : strategy :=
  mkStrategy None None None None maxCost [].

Definition Name (s : strategy) : string := "Ristretto L1 + Redis Pub/Sub".

(** Ristretto's methods return at once on a nil receiver. *)
Definition l1_Get (c : option C) (key : string) : option string * option C :=
  match c with
  | Some c0 => let '(v, c1) := cache_Get c0 key in (v, Some c1)
  | None => (None, None)
  end.

Definition l1_Set (c : option C) (key value : string) (cost : Z) : option C :=
  match c with
  | Some c0 => Some (snd (cache_Set c0 key value cost))
  | None => None
  end.

Definition l1_Del (c : option C) (key : string) : option C :=
  match c with
  | Some c0 => Some (cache_Del c0 key)
  | None => None
  end.

(** [Init]: cache, data client, Pub/Sub client, then the listener
    goroutine is started on a fresh cancellable context. *)
Definition Init (s : strategy) : panicking (option error * strategy) :=
  match ristretto_NewCache 1000000 (maxCost s) 64 with
  | inl err =>
      Ok (Some err,
          mkStrategy None (redisClient s) (pubsubClient s) (cancelBgTasks s)
                     (maxCost s) (trace s))
  | inr c =>
      match rueidis_NewClient 0 with
      | inl err =>
          Ok (Some err,
              mkStrategy (Some c) None (pubsubClient s) (cancelBgTasks s)
                         (maxCost s) (trace s))
      | inr r =>
          match rueidis_NewClient 1 with
          | inl err =>
              Ok (Some err,
                  mkStrategy (Some c) (Some r) None (cancelBgTasks s)
                             (maxCost s) (trace s))
          | inr p =>
              Ok (None,
                  mkStrategy (Some c) (Some r) (Some p) (Some false)
                             (maxCost s) (trace s))
          end
      end
  end.

(** [Read]. *)
Definition Read (s : strategy) (key : string)
  : panicking ((string * bool * option error) * strategy) :=
  let '(found, c1) := l1_Get (l1Cache s) key in
  let tr1 := trace s ++ [EvCacheGet key] in
  match found with
  | Some val =>
      Ok ((val, true, None),
          mkStrategy c1 (redisClient s) (pubsubClient s) (cancelBgTasks s)
                     (maxCost s) tr1)
  | None =>
      (* L1 miss, get from L2 *)
      match redisClient s with
      | None => Panic nil_deref
      | Some r =>
          let '(res, r1) := redis_Do r (CmdGet key) in
          let tr2 := tr1 ++ [EvRedis (CmdGet key)] in
          let '(value, err) := RedisResult_ToString res in
          match err with
          | None =>
              (* Populate L1 cache *)
              let cost := Z.of_nat (String.length value) in
              Ok ((value, false, None),
                  mkStrategy (l1_Set c1 key value cost) (Some r1)
                             (pubsubClient s) (cancelBgTasks s) (maxCost s)
                             (tr2 ++ [EvCacheSet key value cost]))
          | Some e =>
              Ok ((value, false, Some e),
                  mkStrategy c1 (Some r1) (pubsubClient s) (cancelBgTasks s)
                             (maxCost s) tr2)
          end
      end
  end.

(** [Write]. *)
Definition Write (s : strategy) (key value : string)
  : panicking (option error * strategy) :=
  match redisClient s with
  | None => Panic nil_deref
  | Some r =>
      (* 1. Set the value in Redis *)
      let '(res, r1) := redis_Do r (CmdSet key value) in
      let tr1 := trace s ++ [EvRedis (CmdSet key value)] in
      match RedisResult_Error res with
      | Some err =>
          Ok (Some err,
              mkStrategy (l1Cache s) (Some r1) (pubsubClient s)
                         (cancelBgTasks s) (maxCost s) tr1)
      | None =>
          (* 2. Publish invalidation message *)
          let msg := json_Marshal (mkInvalidationMessage key) in
          let cmd := CmdPublish InvalidationChannel msg in
          let '(res2, r2) := redis_Do r1 cmd in
          Ok (RedisResult_Error res2,
              mkStrategy (l1Cache s) (Some r2) (pubsubClient s)
                         (cancelBgTasks s) (maxCost s) (tr1 ++ [EvRedis cmd]))
      end
  end.

(** [Close]. *)
Definition Close (s : strategy) : panicking (option error * strategy) :=
  match cancelBgTasks s, redisClient s, pubsubClient s with
  | Some _, Some r, Some p =>
      Ok (None,
          mkStrategy (option_map cache_Close (l1Cache s))
                     (Some (redis_Close r)) (Some (redis_Close p))
                     (Some true) (maxCost s) (trace s))
  | _, _, _ => Panic nil_deref
  end.

(** The callback handed to [pubsubClient.Receive]: one delivered
    message. *)
Definition onMessage (s : strategy) (message : string) : strategy :=
  match json_Unmarshal message with
  | inr invalMsg =>
      if String.eqb (msg_Key invalMsg) EmptyString then s
      else
        mkStrategy (l1_Del (l1Cache s) (msg_Key invalMsg)) (redisClient s)
                   (pubsubClient s) (cancelBgTasks s) (maxCost s)
                   (trace s ++ [EvCacheDel (msg_Key invalMsg)])
  | inl _ => s
  end.

(** [listenForInvalidations]: [Receive] hands every delivered message
    to the callback and returns, with [terminal], when the subscription
    ends.  The function has no result. *)
Definition listenForInvalidations (s : strategy) (delivered : list string)
           (terminal : option error) : panicking strategy :=
  match pubsubClient s with
  | None => Panic nil_deref
  | Some _ =>
      let s1 := fold_left onMessage delivered s in
      match terminal with
      | Some err =>
          if is_context_Canceled err then Ok s1
          else
            Ok (mkStrategy (l1Cache s1) (redisClient s1) (pubsubClient s1)
                           (cancelBgTasks s1) (maxCost s1)
                           (trace s1 ++
                              [EvLog ("Error in Pub/Sub listener: "
                                        +:+ error_Error err)]))
      | None => Ok s1
      end
  end.

(** The strategy behind the interface of package benchmark. *)
Definition methods : benchmark.CachingStrategy strategy :=
  {| benchmark.Name := Name;
     benchmark.Init := Init;
     benchmark.Read := Read;
     benchmark.Write := Write;
     benchmark.Close := Close |}.
End Strategy.

End implementations.

(* ===================================================================== *)
(** * Package main: the final comparison                                  *)
(* ===================================================================== *)

Module main.
Import benchmark.

(** [sort.Slice(r.Latencies, less)] with [less] the order of the
    durations: the slice ends up in ascending order. *)
Definition sort_Latencies (l : list Duration) : list Duration :=
  merge_sort Z.le l.

(** The constant [0.95] as a [float64]. *)
Definition f0_95 : float64 := S754_finite false 8556839292003942 (-53).

(** [int(float64(n) * 0.95)]. *)
Definition p95Index (n : Z) : option Z :=
  int_of_float64 (fmul (float64_of_int n) f0_95).

Definition p95_threshold : Z := 20.

(** The variable [p95Latency] after lines 236-244: the slice is sorted,
    then indexed when it holds more than 20 samples. *)
Definition p95Latency (lats : list Duration) : panicking Duration :=
  let sorted := sort_Latencies lats in
  let n := Z.of_nat (length sorted) in
  if p95_threshold <? n then
    match p95Index n with
    | Some i =>
        if i <? 0 then Panic "index out of range"
        else
          match sorted !! Z.to_nat i with
          | Some d => Ok d
          | None => Panic "index out of range"
          end
    | None => Panic "index out of range"
    end
  else Ok 0.

(** [Duration.Microseconds()]. *)
Definition Duration_Microseconds (d : Duration) : Z := Z.quot d 1000.

(** One line of the table, before formatting. *)
Record Row : Type := mkRow {
  row_StrategyName : string;
  row_OpsPerSecond : float64;
  row_HitRatePercent : float64;
  row_avgLatency : Duration;
  row_p95Latency : Duration;
  row_avgMillis : float64;
  row_p95Millis : float64
}.

(** Body of the inner loop of [printFinalComparison] for one result.
    The average divides by the number of samples: an integer division,
    which panics when there is none. *)
Definition comparisonRow (r : Result) : panicking Row :=
  match p95Latency (Latencies r) with
  | Panic msg => Panic msg
  | Ok p95 =>
      let totalLatency := fold_left add64 (sort_Latencies (Latencies r)) 0 in
      let n := Z.of_nat (length (Latencies r)) in
      if n =? 0 then Panic "integer divide by zero"
      else
        let avgLatency := Z.quot totalLatency n in
        Ok (mkRow (StrategyName r) (OpsPerSecond r)
                  (fmul (HitRate r) (float64_of_int 100))
                  avgLatency p95
                  (fdiv (float64_of_int (Duration_Microseconds avgLatency))
                        (float64_of_int 1000))
                  (fdiv (float64_of_int (Duration_Microseconds p95))
                        (float64_of_int 1000)))
  end.

Fixpoint comparisonRows (rs : list Result) : panicking (list Row) :=
  match rs with
  | [] => Ok []
  | r :: rest =>
      match comparisonRow r with
      | Panic msg => Panic msg
      | Ok row =>
          match comparisonRows rest with
          | Panic msg => Panic msg
          | Ok rows => Ok (row :: rows)
          end
      end
  end.

End main.

(* ===================================================================== *)
(** * Vocabulary of the specification                                     *)
(* ===================================================================== *)

Import workload benchmark.

Module accounting.

(** Sum of an integer measure over a list. *)
Fixpoint sumZ {A : Type} (f : A -> Z) (l : list A) : Z :=
  match l with
  | [] => 0
  | x :: l' => f x + sumZ f l'
  end.

(** The four outcomes of a strategy call, read off its record: a Read
    that returned without error (hit or miss), a Write that returned
    without error, and a call that returned an error. *)
Definition read_ok (e : call_event) : bool :=
  match Type_ (ev_op e), ev_err e with
  | ReadOp, None => true
  | _, _ => false
  end.
Definition counted_hit (e : call_event) : bool := read_ok e && ev_hit e.
Definition counted_miss (e : call_event) : bool := read_ok e && negb (ev_hit e).
Definition counted_write (e : call_event) : bool :=
  match Type_ (ev_op e), ev_err e with
  | WriteOp, None => true
  | _, _ => false
  end.
Definition counted_error (e : call_event) : bool :=
  match ev_err e with
  | Some _ => true
  | None => false
  end.

(** Number of calls of a kind in a history. *)
Definition count (p : call_event -> bool) (h : list call_event) : Z :=
  sumZ (fun e => Z.b2z (p e)) h.

(** What a worker still has to add to the shared state for the call it
    is in the middle of. *)
Definition owed (p : call_event -> bool) (w : worker_state) : Z :=
  match w with
  | WCount _ op _ hit err => Z.b2z (p (mkCall 0 op None hit err))
  | _ => 0
  end.
Definition owed_error (w : worker_state) : Z :=
  match w with
  | WCount _ _ _ _ (Some _) | WSend _ _ (Some _) | WErr _ (Some _) => 1
  | _ => 0
  end.
Definition owed_latency (w : worker_state) : Z :=
  match w with
  | WCount _ _ _ _ _ | WSend _ _ _ => 1
  | _ => 0
  end.
Definition in_hand (w : worker_state) : Z :=
  match w with
  | WCall _ _ => 1
  | _ => 0
  end.

Definition same_frame (r r0 : Result) : Prop :=
  StrategyName r = StrategyName r0 /\ TotalOperations r = TotalOperations r0 /\
  TotalDuration r = TotalDuration r0 /\ HitRate r = HitRate r0 /\
  OpsPerSecond r = OpsPerSecond r0 /\ Latencies r = Latencies r0.

(** The invariant of the concurrent phase: every operation of the
    workload is in the queue, in a worker's hand, or in the history;
    every call of the history is in a counter or owed to it by the
    worker that made it; likewise for the latencies. *)
Record Inv {S : Type} (total : Z) (r0 : Result) (m : machine S) : Prop := mkInv {
  inv_hits : TotalHits (m_result m) + sumZ (owed counted_hit) (m_workers m)
             = count counted_hit (m_history m);
  inv_misses : TotalMisses (m_result m) + sumZ (owed counted_miss) (m_workers m)
             = count counted_miss (m_history m);
  inv_writes : TotalWrites (m_result m) + sumZ (owed counted_write) (m_workers m)
             = count counted_write (m_history m);
  inv_errors : TotalErrors (m_result m) + sumZ owed_error (m_workers m)
             = count counted_error (m_history m);
  inv_latencies : Z.of_nat (length (m_latencies m))
                  + sumZ owed_latency (m_workers m)
                  = Z.of_nat (length (m_history m));
  inv_ops : Z.of_nat (length (m_history m)) + sumZ in_hand (m_workers m)
            + Z.of_nat (length (m_ops m)) = total;
  inv_nonneg : 0 <= TotalHits (m_result m) /\ 0 <= TotalMisses (m_result m) /\
               0 <= TotalWrites (m_result m) /\ 0 <= TotalErrors (m_result m);
  inv_frame : same_frame (m_result m) r0;
  inv_done : m_ops m = [] \/ Forall (fun w => is_done w = false) (m_workers m)
}.

(** The measure that bounds the run: nothing once the process crashed. *)
Definition measure {S : Type} (m : machine S) : nat :=
  match m_panic m with
  | Some _ => 0%nat
  | None => steps_bound m
  end.

(** The machine [Run] starts the workers on, and the one they leave. *)
Definition start_machine {S : Type} (r : Runner S) (s0 : S) : machine S :=
  mkMachine s0 (workload r) [] (result r)
            (replicate (Z.to_nat (concurrency r)) WStart) 1%nat None [].

Definition end_machine {S : Type} (env : Environment) (r : Runner S) (s0 : S)
  : machine S :=
  run_workers (methods r) env (valueSizeBytes r)
              (steps_bound (start_machine r s0)) (start_machine r s0).

(** A strategy whose methods, from a state satisfying [P], return
    instead of panicking, and keep [P]. *)
Definition strategy_safe {S : Type} (impl : CachingStrategy S)
           (P : S -> Prop) : Prop :=
  forall s, P s ->
    (forall k, exists out s', Read impl s k = Ok (out, s') /\ P s') /\
    (forall k v, exists e s', Write impl s k v = Ok (e, s') /\ P s') /\
    (exists e s', Close impl s = Ok (e, s')).

End accounting.
Import accounting.

(** The state the Ristretto + Pub/Sub strategy is in once [Init] has
    succeeded: the two clients and the cancel function are in place. *)
Module safety.
Import implementations.

Definition initialised {C R : Type} (s : RistrettoPubSubStrategy C R) : Prop :=
  is_Some (redisClient s) /\ is_Some (pubsubClient s) /\
  is_Some (cancelBgTasks s).

End safety.
Import safety.

(** * Vocabulary for binary64 rounding

    [binary_round_aux] of the Standard Library shifts the mantissa bit
    by bit; the lemmas below describe its result arithmetically. *)

Module rounding.

(** Round to nearest, ties to even, of [m / u]. *)
Definition rne_by (m u : Z) : Z :=
  let q := m / u in
  let rem := m mod u in
  if 2 * rem <? u then q
  else if 2 * rem =? u then (if Z.even q then q else q + 1)
  else q + 1.

(** Round to nearest, ties to even, of [m / 2 ^ sh]. *)
Definition rne (m sh : Z) : Z := rne_by m (2 ^ sh).

(** The binary64 nearest to [m * 2 ^ e], for [m] of more than 53 bits
    and a result in the normal range. *)
Definition rounded (sx : bool) (m e : Z) : spec_float :=
  let sh := Z.log2 m + 1 - 53 in
  let mr := rne m sh in
  if mr <? 2 ^ 53 then S754_finite sx (Z.to_pos mr) (e + sh)
  else S754_finite sx (Z.to_pos (2 ^ 52)) (e + sh + 1).

(** Mantissa of the constant [0.95]: [0.95 = M95 / 2 ^ 53] rounded. *)
Definition M95 : Z := 8556839292003942.

End rounding.
Import rounding.

(* ===================================================================== *)
(** * Executable stand-ins for the libraries                              *)
(* ===================================================================== *)

(** The strategy is written against three libraries.  The theorems hold
    for every implementation of their interfaces; the ones below make
    the code run on concrete inputs. *)
Module instances.
Import implementations.

(** ** A cost-bounded cache *)

Record MapCache : Type := mkMapCache {
  mc_entries : gmap string (string * Z);
  mc_budget : Z
}.

Definition mc_used (entries : gmap string (string * Z)) : Z :=
  map_fold (fun _ e acc => snd e + acc) 0 entries.

Definition MapCache_New (numCounters maxCost bufferItems : Z)
  : error + MapCache :=
  if numCounters <=? 0 then inl (errorString "NumCounters can't be zero")
  else if maxCost <=? 0 then inl (errorString "MaxCost can't be zero")
  else if bufferItems <=? 0 then inl (errorString "BufferItems can't be zero")
  else inr (mkMapCache ∅ maxCost).

Definition MapCache_Get (c : MapCache) (key : string)
  : option string * MapCache :=
  (fst <$> mc_entries c !! key, c).

(** An entry is admitted when the budget has room for it beside the
    other entries. *)
Definition MapCache_Set (c : MapCache) (key value : string) (cost : Z)
  : bool * MapCache :=
  if cost <=? mc_budget c - mc_used (delete key (mc_entries c)) then
    (true, mkMapCache (<[key := (value, cost)]> (mc_entries c)) (mc_budget c))
  else (false, c).

Definition MapCache_Del (c : MapCache) (key : string) : MapCache :=
  mkMapCache (delete key (mc_entries c)) (mc_budget c).

#[export] Instance MapCache_L1 : L1Cache MapCache := {|
  ristretto_NewCache := MapCache_New;
  cache_Get := MapCache_Get;
  cache_Set := MapCache_Set;
  cache_Del := MapCache_Del;
  cache_Close := fun c => c
|}.

(** ** A key-value server with a Pub/Sub outbox *)

Record MapRedis : Type := mkMapRedis {
  mr_store : gmap string string;
  mr_published : list (string * string);
  mr_connected : bool
}.

Definition MapRedis_Do (r : MapRedis) (cmd : Command)
  : RedisResult * MapRedis :=
  if negb (mr_connected r) then
    (RedisError (errorString "connection lost"), r)
  else
    match cmd with
    | CmdGet key =>
        match mr_store r !! key with
        | Some v => (RedisReply v, r)
        | None => (RedisError (errorString "redis nil message"), r)
        end
    | CmdSet key value =>
        (RedisReply "OK",
         mkMapRedis (<[key := value]> (mr_store r)) (mr_published r) true)
    | CmdPublish channel message =>
        (RedisReply "1",
         mkMapRedis (mr_store r) (mr_published r ++ [(channel, message)]) true)
    end.

(** The clients of a server holding [server], of which the [n]-th
    connection attempt succeeds when [reachable n]. *)
Definition MapRedis_client (server : gmap string string)
           (reachable : nat -> bool) : RedisClient MapRedis := {|
  rueidis_NewClient := fun n =>
    if reachable n then inr (mkMapRedis server [] true)
    else inl (errorString "dial tcp 127.0.0.1:6379: connect: connection refused");
  redis_Do := MapRedis_Do;
  redis_Close := fun r => mkMapRedis (mr_store r) (mr_published r) false
|}.

(** ** JSON, at the type [InvalidationMessage] *)

Inductive json : Type :=
| JNull
| JBool (b : bool)
| JNumber
| JString (s : string)
| JArray (items : list json)
| JObject (members : list (string * json)).

Definition code (c : ascii) : N := N_of_ascii c.
Definition chr (n : N) : ascii := ascii_of_N n.

(** The double quote, and a word between double quotes. *)
Definition dquote : ascii := chr 34.
Definition quoted (s : string) : string :=
  String dquote (s +:+ String dquote EmptyString).

Definition is_ws (c : ascii) : bool :=
  (code c =? 32)%N || (code c =? 9)%N || (code c =? 10)%N || (code c =? 13)%N.

Fixpoint skip_ws (s : string) : string :=
  match s with
  | String c s' => if is_ws c then skip_ws s' else s
  | EmptyString => s
  end.

Definition is_digit (c : ascii) : bool :=
  (48 <=? code c)%N && (code c <=? 57)%N.

Definition hex_val (c : ascii) : option N :=
  let n := code c in
  if (48 <=? n)%N && (n <=? 57)%N then Some (n - 48)%N
  else if (97 <=? n)%N && (n <=? 102)%N then Some (n - 87)%N
  else if (65 <=? n)%N && (n <=? 70)%N then Some (n - 55)%N
  else None.

Definition parse_hex4 (s : string) : option (N * string) :=
  match s with
  | String a (String b (String c (String d rest))) =>
      match hex_val a, hex_val b, hex_val c, hex_val d with
      | Some x, Some y, Some z, Some t =>
          Some ((((x * 16 + y) * 16 + z) * 16 + t)%N, rest)
      | _, _, _, _ => None
      end
  | _ => None
  end.

(** UTF-8 encoding of a code point. *)
Definition utf8 (cp : N) : string :=
  (if cp <? 128 then String (chr cp) EmptyString
   else if cp <? 2048 then
     String (chr (192 + cp / 64)) (String (chr (128 + cp mod 64)) EmptyString)
   else if cp <? 65536 then
     String (chr (224 + cp / 4096))
       (String (chr (128 + (cp / 64) mod 64))
          (String (chr (128 + cp mod 64)) EmptyString))
   else
     String (chr (240 + cp / 262144))
       (String (chr (128 + (cp / 4096) mod 64))
          (String (chr (128 + (cp / 64) mod 64))
             (String (chr (128 + cp mod 64)) EmptyString))))%N.

Definition is_surrogate (cp : N) : bool := (55296 <=? cp)%N && (cp <? 57344)%N.

(** A [\uXXXX] escape whose digits were read as [cp]: a surrogate pair
    is one code point, a lone surrogate the replacement character. *)
Definition unescape_u (cp : N) (rest : string) : string * string :=
  if is_surrogate cp then
    match rest with
    | String "\" (String "u" rest1) =>
        match parse_hex4 rest1 with
        | Some (cp2, rest2) =>
            if (cp <? 56320)%N && (56320 <=? cp2)%N && (cp2 <? 57344)%N then
              (utf8 (65536 + (cp - 55296) * 1024 + (cp2 - 56320))%N, rest2)
            else (utf8 65533, rest)
        | None => (utf8 65533, rest)
        end
    | _ => (utf8 65533, rest)
    end
  else (utf8 cp, rest).

(** The characters of a string literal after its opening quote. *)
Fixpoint parse_string_body (fuel : nat) (s : string) : option (string * string) :=
  match fuel with
  | O => None
  | S fuel' =>
      match s with
      | EmptyString => None
      | String c rest =>
          if (code c =? 34)%N then Some (EmptyString, rest)
          else if (code c =? 92)%N then
            match rest with
            | EmptyString => None
            | String e rest1 =>
                let simple (x : N) :=
                  match parse_string_body fuel' rest1 with
                  | Some (body, r) => Some (String (chr x) body, r)
                  | None => None
                  end in
                if (code e =? 34)%N then simple 34%N
                else if (code e =? 92)%N then simple 92%N
                else if (code e =? 47)%N then simple 47%N
                else if (code e =? 98)%N then simple 8%N
                else if (code e =? 102)%N then simple 12%N
                else if (code e =? 110)%N then simple 10%N
                else if (code e =? 114)%N then simple 13%N
                else if (code e =? 116)%N then simple 9%N
                else if (code e =? 117)%N then
                  match parse_hex4 rest1 with
                  | Some (cp, rest2) =>
                      let '(bytes, rest3) := unescape_u cp rest2 in
                      match parse_string_body fuel' rest3 with
                      | Some (body, r) => Some ((bytes +:+ body)%string, r)
                      | None => None
                      end
                  | None => None
                  end
                else None
            end
          else if (code c <? 32)%N then None
          else
            match parse_string_body fuel' rest with
            | Some (body, r) => Some (String c body, r)
            | None => None
            end
      end
  end.

Fixpoint skip_digits (s : string) : nat * string :=
  match s with
  | String c s' =>
      if is_digit c then
        let '(n, r) := skip_digits s' in (S n, r)
      else (O, s)
  | EmptyString => (O, s)
  end.

(** A number: sign, integer part without leading zero, fraction,
    exponent.  Gives what follows it. *)
Definition parse_number (s : string) : option string :=
  let s1 :=
    match s with
    | String "-" r => r
    | _ => s
    end in
  let after_int :=
    match s1 with
    | String "0" r => Some r
    | String c _ =>
        if is_digit c then Some (snd (skip_digits s1)) else None
    | EmptyString => None
    end in
  match after_int with
  | None => None
  | Some s2 =>
      let after_frac :=
        match s2 with
        | String "." r =>
            match skip_digits r with
            | (O, _) => None
            | (_, r') => Some r'
            end
        | _ => Some s2
        end in
      match after_frac with
      | None => None
      | Some s3 =>
          match s3 with
          | String c r =>
              if (code c =? 101)%N || (code c =? 69)%N then
                let r1 :=
                  match r with
                  | String "+" r' => r'
                  | String "-" r' => r'
                  | _ => r
                  end in
                match skip_digits r1 with
                | (O, _) => None
                | (_, r') => Some r'
                end
              else Some s3
          | EmptyString => Some s3
          end
      end
  end.

Definition strip_prefix (p s : string) : option string :=
  if String.prefix p s then
    Some (String.substring (String.length p)
            (String.length s - String.length p) s)
  else None.

(** A value, the members of an object after its brace or a comma, the
    elements of an array after its bracket or a comma. *)
Fixpoint parse_value (fuel : nat) (s : string) {struct fuel}
  : option (json * string) :=
  match fuel with
  | O => None
  | S fuel' =>
      match skip_ws s with
      | EmptyString => None
      | String c rest =>
          if (code c =? 123)%N then
            match skip_ws rest with
            | String "}" r => Some (JObject [], r)
            | _ =>
                match parse_members fuel' rest with
                | Some (ms, r) => Some (JObject ms, r)
                | None => None
                end
            end
          else if (code c =? 91)%N then
            match skip_ws rest with
            | String "]" r => Some (JArray [], r)
            | _ =>
                match parse_elements fuel' rest with
                | Some (xs, r) => Some (JArray xs, r)
                | None => None
                end
            end
          else if (code c =? 34)%N then
            match parse_string_body (S (String.length rest)) rest with
            | Some (str, r) => Some (JString str, r)
            | None => None
            end
          else if (code c =? 116)%N then
            option_map (fun r => (JBool true, r)) (strip_prefix "rue" rest)
          else if (code c =? 102)%N then
            option_map (fun r => (JBool false, r)) (strip_prefix "alse" rest)
          else if (code c =? 110)%N then
            option_map (fun r => (JNull, r)) (strip_prefix "ull" rest)
          else
            option_map (fun r => (JNumber, r)) (parse_number (String c rest))
      end
  end
with parse_members (fuel : nat) (s : string) {struct fuel}
  : option (list (string * json) * string) :=
  match fuel with
  | O => None
  | S fuel' =>
      match skip_ws s with
      | String q rest =>
          if negb (code q =? 34)%N then None else
          match parse_string_body (S (String.length rest)) rest with
          | Some (name, r1) =>
              match skip_ws r1 with
              | String ":" r2 =>
                  match parse_value fuel' r2 with
                  | Some (v, r3) =>
                      match skip_ws r3 with
                      | String "," r4 =>
                          match parse_members fuel' r4 with
                          | Some (ms, r5) => Some ((name, v) :: ms, r5)
                          | None => None
                          end
                      | String "}" r4 => Some ([(name, v)], r4)
                      | _ => None
                      end
                  | None => None
                  end
              | _ => None
              end
          | None => None
          end
      | _ => None
      end
  end
with parse_elements (fuel : nat) (s : string) {struct fuel}
  : option (list json * string) :=
  match fuel with
  | O => None
  | S fuel' =>
      match parse_value fuel' s with
      | Some (v, r1) =>
          match skip_ws r1 with
          | String "," r2 =>
              match parse_elements fuel' r2 with
              | Some (xs, r3) => Some (v :: xs, r3)
              | None => None
              end
          | String "]" r2 => Some ([v], r2)
          | _ => None
          end
      | None => None
      end
  end.

(** Folding of a member name before it is compared with the field's
    name: ASCII letters to lower case, the Kelvin sign to [k]. *)
Definition lower (a : ascii) : ascii :=
  if (65 <=? code a)%N && (code a <=? 90)%N then chr (code a + 32) else a.

Fixpoint fold_name (s : string) : string :=
  match s with
  | EmptyString => EmptyString
  | String a r1 =>
      match r1 with
      | String b (String c r3) =>
          if (code a =? 226)%N && (code b =? 132)%N && (code c =? 170)%N then
            String "k" (fold_name r3)
          else String (lower a) (fold_name r1)
      | _ => String (lower a) (fold_name r1)
      end
  end.

Definition type_error : error :=
  errorString "json: cannot unmarshal value into Go struct field InvalidationMessage.key of type string".

(** Decoding of the members into the single field [Key]: a later
    member overrides an earlier one, [null] leaves the field alone,
    a value that is not a string is an error, reported at the end. *)
Fixpoint decode_members (ms : list (string * json)) (key : string)
         (err : option error) : string * option error :=
  match ms with
  | [] => (key, err)
  | (name, v) :: rest =>
      if String.eqb (fold_name name) "key" then
        match v with
        | JString s => decode_members rest s err
        | JNull => decode_members rest key err
        | _ =>
            decode_members rest key
              (match err with
               | Some e => Some e
               | None => Some type_error
               end)
        end
      else decode_members rest key err
  end.

Definition Unmarshal (data : string) : error + InvalidationMessage :=
  match parse_value (2 * String.length data + 2) data with
  | Some (j, rest) =>
      match skip_ws rest with
      | EmptyString =>
          match j with
          | JNull => inr (mkInvalidationMessage EmptyString)
          | JObject ms =>
              match decode_members ms EmptyString None with
              | (key, None) => inr (mkInvalidationMessage key)
              | (_, Some e) => inl e
              end
          | _ =>
              inl (errorString
                     "json: cannot unmarshal value into Go value of type implementations.InvalidationMessage")
          end
      | _ => inl (errorString "invalid character after top-level value")
      end
  | None => inl (errorString "invalid JSON input")
  end.

Definition hex2 (n : N) : string :=
  String (hex_digit (n / 16)%N) (String (hex_digit (n mod 16)%N) EmptyString).

(** The escapes [json.Marshal] writes inside a string literal. *)
Fixpoint escape (s : string) : string :=
  match s with
  | EmptyString => EmptyString
  | String c rest =>
      let n := code c in
      let tail := escape rest in
      if (n =? 34)%N then String "\" (String dquote tail)
      else if (n =? 92)%N then String "\" (String "\" tail)
      else if (n =? 8)%N then String "\" (String "b" tail)
      else if (n =? 12)%N then String "\" (String "f" tail)
      else if (n =? 10)%N then String "\" (String "n" tail)
      else if (n =? 13)%N then String "\" (String "r" tail)
      else if (n =? 9)%N then String "\" (String "t" tail)
      else if (n <? 32)%N || (n =? 60)%N || (n =? 62)%N || (n =? 38)%N then
        ("\u00" +:+ hex2 n +:+ tail)%string
      else String c tail
  end.

Definition Marshal (m : InvalidationMessage) : string :=
  ("{" +:+ quoted "key" +:+ ":" +:+ String dquote (escape (msg_Key m))
       +:+ String dquote "}")%string.

#[export] Instance JSON_codec : JSONCodec := {|
  json_Marshal := Marshal;
  json_Unmarshal := Unmarshal
|}.

(** ** Pseudo-random sources

    A linear congruential generator in the place of the sources of
    [math/rand] and [x/exp/rand].  [Float64] divides 53 bits of the
    state by [2 ^ 53], as [math/rand] does, so its draws lie in
    [[0, 1)]. *)
Record LCG : Type := mkLCG { lcg_state : Z }.

Definition LCG_next (s : Z) : Z :=
  (6364136223846793005 * s + 1442695040888963407) mod 2 ^ 63.

Definition LCG_Float64 (g : LCG) : float64 * LCG :=
  let s := LCG_next (lcg_state g) in
  (fdiv (float64_of_int (s / 2 ^ 10)) (float64_of_int (2 ^ 53)), mkLCG s).

Definition LCG_Intn (g : LCG) (n : Z) : Z * LCG :=
  let s := LCG_next (lcg_state g) in
  (s mod n, mkLCG s).

#[export] Instance LCG_rand : workload.RandSource LCG := {|
  workload.rand_Float64 := LCG_Float64;
  workload.rand_Intn := LCG_Intn
|}.

(** A rank source over [[0, imax]] for the Zipf generator. *)
Record RankSource : Type := mkRankSource { rs_imax : Z; rs_state : Z }.

Definition RankSource_Uint64 (z : RankSource) : Z * RankSource :=
  let s := LCG_next (rs_state z) in
  (s mod (rs_imax z + 1), mkRankSource (rs_imax z) s).

#[export] Instance RankSource_zipf : workload.ZipfSource RankSource := {|
  workload.zipf_Uint64 := RankSource_Uint64
|}.

(** ** An environment: workers take turns, the clock advances by one
    microsecond per step. *)
Definition byte_of_nat (n : nat) : byte :=
  match Byte.of_N (N.of_nat (n mod 256)) with
  | Some b => b
  | None => x00
  end.

Definition round_robin : benchmark.Environment :=
  benchmark.mkEnvironment (fun t => t) (fun t => 1000 * Z.of_nat t)
                          (fun w i => byte_of_nat (31 * w + i)).

End instances.

(* ===================================================================== *)
(** * A sample deployment                                                 *)
(* ===================================================================== *)

(** One key on the server, a cache budget of 1000 bytes, two workers and
    payloads of four random bytes; used to run the definitions. *)
Module examples.
Import implementations instances.
Local Open Scope string_scope.

Definition server : gmap string string := {[ "key-1" := "v1" ]}.

(** The strategy against a server that answers, and against one that
    refuses every connection. *)
Definition redis : RedisClient MapRedis := MapRedis_client server (fun _ => true).

Definition online : CachingStrategy (RistrettoPubSubStrategy MapCache MapRedis) :=
  @methods MapCache MapRedis MapCache_L1 redis JSON_codec.

Definition offline : CachingStrategy (RistrettoPubSubStrategy MapCache MapRedis) :=
  @methods MapCache MapRedis MapCache_L1
           (MapRedis_client server (fun _ => false)) JSON_codec.

Definition fresh : RistrettoPubSubStrategy MapCache MapRedis :=
  mkStrategy None None None None 1000 [].

(** The strategy as [Init] leaves it. *)
Definition ready : RistrettoPubSubStrategy MapCache MapRedis :=
  mkStrategy (Some (mkMapCache ∅ 1000)) (Some (mkMapRedis server [] true))
             (Some (mkMapRedis server [] true)) (Some false) 1000 [].

Definition ops : list Operation :=
  [mkOperation ReadOp "key-1"; mkOperation WriteOp "key-2";
   mkOperation ReadOp "key-2"; mkOperation ReadOp "key-1";
   mkOperation ReadOp "key-3"].

Definition run_online : RunExec (RistrettoPubSubStrategy MapCache MapRedis) :=
  Run round_robin (NewRunner online fresh ops 2 4).

Definition run_offline : RunExec (RistrettoPubSubStrategy MapCache MapRedis) :=
  Run round_robin (NewRunner offline fresh ops 2 4).

(** Forty samples, from 40 down to 1 nanosecond. *)
Definition samples : Result :=
  mkResult EmptyString 0 0 0 0 0 0 fzero fzero (map Z.of_nat (rev (seq 1 40))).

(** Invalidation messages: for a key, without a key, and not JSON. *)
Definition msg_key1 : string := Marshal (mkInvalidationMessage "key-1").
Definition msg_no_key : string := "{}".
Definition msg_garbage : string := "not json".

End examples.

(* ===================================================================== *)
(** * Vocabulary for the queue, the payloads and the clock                *)
(* ===================================================================== *)

Module tracking.

(** The operation a worker has taken from the channel and not yet
    passed to the strategy. *)
Definition held (w : worker_state) : list Operation :=
  match w with
  | WCall _ op => [op]
  | _ => []
  end.

(** The payload a worker carries once it has generated it. *)
Definition carried (w : worker_state) : option string :=
  match w with
  | WStart | WDone => None
  | WReceive v | WCall v _ | WCount v _ _ _ _ | WSend v _ _ | WErr v _ => Some v
  end.

(** A call as worker [ev_worker e] of a run with payloads of [size]
    random bytes makes it: a read passes no value, a write passes the
    payload of its worker. *)
Definition payload_ok (env : Environment) (size : Z) (e : call_event) : Prop :=
  match Type_ (ev_op e) with
  | ReadOp => ev_written e = None
  | WriteOp =>
      exists v, ev_written e = Some v /\
                generateValue (entropy env (ev_worker e)) size = Ok v
  end.

(** The reading of the clock a worker took before its call. *)
Definition started (w : worker_state) : option Z :=
  match w with
  | WCount _ _ start _ _ | WSend _ start _ => Some start
  | _ => None
  end.

(** A clock that does not go back. *)
Definition monotone (env : Environment) : Prop :=
  forall t, now env t <= now env (S t).

(** Every operation of the workload [w0] is in the history, in a
    worker's hand or still queued. *)
Definition conserved {S : Type} (w0 : list Operation) (m : machine S) : Prop :=
  map ev_op (m_history m) ++ flat_map held (m_workers m) ++ m_ops m ≡ₚ w0.

(** With a single worker the three parts are, in this order, the
    workload. *)
Definition in_order {S : Type} (w0 : list Operation) (m : machine S) : Prop :=
  exists wk, m_workers m = [wk] /\
             map ev_op (m_history m) ++ held wk ++ m_ops m = w0.

(** No worker has returned while operations are queued. *)
Definition draining {S : Type} (m : machine S) : Prop :=
  m_ops m = [] \/ Forall (fun w => is_done w = false) (m_workers m).

(** Every worker carries the payload generated from its own random
    bytes, and every call in the history was made with it by one of the
    workers. *)
Definition payloads {S : Type} (env : Environment) (size : Z) (m : machine S)
  : Prop :=
  (forall i w v, m_workers m !! i = Some w -> carried w = Some v ->
                 generateValue (entropy env i) size = Ok v) /\
  Forall (fun e => payload_ok env size e /\
                   (ev_worker e < length (m_workers m))%nat) (m_history m).

(** The clock readings held by the workers lie between the start of the
    run and the present, and so do the latencies sent so far. *)
Definition timed {S : Type} (env : Environment) (m : machine S) : Prop :=
  (forall i w start, m_workers m !! i = Some w -> started w = Some start ->
                     now env 0 <= start <= now env (m_clock m)) /\
  Forall (fun l => 0 <= l <= time_Since env (m_clock m) (now env 0))
         (m_latencies m).

End tracking.
Import tracking.

(** The key a delivered message asks to evict, if any: the message must
    parse and name a non-empty key. *)
Module invalidation.
Import implementations.


End invalidation.
Import invalidation.

(* ===================================================================== *)
(** * Package implementations: Rueidis client-side caching                *)
(* ===================================================================== *)

Module csc.
Import implementations.

(** [rueidis.Client] as this strategy uses it: created with a
    per-connection cache size, [DoCache] answers a cacheable [GET] with
    a time to live and tells whether the answer came from the client's
    own cache, [Do] sends a command. *)
Class CachingClient (R : Type) : Type := {
  csc_NewClient : Z -> error + R;
  csc_DoCache : R -> string -> Duration -> (RedisResult * bool) * R;
  csc_Do : R -> Command -> RedisResult * R;
  csc_Close : R -> R
}.

(** The struct [RueidisCSCStrategy]; [client] is [None] while nil. *)
Record RueidisCSCStrategy (R : Type) : Type := mkCSC {
  client : option R;
  keyCountLimit : Z
}.
Arguments mkCSC {R} _ _.
Arguments client {R} _.
Arguments keyCountLimit {R} _.

Definition Minute : Duration := 60 * Second.

Section Strategy.
Context {R : Type} `{CachingClient R}.

Definition NewRueidisCSCStrategy (keyCountLimit : Z) : RueidisCSCStrategy R :=
  mkCSC None keyCountLimit.

Definition Name (s : RueidisCSCStrategy R) : string :=
  "Rueidis Client-Side Caching".

(** [Init]: the client is assigned whatever [NewClient] returned, nil
    on an error. *)
Definition Init (s : RueidisCSCStrategy R)
  : panicking (option error * RueidisCSCStrategy R) :=
  match csc_NewClient (keyCountLimit s) with
  | inl err => Ok (Some err, mkCSC None (keyCountLimit s))
  | inr c => Ok (None, mkCSC (Some c) (keyCountLimit s))
  end.

(** [Read]: a cacheable [GET] with a time to live of ten minutes. *)
Definition Read (s : RueidisCSCStrategy R) (key : string)
  : panicking ((string * bool * option error) * RueidisCSCStrategy R) :=
  match client s with
  | None => Panic nil_deref
  | Some c =>
      let '((resp, hit), c1) := csc_DoCache c key (10 * Minute) in
      let '(value, err) :=
        match RedisResult_Error resp with
        | None => RedisResult_ToString resp
        | Some e => (EmptyString, Some e)
        end in
      Ok ((value, hit, err), mkCSC (Some c1) (keyCountLimit s))
  end.

Definition Write (s : RueidisCSCStrategy R) (key value : string)
  : panicking (option error * RueidisCSCStrategy R) :=
  match client s with
  | None => Panic nil_deref
  | Some c =>
      let '(resp, c1) := csc_Do c (CmdSet key value) in
      Ok (RedisResult_Error resp, mkCSC (Some c1) (keyCountLimit s))
  end.

Definition Close (s : RueidisCSCStrategy R)
  : panicking (option error * RueidisCSCStrategy R) :=
  match client s with
  | None => Panic nil_deref
  | Some c => Ok (None, mkCSC (Some (csc_Close c)) (keyCountLimit s))
  end.

Definition methods : benchmark.CachingStrategy (RueidisCSCStrategy R) :=
  {| benchmark.Name := Name;
     benchmark.Init := Init;
     benchmark.Read := Read;
     benchmark.Write := Write;
     benchmark.Close := Close |}.
End Strategy.

End csc.

(* ===================================================================== *)
(** * Package main: preparing the datastore                               *)
(* ===================================================================== *)

Module prepare.
Import implementations.

(** [rueidis.Client] as [prepareData] uses it: [FLUSHALL] through [Do],
    and [DoMulti], which pipelines a batch and returns one result per
    command. *)
Class BatchClient (R : Type) : Type := {
  batch_NewClient : error + R;
  batch_Flushall : R -> RedisResult * R;
  batch_DoMulti : R -> list Command -> list RedisResult * R;
  batch_Close : R -> R
}.

(** How a call of [prepareData] ends, and the client it leaves behind
    ([None] when none was created). *)
Record PrepareExec (R : Type) : Type := mkPrepareExec {
  prep_result : panicking (option error);
  prep_client : option R;
  prep_sent : list Command
}.
Arguments mkPrepareExec {R} _ _ _.
Arguments prep_result {R} _.
Arguments prep_client {R} _.
Arguments prep_sent {R} _.

(** The batch built by the first loop: [SET key-i value] for [i] from
    [0] to [numKeys - 1]. *)
Definition prepare_commands (numKeys : Z) (value : string) : list Command :=
  map (fun i => CmdSet ("key-" +:+ Sprintf_d (Z.of_nat i)) value)
      (seq 0 (Z.to_nat numKeys)).

(** The first error among the results of the batch. *)
Fixpoint first_error (resps : list RedisResult) : option error :=
  match resps with
  | [] => None
  | resp :: rest =>
      match RedisResult_Error resp with
      | Some err => Some err
      | None => first_error rest
      end
  end.

(** [prepareData].  The log lines are left out.  [client.Close] is
    deferred, so it also runs when [make] panics on a negative
    [numKeys] or [generateValue] on a negative size. *)
Definition prepareData {R : Type} `{BatchClient R} (src : nat -> byte)
           (numKeys valueSizeBytes : Z) : PrepareExec R :=
  match batch_NewClient with
  | inl err => mkPrepareExec (Ok (Some err)) None []
  | inr client =>
      let '(resp, c1) := batch_Flushall client in
      match RedisResult_Error resp with
      | Some err =>
          mkPrepareExec
            (Ok (Some (Errorf_w "failed to flush datastore: " err)))
            (Some (batch_Close c1)) []
      | None =>
          if numKeys <? 0 then
            mkPrepareExec (Panic "makeslice: cap out of range")
                          (Some (batch_Close c1)) []
          else
            match benchmark.generateValue src valueSizeBytes with
            | Panic msg => mkPrepareExec (Panic msg) (Some (batch_Close c1)) []
            | Ok value =>
                let cmds := prepare_commands numKeys value in
                let '(resps, c2) := batch_DoMulti c1 cmds in
                mkPrepareExec (Ok (first_error resps))
                              (Some (batch_Close c2)) cmds
            end
      end
  end.

End prepare.

(** ** Executable stand-ins for the two clients *)

Module clients.
Import implementations instances.

(** A client with a local cache of the values it has read: a cached
    key is answered without asking the server. *)
Record CachedRedis : Type := mkCachedRedis {
  cr_server : MapRedis;
  cr_cached : gmap string string
}.

Definition CachedRedis_DoCache (c : CachedRedis) (key : string) (ttl : Duration)
  : (RedisResult * bool) * CachedRedis :=
  match cr_cached c !! key with
  | Some v => ((RedisReply v, true), c)
  | None =>
      let '(resp, srv) := MapRedis_Do (cr_server c) (CmdGet key) in
      match resp with
      | RedisReply v => ((resp, false), mkCachedRedis srv (<[key := v]> (cr_cached c)))
      | RedisError _ => ((resp, false), mkCachedRedis srv (cr_cached c))
      end
  end.

Definition CachedRedis_Do (c : CachedRedis) (cmd : Command)
  : RedisResult * CachedRedis :=
  let '(resp, srv) := MapRedis_Do (cr_server c) cmd in
  (resp, mkCachedRedis srv
           match cmd with
           | CmdSet key _ => delete key (cr_cached c)
           | _ => cr_cached c
           end).

Definition CachedRedis_client (server : gmap string string) (reachable : bool)
  : csc.CachingClient CachedRedis := {|
  csc.csc_NewClient := fun limit =>
    if reachable then inr (mkCachedRedis (mkMapRedis server [] true) ∅)
    else inl (errorString "dial tcp 127.0.0.1:6379: connect: connection refused");
  csc.csc_DoCache := CachedRedis_DoCache;
  csc.csc_Do := CachedRedis_Do;
  csc.csc_Close := fun c =>
    mkCachedRedis (mkMapRedis (mr_store (cr_server c))
                              (mr_published (cr_server c)) false)
                  (cr_cached c)
|}.

(** A batch runs its commands one after the other. *)
Fixpoint MapRedis_DoMulti (r : MapRedis) (cmds : list Command)
  : list RedisResult * MapRedis :=
  match cmds with
  | [] => ([], r)
  | cmd :: rest =>
      let '(resp, r1) := MapRedis_Do r cmd in
      let '(resps, r2) := MapRedis_DoMulti r1 rest in
      (resp :: resps, r2)
  end.

Definition MapRedis_batch (server : gmap string string) (reachable : bool)
  : prepare.BatchClient MapRedis := {|
  prepare.batch_NewClient :=
    if reachable then inr (mkMapRedis server [] true)
    else inl (errorString "dial tcp 127.0.0.1:6379: connect: connection refused");
  prepare.batch_Flushall := fun r =>
    if mr_connected r then (RedisReply "OK", mkMapRedis ∅ (mr_published r) true)
    else (RedisError (errorString "connection lost"), r);
  prepare.batch_DoMulti := MapRedis_DoMulti;
  prepare.batch_Close := fun r => mkMapRedis (mr_store r) (mr_published r) false
|}.

End clients.

(** ** Counting operations and commands *)

Module traffic.
Import implementations.

Definition is_read (op : Operation) : bool :=
  match Type_ op with
  | ReadOp => true
  | WriteOp => false
  end.

Definition is_write (op : Operation) : bool := negb (is_read op).

(** The reads and the writes of a workload. *)
Definition reads (w : list Operation) : Z := sumZ (fun op => Z.b2z (is_read op)) w.
Definition writes (w : list Operation) : Z := sumZ (fun op => Z.b2z (is_write op)) w.

Definition is_get (cmd : Command) : bool :=
  match cmd with CmdGet _ => true | _ => false end.
Definition is_set (cmd : Command) : bool :=
  match cmd with CmdSet _ _ => true | _ => false end.
Definition is_publish (cmd : Command) : bool :=
  match cmd with CmdPublish _ _ => true | _ => false end.

(** The commands of one kind among the effects of a strategy. *)
Definition sent (p : Command -> bool) (tr : list effect) : Z :=
  sumZ (fun ev => match ev with EvRedis cmd => Z.b2z (p cmd) | _ => 0 end) tr.

(** The commands the strategy has sent, against the calls made: one
    [GET] per read that was not a local hit, one [SET] per write, and a
    [PUBLISH] for every write that succeeded and at most one per write;
    a hit is a read without error. *)
Definition accounted {C R : Type}
           (m : machine (RistrettoPubSubStrategy C R)) : Prop :=
  let tr := trace (m_strategy m) in
  let h := m_history m in
  sent is_get tr
    = count (fun e => is_read (ev_op e) && negb (ev_hit e)) h /\
  sent is_set tr = count (fun e => is_write (ev_op e)) h /\
  count counted_write h <= sent is_publish tr
    <= count (fun e => is_write (ev_op e)) h /\
  Forall (fun e => ev_hit e = true ->
                   ev_err e = None /\ is_read (ev_op e) = true) h.

End traffic.
Import traffic.

(** ** More of the sample deployment *)

Module samples.
Import implementations instances.
Local Open Scope string_scope.

(** The client-side caching strategy against the sample server. *)
Definition caching : csc.CachingClient clients.CachedRedis :=
  clients.CachedRedis_client examples.server true.

Definition csc_online : CachingStrategy (csc.RueidisCSCStrategy clients.CachedRedis) :=
  @csc.methods clients.CachedRedis caching.

(** The Ristretto strategy with ["key-1"] already in its local cache. *)
Definition warm_cache : MapCache :=
  mkMapCache {[ "key-1" := ("v1", 2) ]} 1000.

Definition warm : RistrettoPubSubStrategy MapCache MapRedis :=
  mkStrategy (Some warm_cache)
             (Some (mkMapRedis examples.server [] true))
             (Some (mkMapRedis examples.server [] true)) (Some false) 1000 [].

(** A rank source that stays below ten. *)
Definition ranks10 : workload.ZipfSource LCG := {|
  workload.zipf_Uint64 := fun g =>
    let s := LCG_next (lcg_state g) in (s mod 10, mkLCG s)
|}.

(** A result without any latency. *)
Definition no_samples : Result :=
  mkResult EmptyString 0 0 0 0 0 0 fzero fzero [].

End samples.

(* ===================================================================== *)
(** * The benchmark engine: invariant and termination                    *)
(* ===================================================================== *)


Lemma wrap64_small z : - 2 ^ 63 <= z <= MaxInt64 -> wrap64 z = z.
Proof.
  unfold wrap64, MaxInt64. intros Hz.
  rewrite Z.mod_small; lia.
Qed.

Lemma sumZ_app {A} (f : A -> Z) l k : sumZ f (l ++ k) = sumZ f l + sumZ f k.
Proof. induction l as [|x l IH]; simpl; lia. Qed.

Lemma sumZ_insert {A} (f : A -> Z) (l : list A) i x y :
  l !! i = Some x -> sumZ f (<[i:=y]> l) = sumZ f l - f x + f y.
Proof.
  revert i. induction l as [|a l IH]; intros [|i] Hi; simpl in *; try discriminate.
  - injection Hi as ->. lia.
  - rewrite (IH _ Hi). lia.
Qed.

Lemma sumZ_nonneg {A} (f : A -> Z) l : (forall x, 0 <= f x) -> 0 <= sumZ f l.
Proof. intros Hf. induction l as [|a l IH]; simpl; [lia|]. specialize (Hf a). lia. Qed.

Lemma sumZ_replicate {A} (f : A -> Z) n x : sumZ f (replicate n x) = Z.of_nat n * f x.
Proof. induction n as [|n IH]; simpl replicate; simpl sumZ; [lia|]. rewrite IH. lia. Qed.

Lemma sumZ_zero {A} (f : A -> Z) l : Forall (fun x => f x = 0) l -> sumZ f l = 0.
Proof. induction 1 as [|x l Hx _ IH]; simpl; lia. Qed.

Lemma count_app p h k : count p (h ++ k) = count p h + count p k.
Proof. apply sumZ_app. Qed.

Lemma count_le_length p h : 0 <= count p h <= Z.of_nat (length h).
Proof.
  unfold count. induction h as [|e h IH]; simpl; [lia|].
  destruct (p e); simpl Z.b2z; lia.
Qed.

Lemma count_partition h :
  count counted_hit h + count counted_miss h + count counted_write h
  + count counted_error h = Z.of_nat (length h).
Proof.
  unfold count. induction h as [|e h IH]; simpl sumZ; simpl length; [lia|].
  assert (Z.b2z (counted_hit e) + Z.b2z (counted_miss e) + Z.b2z (counted_write e)
          + Z.b2z (counted_error e) = 1).
  { unfold counted_hit, counted_miss, counted_write, counted_error, read_ok.
    destruct (Type_ (ev_op e)), (ev_err e), (ev_hit e); reflexivity. }
  lia.
Qed.

Lemma count_reads h :
  count counted_hit h + count counted_miss h = count read_ok h.
Proof.
  unfold count. induction h as [|e h IH]; simpl sumZ; [lia|].
  assert (Z.b2z (counted_hit e) + Z.b2z (counted_miss e) = Z.b2z (read_ok e)).
  { unfold counted_hit, counted_miss. destruct (read_ok e), (ev_hit e); reflexivity. }
  lia.
Qed.

(* active workers *)
Lemma active_from_spec k ws i :
  i ∈ active_from k ws ->
  exists w, ws !! (i - k)%nat = Some w /\ is_done w = false /\ (k <= i)%nat.
Proof.
  revert k. induction ws as [|w ws IH]; intros k Hi; simpl in Hi.
  - by apply elem_of_nil in Hi.
  - destruct (is_done w) eqn:Hd.
    + destruct (IH _ Hi) as (w' & Hl & Hn & Hk).
      exists w'. split; [|split; [done|lia]].
      replace (i - k)%nat with (S (i - S k)) by lia. done.
    + apply elem_of_cons in Hi as [->|Hi].
      * exists w. rewrite Nat.sub_diag. auto.
      * destruct (IH _ Hi) as (w' & Hl & Hn & Hk).
        exists w'. split; [|split; [done|lia]].
        replace (i - k)%nat with (S (i - S k)) by lia. done.
Qed.

Lemma active_from_nil k ws : active_from k ws = [] -> Forall (fun w => is_done w = true) ws.
Proof.
  revert k. induction ws as [|w ws IH]; intros k Hk; simpl in Hk; [constructor|].
  destruct (is_done w) eqn:Hd; [|discriminate].
  constructor; eauto.
Qed.

Lemma active_pick ws a rest (n : nat) :
  active ws = a :: rest ->
  exists w, ws !! nth (n mod length (a :: rest))%nat (a :: rest) a = Some w
            /\ is_done w = false.
Proof.
  intros Ha.
  assert (Hin : nth (n mod length (a :: rest))%nat (a :: rest) a ∈ active_from 0 ws).
  { unfold active in Ha. rewrite Ha. apply list_elem_of_In. apply nth_In.
    apply Nat.mod_upper_bound. simpl. lia. }
  destruct (active_from_spec _ _ _ Hin) as (w & Hl & Hd & _).
  rewrite Nat.sub_0_r in Hl. eauto.
Qed.
Lemma sumZ_lookup_le {A} (f : A -> Z) (l : list A) i x :
  (forall y, 0 <= f y) -> l !! i = Some x -> f x <= sumZ f l.
Proof.
  intros Hf. revert i. induction l as [|a l IH]; intros [|i] Hi; simpl in *; try discriminate.
  - injection Hi as ->. pose proof (sumZ_nonneg f l Hf). lia.
  - specialize (IH _ Hi). specialize (Hf a). lia.
Qed.

Lemma owed_nonneg p w : 0 <= owed p w.
Proof. destruct w; simpl; try lia. destruct (p _); simpl; lia. Qed.
Lemma owed_error_nonneg w : 0 <= owed_error w.
Proof. destruct w as [| | | ? ? ? ? [e|] | ? ? [e|] | ? [e|] |]; simpl; lia. Qed.
Lemma owed_latency_nonneg w : 0 <= owed_latency w.
Proof. destruct w; simpl; lia. Qed.
Lemma in_hand_nonneg w : 0 <= in_hand w.
Proof. destruct w; simpl; lia. Qed.

Lemma Forall_not_done_insert ws i (w' : worker_state) :
  is_done w' = false ->
  Forall (fun w => is_done w = false) ws ->
  Forall (fun w => is_done w = false) (<[i:=w']> ws).
Proof. intros Hw Hall. by apply Forall_insert. Qed.

Lemma done_insert (ops : list Operation) ws i (w' : worker_state) :
  is_done w' = false ->
  ops = [] \/ Forall (fun w => is_done w = false) ws ->
  ops = [] \/ Forall (fun w => is_done w = false) (<[i:=w']> ws).
Proof. intros Hw [?|?]; [by left|right]. by apply Forall_insert. Qed.

Lemma counted_hit_mk i op w hit err :
  counted_hit (mkCall i op w hit err)
  = match Type_ op, err with ReadOp, None => hit | _, _ => false end.
Proof. unfold counted_hit, read_ok. simpl. by destruct (Type_ op), err, hit. Qed.
Lemma counted_miss_mk i op w hit err :
  counted_miss (mkCall i op w hit err)
  = match Type_ op, err with ReadOp, None => negb hit | _, _ => false end.
Proof. unfold counted_miss, read_ok. simpl. by destruct (Type_ op), err, hit. Qed.
Lemma counted_write_mk i op w hit err :
  counted_write (mkCall i op w hit err)
  = match Type_ op, err with WriteOp, None => true | _, _ => false end.
Proof. reflexivity. Qed.
Lemma counted_error_mk i op w hit err :
  counted_error (mkCall i op w hit err)
  = match err with Some _ => true | None => false end.
Proof. reflexivity. Qed.

Lemma owed_lookup p (ws : list worker_state) i v op start hit err :
  ws !! i = Some (WCount v op start hit err) ->
  Z.b2z (p (mkCall 0 op None hit err)) <= sumZ (owed p) ws.
Proof.
  intros Hl. apply (sumZ_lookup_le (owed p) _ _ _ (owed_nonneg p) Hl).
Qed.

Section EngineFacts.
Context {S : Type} (impl : CachingStrategy S) (env : Environment) (size : Z).

Lemma add64_succ x bound :
  0 <= x -> x + 1 <= bound -> bound <= MaxInt64 -> add64 x 1 = x + 1.
Proof. intros. unfold add64. apply wrap64_small. unfold MaxInt64 in *. lia. Qed.

Ltac inv_sums Hl :=
  repeat rewrite (sumZ_insert _ _ _ _ _ Hl);
  unfold count; repeat rewrite sumZ_app; repeat rewrite length_app;
  simpl sumZ; simpl length; simpl owed; simpl owed_error;
  simpl owed_latency; simpl in_hand;
  rewrite ?counted_hit_mk, ?counted_miss_mk, ?counted_write_mk,
    ?counted_error_mk.

Lemma worker_step_inv total r0 i w (m : machine S) :
  total <= MaxInt64 ->
  m_workers m !! i = Some w -> is_done w = false ->
  Inv total r0 m -> Inv total r0 (worker_step impl env size i w m).
Proof.
  intros Htot Hl Hnd [Hh Hm Hw He Hlat Hops Hnn Hfr Hdn].
  pose proof (count_le_length counted_hit (m_history m)) as Bh.
  pose proof (count_le_length counted_miss (m_history m)) as Bm.
  pose proof (count_le_length counted_write (m_history m)) as Bw.
  pose proof (count_le_length counted_error (m_history m)) as Be.
  pose proof (sumZ_lookup_le (owed counted_hit) _ _ _ (owed_nonneg _) Hl) as Lh.
  pose proof (sumZ_lookup_le (owed counted_miss) _ _ _ (owed_nonneg _) Hl) as Lm.
  pose proof (sumZ_lookup_le (owed counted_write) _ _ _ (owed_nonneg _) Hl) as Lw.
  pose proof (sumZ_lookup_le owed_error _ _ _ owed_error_nonneg Hl) as Le.
  pose proof (sumZ_nonneg in_hand (m_workers m) in_hand_nonneg) as Nih.
  destruct Hnn as (N1 & N2 & N3 & N4).
  unfold count in *.
  destruct w as [|v|v op|v op start hit err|v start err|v err|]; simpl in Hnd; try discriminate;
    unfold worker_step.
  - (* WStart *)
    destruct (generateValue (entropy env i) size) as [val|msg].
    + constructor; simpl; auto using done_insert; inv_sums Hl; try lia.
    + unfold crash. constructor; simpl; auto.
  - (* WReceive *)
    destruct (m_ops m) as [|op rest] eqn:Hq.
    + constructor; simpl; auto; inv_sums Hl; simpl in *; try lia.
    + constructor; simpl; auto; inv_sums Hl; simpl in *; try lia.
      right. destruct Hdn as [?|?]; [discriminate|]. by apply Forall_not_done_insert.
  - (* WCall *)
    destruct (Type_ op) eqn:Hty.
    + destruct (Read impl (m_strategy m) (Key op)) as [[[[val hit] err] s']|msg].
      * constructor; simpl; auto using done_insert; inv_sums Hl;
          rewrite ?Hty; try lia.
        all: destruct err; try destruct hit; simpl; lia.
      * unfold crash. constructor; simpl; auto.
    + destruct (Write impl (m_strategy m) (Key op) v) as [[err s']|msg].
      * constructor; simpl; auto using done_insert; inv_sums Hl;
          rewrite ?Hty; try lia.
        all: destruct err; try destruct hit; simpl; lia.
      * unfold crash. constructor; simpl; auto.
  - (* WCount *)
    clear Lh Lm Lw.
    pose proof (owed_lookup counted_hit _ _ _ _ _ _ _ Hl) as Lh.
    pose proof (owed_lookup counted_miss _ _ _ _ _ _ _ Hl) as Lm.
    pose proof (owed_lookup counted_write _ _ _ _ _ _ _ Hl) as Lw.
    rewrite counted_hit_mk in Lh. rewrite counted_miss_mk in Lm.
    rewrite counted_write_mk in Lw.
    assert (Hdn' : m_ops m = [] \/ Forall (fun w => is_done w = false)
                     (<[i:=WSend v start err]> (m_workers m))).
    { destruct Hdn as [?|?]; [by left|right]. by apply Forall_not_done_insert. }
    unfold count_outcome.
    destruct (Type_ op) eqn:Hty, err as [e|], hit;
      simpl in *;
      (constructor; simpl; auto; inv_sums Hl;
           rewrite ?Hty; simpl;
           try rewrite (add64_succ _ total) by lia;
           try lia).
    all: try (destruct Hfr as (?&?&?&?&?&?); repeat split; simpl; auto).
  - (* WSend *)
    constructor; simpl; auto using done_insert; inv_sums Hl; try lia.
    all: try (destruct err; lia).
  - (* WErr *)
    assert (Hdn' : m_ops m = [] \/ Forall (fun w => is_done w = false)
                     (<[i:=WReceive v]> (m_workers m))).
    { destruct Hdn as [?|?]; [by left|right]. by apply Forall_not_done_insert. }
    unfold count_error. simpl owed_error in Le.
    destruct err as [e|]; simpl in *;
      constructor; simpl; auto; inv_sums Hl;
        try rewrite (add64_succ _ total) by lia;
        try (destruct Hfr as (?&?&?&?&?&?); repeat split; simpl; auto);
        try lia.
Qed.
End EngineFacts.

Lemma sum_list_with_insert {A} (f : A -> nat) (l : list A) i x y :
  l !! i = Some x ->
  (sum_list_with f (<[i:=y]> l) + f x = sum_list_with f l + f y)%nat.
Proof.
  revert i. induction l as [|a l IH]; intros [|i] Hi; simpl in *; try discriminate.
  - injection Hi as ->. lia.
  - specialize (IH _ Hi). lia.
Qed.

Lemma sum_list_with_zero {A} (f : A -> nat) (l : list A) :
  sum_list_with f l = 0%nat -> Forall (fun x => f x = 0%nat) l.
Proof.
  induction l as [|a l IH]; simpl; intros Hs; constructor; [lia|apply IH; lia].
Qed.

Lemma moves_left_done w : moves_left w = 0%nat -> is_done w = true.
Proof. by destruct w. Qed.

Lemma active_from_all_done k ws :
  Forall (fun w => is_done w = true) ws -> active_from k ws = [].
Proof.
  intros Hall. revert k. induction Hall as [|w ws Hw _ IH]; intros k; simpl; [done|].
  rewrite Hw. apply IH.
Qed.

Section EngineRun.
Context {S : Type} (impl : CachingStrategy S) (env : Environment) (size : Z).

Lemma worker_step_panic i w (m : machine S) :
  m_panic m = None ->
  m_panic (worker_step impl env size i w m) = None \/
  exists msg, worker_step impl env size i w m = crash m msg.
Proof.
  intros Hp. destruct w as [|v|v op|v op start hit err|v start err|v err|];
    unfold worker_step; simpl; auto.
  - destruct (generateValue _ _); simpl; eauto.
  - destruct (m_ops m); simpl; auto.
  - destruct (Type_ op).
    + destruct (Read _ _ _) as [[[[? ?] ?] ?]|?]; simpl; eauto.
    + destruct (Write _ _ _ _) as [[? ?]|?]; simpl; eauto.
Qed.

Lemma worker_step_bound i w (m : machine S) :
  m_workers m !! i = Some w -> is_done w = false ->
  m_panic (worker_step impl env size i w m) = None ->
  (steps_bound (worker_step impl env size i w m) + 1 = steps_bound m)%nat.
Proof.
  intros Hl Hnd Hp. unfold steps_bound.
  destruct w as [|v|v op|v op start hit err|v start err|v err|];
    simpl in Hnd; try discriminate; unfold worker_step in *.
  - destruct (generateValue _ _); simpl in *; [|discriminate].
    pose proof (sum_list_with_insert moves_left _ _ _ (WReceive a) Hl). simpl in *. lia.
  - destruct (m_ops m) as [|op rest]; simpl in *.
    + pose proof (sum_list_with_insert moves_left _ _ _ WDone Hl). simpl in *. lia.
    + pose proof (sum_list_with_insert moves_left _ _ _ (WCall v op) Hl). simpl in *. lia.
  - destruct (Type_ op).
    + destruct (Read _ _ _) as [[[[? hit] err] ?]|?]; simpl in *; [|discriminate].
      pose proof (sum_list_with_insert moves_left _ _ _
                    (WCount v op (now env (m_clock m)) hit err) Hl). simpl in *. lia.
    + destruct (Write _ _ _ _) as [[err ?]|?]; simpl in *; [|discriminate].
      pose proof (sum_list_with_insert moves_left _ _ _
                    (WCount v op (now env (m_clock m)) false err) Hl). simpl in *. lia.
  - simpl in *.
    pose proof (sum_list_with_insert moves_left _ _ _ (WSend v start err) Hl). simpl in *. lia.
  - simpl in *.
    pose proof (sum_list_with_insert moves_left _ _ _ (WErr v err) Hl). simpl in *. lia.
  - simpl in *.
    pose proof (sum_list_with_insert moves_left _ _ _ (WReceive v) Hl). simpl in *. lia.
Qed.

(** What [step] does, when it does something. *)
Lemma step_Some (m m' : machine S) :
  step impl env size m = Some m' ->
  m_panic m = None /\
  exists i w, m_workers m !! i = Some w /\ is_done w = false /\
              m' = worker_step impl env size i w m.
Proof.
  unfold step. destruct (m_panic m); [discriminate|].
  destruct (active (m_workers m)) as [|a rest] eqn:Ha; [discriminate|].
  destruct (active_pick _ _ _ (sched env (m_clock m)) Ha) as (w & Hl & Hd).
  rewrite Hl. intros [= <-]. split; [done|]. eauto.
Qed.

Lemma step_None (m : machine S) :
  step impl env size m = None -> m_panic m = None ->
  Forall (fun w => is_done w = true) (m_workers m).
Proof.
  unfold step. intros Hs Hp. rewrite Hp in Hs.
  destruct (active (m_workers m)) as [|a rest] eqn:Ha.
  - by apply (active_from_nil 0).
  - destruct (active_pick _ _ _ (sched env (m_clock m)) Ha) as (w & Hl & Hd).
    rewrite Hl in Hs. discriminate.
Qed.

Lemma step_measure (m m' : machine S) :
  step impl env size m = Some m' -> (measure m' < measure m)%nat.
Proof.
  intros Hs. destruct (step_Some _ _ Hs) as (Hp & i & w & Hl & Hd & ->).
  unfold measure at 2. rewrite Hp.
  destruct (worker_step_panic i w m Hp) as [Hp'|[msg ->]].
  - unfold measure. rewrite Hp'.
    pose proof (worker_step_bound _ _ _ Hl Hd Hp'). lia.
  - unfold measure, crash. simpl. unfold steps_bound.
    pose proof (sum_list_with_in _ moves_left _ (proj2 (list_elem_of_lookup _ _) (ex_intro _ i Hl))).
    destruct w; simpl in *; try discriminate; lia.
Qed.

Lemma measure_zero (m : machine S) :
  measure m = 0%nat -> step impl env size m = None.
Proof.
  unfold measure, step. destruct (m_panic m); [done|].
  unfold steps_bound. intros Hz.
  assert (Hall : Forall (fun w => is_done w = true) (m_workers m)).
  { eapply Forall_impl; [apply (sum_list_with_zero moves_left); lia|].
    apply moves_left_done. }
  unfold active. by rewrite (active_from_all_done _ _ Hall).
Qed.

(** Enough fuel: the run stops because nothing can move any more. *)
Lemma run_workers_final fuel (m : machine S) :
  (measure m <= fuel)%nat ->
  step impl env size (run_workers impl env size fuel m) = None.
Proof.
  revert m. induction fuel as [|fuel IH]; intros m Hm; simpl.
  - apply measure_zero. lia.
  - destruct (step impl env size m) as [m'|] eqn:Hs; [|done].
    apply IH. pose proof (step_measure _ _ Hs). lia.
Qed.

Lemma run_workers_inv total r0 fuel (m : machine S) :
  total <= MaxInt64 ->
  Inv total r0 m -> Inv total r0 (run_workers impl env size fuel m).
Proof.
  intros Htot. revert m. induction fuel as [|fuel IH]; intros m Hinv; simpl; [done|].
  destruct (step impl env size m) as [m'|] eqn:Hs; [|done].
  apply IH. destruct (step_Some _ _ Hs) as (Hp & i & w & Hl & Hd & ->).
  by apply worker_step_inv.
Qed.

Lemma worker_step_length i w (m : machine S) :
  length (m_workers (worker_step impl env size i w m)) = length (m_workers m).
Proof.
  destruct w as [|v|v op|v op start hit err|v start err|v err|];
    unfold worker_step; simpl; rewrite ?length_insert; auto.
  - destruct (generateValue _ _); simpl; rewrite ?length_insert; auto.
  - destruct (m_ops m); simpl; rewrite ?length_insert; auto.
  - destruct (Type_ op).
    + destruct (Read _ _ _) as [[[[? ?] ?] ?]|?]; simpl; rewrite ?length_insert; auto.
    + destruct (Write _ _ _ _) as [[? ?]|?]; simpl; rewrite ?length_insert; auto.
Qed.

Lemma run_workers_length fuel (m : machine S) :
  length (m_workers (run_workers impl env size fuel m)) = length (m_workers m).
Proof.
  revert m. induction fuel as [|fuel IH]; intros m; simpl; [done|].
  destruct (step impl env size m) as [m'|] eqn:Hs; [|done].
  rewrite IH. destruct (step_Some _ _ Hs) as (Hp & i & w & Hl & Hd & ->).
  apply worker_step_length.
Qed.
End EngineRun.

Lemma calculateFinalMetrics_counters r :
  TotalHits (calculateFinalMetrics r) = TotalHits r /\
  TotalMisses (calculateFinalMetrics r) = TotalMisses r /\
  TotalWrites (calculateFinalMetrics r) = TotalWrites r /\
  TotalErrors (calculateFinalMetrics r) = TotalErrors r /\
  TotalOperations (calculateFinalMetrics r) = TotalOperations r /\
  Latencies (calculateFinalMetrics r) = Latencies r.
Proof.
  unfold calculateFinalMetrics.
  destruct (0 <? _); destruct (fgt _ _); simpl; auto 10.
Qed.

Section RunFacts.
Context {S : Type} (env : Environment).

Lemma Run_inversion (r : Runner S) res err :
  outcome (Run env r) = Returned res err ->
  (exists e s0, Init (methods r) (strategy r) = Ok (Some e, s0) /\
                err = Some (Errorf_w "failed to initialize strategy: " e) /\
                res = result r /\ calls (Run env r) = []) \/
  (exists s0 s2 ce, Init (methods r) (strategy r) = Ok (None, s0) /\
      0 <= concurrency r /\
      m_panic (end_machine env r s0) = None /\
      Close (methods r) (m_strategy (end_machine env r s0)) = Ok (ce, s2) /\
      err = None /\
      calls (Run env r) = m_history (end_machine env r s0) /\
      res = calculateFinalMetrics
              (let res1 :=
                 set_TotalOperations (wrap64 (Z.of_nat (length (workload r))))
                   (set_TotalDuration
                      (time_Since env (m_clock (end_machine env r s0)) (now env 0))
                      (m_result (end_machine env r s0))) in
               set_Latencies (Latencies res1 ++ m_latencies (end_machine env r s0)) res1)).
Proof.
  unfold Run.
  destruct (Init (methods r) (strategy r)) as [[[e|] s0]|msg] eqn:Hinit; simpl.
  - intros [= <- <-]. left. eauto 10.
  - destruct (concurrency r <? 0) eqn:Hc; simpl; [discriminate|].
    fold (start_machine r s0). fold (end_machine env r s0).
    destruct (m_panic (end_machine env r s0)) eqn:Hp; simpl; [discriminate|].
    destruct (Close (methods r) (m_strategy (end_machine env r s0))) as [[ce s2]|msg] eqn:Hcl;
      simpl; [|discriminate].
    intros [= <- <-]. right. exists s0, s2, ce.
    repeat split; auto. lia.
  - discriminate.
Qed.

Lemma start_machine_inv (r : Runner S) s0 :
  TotalHits (result r) = 0 -> TotalMisses (result r) = 0 ->
  TotalWrites (result r) = 0 -> TotalErrors (result r) = 0 ->
  Inv (Z.of_nat (length (workload r))) (result r) (start_machine r s0).
Proof.
  intros H1 H2 H3 H4. unfold start_machine.
  constructor; simpl; rewrite ?sumZ_replicate; simpl; unfold count; simpl;
    try lia.
  - unfold same_frame. auto 10.
  - right. apply Forall_replicate. reflexivity.
Qed.

Lemma done_owes_nothing (ws : list worker_state) :
  Forall (fun w => is_done w = true) ws ->
  (forall p, sumZ (owed p) ws = 0) /\ sumZ owed_error ws = 0 /\
  sumZ owed_latency ws = 0 /\ sumZ in_hand ws = 0.
Proof.
  intros Hall. repeat split; intros; apply sumZ_zero;
    (eapply Forall_impl; [exact Hall|]); intros [] Hd; simpl in *; try discriminate; auto.
Qed.

(** The state in which a run that did not crash hands over to the
    aggregation. *)
Lemma end_machine_spec (r : Runner S) s0 :
  Z.of_nat (length (workload r)) <= MaxInt64 ->
  TotalHits (result r) = 0 -> TotalMisses (result r) = 0 ->
  TotalWrites (result r) = 0 -> TotalErrors (result r) = 0 ->
  m_panic (end_machine env r s0) = None ->
  let m := end_machine env r s0 in
  TotalHits (m_result m) = count counted_hit (m_history m) /\
  TotalMisses (m_result m) = count counted_miss (m_history m) /\
  TotalWrites (m_result m) = count counted_write (m_history m) /\
  TotalErrors (m_result m) = count counted_error (m_history m) /\
  length (m_latencies m) = length (m_history m) /\
  same_frame (m_result m) (result r) /\
  Z.of_nat (length (m_history m)) + Z.of_nat (length (m_ops m))
    = Z.of_nat (length (workload r)) /\
  (0 < concurrency r -> m_ops m = []).
Proof.
  intros Htot H1 H2 H3 H4 Hp m.
  pose proof (run_workers_inv (methods r) env (valueSizeBytes r) _ _
                (steps_bound (start_machine r s0)) _ Htot
                (start_machine_inv r s0 H1 H2 H3 H4)) as Hinv.
  fold (end_machine env r s0) in Hinv. fold m in Hinv.
  assert (Hfin : step (methods r) env (valueSizeBytes r) m = None).
  { apply run_workers_final. unfold measure. simpl. lia. }
  pose proof (step_None _ _ _ _ Hfin Hp) as Hdone.
  destruct (done_owes_nothing _ Hdone) as (Zo & Ze & Zl & Zi).
  destruct Hinv as [Hh Hm Hw He Hlat Hops Hnn Hfr Hdn].
  rewrite ?Zo, ?Ze, ?Zl, ?Zi in *.
  do 5 (split; [lia|]). split; [exact Hfr|]. split; [lia|].
  intros Hc. destruct Hdn as [?|Hnd]; [done|].
  exfalso.
  assert (Hlen : length (m_workers m) = Z.to_nat (concurrency r)).
  { unfold m, end_machine. rewrite run_workers_length. simpl. apply length_replicate. }
  destruct (m_workers m) as [|w ws]; simpl in Hlen; [lia|].
  inversion Hdone; inversion Hnd; subst. congruence.
Qed.
End RunFacts.

Section Safe.
Context {S : Type} (impl : CachingStrategy S) (env : Environment) (size : Z).
Variable P : S -> Prop.

Lemma worker_step_safe i w (m : machine S) :
  strategy_safe impl P -> 0 <= size ->
  P (m_strategy m) -> m_panic m = None ->
  P (m_strategy (worker_step impl env size i w m)) /\
  m_panic (worker_step impl env size i w m) = None.
Proof.
  intros Hsafe Hsize HP Hp. destruct (Hsafe _ HP) as (Hr & Hw & _).
  destruct w as [|v|v op|v op start hit err|v start err|v err|];
    unfold worker_step; simpl; auto.
  - unfold generateValue. destruct (size <? 0) eqn:Hs; [lia|]. simpl. auto.
  - destruct (m_ops m); simpl; auto.
  - destruct (Type_ op).
    + destruct (Hr (Key op)) as ([[val hit] err] & s' & -> & HP'). simpl. auto.
    + destruct (Hw (Key op) v) as (err & s' & -> & HP'). simpl. auto.
Qed.

Lemma run_workers_safe fuel (m : machine S) :
  strategy_safe impl P -> 0 <= size ->
  P (m_strategy m) -> m_panic m = None ->
  P (m_strategy (run_workers impl env size fuel m)) /\
  m_panic (run_workers impl env size fuel m) = None.
Proof.
  intros Hsafe Hsize. revert m. induction fuel as [|fuel IH]; intros m HP Hp; simpl; [done|].
  destruct (step impl env size m) as [m'|] eqn:Hs; [|done].
  destruct (step_Some _ _ _ _ _ Hs) as (_ & i & w & Hl & Hd & ->).
  destruct (worker_step_safe i w m Hsafe Hsize HP Hp). by apply IH.
Qed.
End Safe.


Lemma Run_init_error {S : Type} (env : Environment) (r : Runner S) e0 s0 :
  Init (methods r) (strategy r) = Ok (Some e0, s0) ->
  Run env r =
  mkRunExec (Returned (result r)
               (Some (Errorf_w "failed to initialize strategy: " e0)))
            (mkRunner (methods r) s0 (workload r) (concurrency r)
                      (valueSizeBytes r) (result r)) [].
Proof. intros Hi. unfold Run. rewrite Hi. reflexivity. Qed.

Lemma Run_completes {S : Type} (env : Environment) (r : Runner S) s0 ce s2 :
  Init (methods r) (strategy r) = Ok (None, s0) ->
  0 <= concurrency r ->
  m_panic (end_machine env r s0) = None ->
  Close (methods r) (m_strategy (end_machine env r s0)) = Ok (ce, s2) ->
  exists res,
    outcome (Run env r) = Returned res None /\
    calls (Run env r) = m_history (end_machine env r s0) /\
    TotalErrors res = TotalErrors (m_result (end_machine env r s0)).
Proof.
  intros Hi Hc Hp Hcl. unfold end_machine, start_machine in *.
  unfold Run. rewrite Hi.
  destruct (concurrency r <? 0) eqn:Hc0; [lia|].
  cbv zeta. rewrite Hp, Hcl. simpl.
  eexists. split; [reflexivity|]. split; [reflexivity|].
  match goal with |- TotalErrors (calculateFinalMetrics ?x) = _ =>
    destruct (calculateFinalMetrics_counters x) as (_ & _ & _ & -> & _) end.
  reflexivity.
Qed.


Lemma Sprintf_x_length b : String.length (Sprintf_x b) = (2 * length b)%nat.
Proof. induction b as [|c b IH]; simpl; [done|]. rewrite IH. lia. Qed.

Lemma generateValue_length src size v :
  generateValue src size = Ok v ->
  0 <= size /\ Z.of_nat (String.length v) = 2 * size.
Proof.
  unfold generateValue. destruct (size <? 0) eqn:Hs; [discriminate|].
  intros [= <-]. rewrite Sprintf_x_length, length_map, length_seq. lia.
Qed.


(** C1: a run of [Run] that returns without error, with at least one
    worker, ends with
    [TotalHits + TotalMisses + TotalWrites + TotalErrors = TotalOperations],
    as many latencies as operations, and one call per operation of the
    workload.  [TotalHits + TotalMisses] is the number of reads that
    returned no error; each counter is the number of calls of its kind;
    a call that returned an error is counted as an error and as nothing
    else. *)
Theorem C1_run_accounting {S : Type} (impl : CachingStrategy S)
        (env : Environment) (s : S) (w : list Operation) (c size : Z)
        (res : Result) :
  0 < c ->
  Z.of_nat (length w) <= MaxInt64 ->
  outcome (Run env (NewRunner impl s w c size)) = Returned res None ->
  let h := calls (Run env (NewRunner impl s w c size)) in
  TotalHits res + TotalMisses res + TotalWrites res + TotalErrors res
    = TotalOperations res /\
  Z.of_nat (length (Latencies res)) = TotalOperations res /\
  TotalOperations res = Z.of_nat (length w) /\
  length h = length w /\
  TotalHits res + TotalMisses res = count read_ok h /\
  TotalHits res = count counted_hit h /\
  TotalMisses res = count counted_miss h /\
  TotalWrites res = count counted_write h /\
  TotalErrors res = count counted_error h /\
  Forall (fun e => counted_error e = true ->
                   counted_hit e = false /\ counted_miss e = false /\
                   counted_write e = false) h.
Proof.
  intros Hc Hlen Hout h.
  destruct (Run_inversion env _ _ _ Hout)
    as [(e & s0 & _ & He & _)|(s0 & s2 & ce & Hinit & _ & Hp & Hcl & _ & Hcalls & Hres)];
    [discriminate|].
  set (r := NewRunner impl s w c size) in *.
  destruct (end_machine_spec env r s0 Hlen eq_refl eq_refl eq_refl eq_refl Hp)
    as (Hh & Hm & Hw & Her & Hlat & Hfr & Hops & Hq).
  specialize (Hq Hc). rewrite Hq in Hops. simpl in Hops.
  destruct Hfr as (_ & _ & _ & _ & _ & Hl0). simpl in Hl0.
  match type of Hres with _ = calculateFinalMetrics ?x =>
    destruct (calculateFinalMetrics_counters x) as (C1 & C2 & C3 & C4 & C5 & C6) end.
  rewrite <- Hres in C1, C2, C3, C4, C5, C6. simpl in C1, C2, C3, C4, C5, C6.
  rewrite Hl0 in C6. simpl in C6.
  assert (Hto : TotalOperations res = Z.of_nat (length w)).
  { rewrite C5. apply wrap64_small. unfold MaxInt64 in *. lia. }
  unfold h. rewrite Hcalls.
  pose proof (count_partition (m_history (end_machine env r s0))) as Hpart.
  pose proof (count_reads (m_history (end_machine env r s0))) as Hrd.
  rewrite C1, C2, C3, C4, C6, Hto.
  repeat split; try lia.
  apply Forall_forall. intros e _.
  unfold counted_hit, counted_miss, counted_write, counted_error, read_ok.
  destruct (Type_ (ev_op e)), (ev_err e); simpl; intros; auto; discriminate.
Qed.

(** C4: [Run] returns an error exactly when [Init] does, and the error is
    the one of [Init], wrapped.  In that case no call of [Read] or
    [Write] is made and the strategy is left as [Init] left it.  When
    [Init] succeeds and the strategy does not panic, [Run] returns
    without error whatever the calls return: their errors are counted in
    [TotalErrors], and with at least one worker every operation is
    executed. *)
Theorem C4_run_fails_iff_init_fails {S : Type} (impl : CachingStrategy S)
        (env : Environment) (s : S) (w : list Operation) (c size : Z) :
  let r := NewRunner impl s w c size in
  (forall res e,
      outcome (Run env r) = Returned res (Some e) <->
      exists e0 s0, Init impl s = Ok (Some e0, s0) /\
                    e = Errorf_w "failed to initialize strategy: " e0 /\
                    res = result r) /\
  (forall e0 s0, Init impl s = Ok (Some e0, s0) ->
      calls (Run env r) = [] /\
      strategy (runner_after (Run env r)) = s0 /\
      result (runner_after (Run env r)) = result r) /\
  (forall (P : S -> Prop) s0,
      Init impl s = Ok (None, s0) -> P s0 -> strategy_safe impl P ->
      0 <= c -> 0 <= size -> Z.of_nat (length w) <= MaxInt64 ->
      exists res,
        outcome (Run env r) = Returned res None /\
        TotalErrors res = count counted_error (calls (Run env r)) /\
        (0 < c -> length (calls (Run env r)) = length w)).
Proof.
  intros r. split; [|split].
  - intros res e. split.
    + intros Hout.
      destruct (Run_inversion env _ _ _ Hout)
        as [(e0 & s0 & Hi & He & Hr & _)|(s0 & s2 & ce & _ & _ & _ & _ & He & _)];
        [|discriminate].
      injection He as ->. eauto.
    + intros (e0 & s0 & Hi & -> & ->).
      rewrite (Run_init_error env r e0 s0 Hi). reflexivity.
  - intros e0 s0 Hi. rewrite (Run_init_error env r e0 s0 Hi). simpl. auto.
  - intros P s0 Hi HP Hsafe Hc Hsize Hlen.
    assert (Hend : P (m_strategy (end_machine env r s0)) /\
                   m_panic (end_machine env r s0) = None).
    { unfold end_machine. apply (run_workers_safe _ _ _ P); auto. }
    destruct Hend as (HPe & Hp).
    destruct (Hsafe _ HPe) as (_ & _ & (ce & s2 & Hcl)).
    destruct (Run_completes env r s0 ce s2 Hi Hc Hp Hcl) as (res & Hout & Hcalls & Herr).
    exists res. split; [exact Hout|].
    destruct (end_machine_spec env r s0 Hlen eq_refl eq_refl eq_refl eq_refl Hp)
      as (_ & _ & _ & Her & _ & _ & Hops & Hq).
    rewrite Hcalls, Herr. split; [exact Her|].
    intros Hc'. specialize (Hq Hc'). rewrite Hq in Hops. simpl in Hops.
    change (workload r) with w in Hops. lia.
Qed.


(** C7: the payload a worker generates for a value size of 64 bytes is a
    string of 128 bytes, whatever the random bytes are: [generateValue]
    draws [size] bytes and prints them in hexadecimal, two characters
    per byte. *)
Theorem C7_payload_of_64_bytes_has_128 (src : nat -> byte) :
  exists v, generateValue src 64 = Ok v /\ String.length v = 128%nat.
Proof.
  eexists. split; [reflexivity|].
  rewrite Sprintf_x_length, length_map, length_seq. reflexivity.
Qed.

(* ===================================================================== *)
(** * The Ristretto + Pub/Sub strategy                                    *)
(* ===================================================================== *)

Section StrategyFacts.
Import implementations.
Context {C R : Type} `{L1Cache C} `{RedisClient R} `{JSONCodec}.

(** The message handler either leaves the strategy as it is or deletes
    one key from the local cache. *)
Lemma onMessage_cases (s : RistrettoPubSubStrategy C R) (message : string) :
  (onMessage s message = s /\
   (forall m, json_Unmarshal message = inr m -> msg_Key m = EmptyString)) \/
  (exists m, json_Unmarshal message = inr m /\ msg_Key m <> EmptyString /\
             onMessage s message =
             mkStrategy (l1_Del (l1Cache s) (msg_Key m)) (redisClient s)
                        (pubsubClient s) (cancelBgTasks s) (maxCost s)
                        (trace s ++ [EvCacheDel (msg_Key m)])).
Proof.
  unfold onMessage. destruct (json_Unmarshal message) as [e|m] eqn:Hu.
  - left. split; [reflexivity|]. intros m Hm. discriminate.
  - destruct (String.eqb (msg_Key m) EmptyString) eqn:Hk.
    + left. split; [reflexivity|]. intros m' [= <-]. by apply String.eqb_eq.
    + right. exists m. split; [reflexivity|]. split; [|reflexivity].
      by apply String.eqb_neq.
Qed.

Lemma fold_onMessage_clients (delivered : list string) (s : RistrettoPubSubStrategy C R) :
  redisClient (fold_left onMessage delivered s) = redisClient s /\
  pubsubClient (fold_left onMessage delivered s) = pubsubClient s /\
  cancelBgTasks (fold_left onMessage delivered s) = cancelBgTasks s /\
  maxCost (fold_left onMessage delivered s) = maxCost s.
Proof.
  revert s. induction delivered as [|msg ms IH]; intros s; simpl; [auto|].
  destruct (IH (onMessage s msg)) as (-> & -> & -> & ->).
  destruct (onMessage_cases s msg) as [[-> _]|(m & _ & _ & ->)]; simpl; auto.
Qed.

Lemma fold_onMessage_dropped (delivered : list string) (s : RistrettoPubSubStrategy C R) :
  Forall (fun message => exists e, json_Unmarshal message = inl e) delivered ->
  fold_left onMessage delivered s = s.
Proof.
  intros Hall. revert s. induction Hall as [|msg ms [e He] _ IH]; intros s; simpl; [done|].
  unfold onMessage at 2. rewrite He. apply IH.
Qed.

(** C2: [Read] on an initialised strategy asks the local cache first.
    On a local hit it returns the cached value with [hit = true], and
    the only effect recorded is the cache lookup: no command goes to
    Redis.  On a local miss it sends [GET key]; on a reply it stores the
    value in the local cache at a cost equal to the length of the value
    in bytes and returns it with [hit = false]; on an error it returns
    that error as it is, and stores nothing. *)
Theorem C2_read_local_then_remote (s : RistrettoPubSubStrategy C R)
        (c : C) (r : R) (key : string) :
  l1Cache s = Some c -> redisClient s = Some r ->
  match cache_Get c key with
  | (Some val, c1) =>
      Read s key =
      Ok ((val, true, None),
          mkStrategy (Some c1) (Some r) (pubsubClient s) (cancelBgTasks s)
                     (maxCost s) (trace s ++ [EvCacheGet key]))
  | (None, c1) =>
      match redis_Do r (CmdGet key) with
      | (RedisReply value, r1) =>
          let cost := Z.of_nat (String.length value) in
          Read s key =
          Ok ((value, false, None),
              mkStrategy (Some (snd (cache_Set c1 key value cost))) (Some r1)
                         (pubsubClient s) (cancelBgTasks s) (maxCost s)
                         (trace s ++ [EvCacheGet key; EvRedis (CmdGet key);
                                      EvCacheSet key value cost]))
      | (RedisError e, r1) =>
          Read s key =
          Ok ((EmptyString, false, Some e),
              mkStrategy (Some c1) (Some r1) (pubsubClient s)
                         (cancelBgTasks s) (maxCost s)
                         (trace s ++ [EvCacheGet key; EvRedis (CmdGet key)]))
      end
  end.
Proof.
  intros Hc Hr. unfold Read. rewrite Hc, Hr. simpl.
  destruct (cache_Get c key) as [[val|] c1]; [reflexivity|].
  destruct (redis_Do r (CmdGet key)) as [[value|e] r1]; simpl;
    rewrite <- ?app_assoc; reflexivity.
Qed.

(** C3: [Write] sends [SET key value] and, when that succeeds,
    publishes the invalidation message of the key on the invalidation
    channel; its result is the error of the first command that failed,
    if any.  In every case the local cache is after the call what it
    was before, and no cache operation is recorded. *)
Theorem C3_write_leaves_local_cache (s : RistrettoPubSubStrategy C R)
        (r : R) (key value : string) :
  redisClient s = Some r ->
  exists out s',
    Write s key value = Ok (out, s') /\
    l1Cache s' = l1Cache s /\
    match redis_Do r (CmdSet key value) with
    | (RedisError e, r1) =>
        out = Some e /\ redisClient s' = Some r1 /\
        trace s' = trace s ++ [EvRedis (CmdSet key value)]
    | (RedisReply _, r1) =>
        let publish :=
          CmdPublish InvalidationChannel
                     (json_Marshal (mkInvalidationMessage key)) in
        out = RedisResult_Error (fst (redis_Do r1 publish)) /\
        redisClient s' = Some (snd (redis_Do r1 publish)) /\
        trace s' = trace s ++ [EvRedis (CmdSet key value); EvRedis publish]
    end.
Proof.
  intros Hr. unfold Write. rewrite Hr.
  destruct (redis_Do r (CmdSet key value)) as [[ok|e] r1]; simpl.
  - destruct (redis_Do r1 _) as [res2 r2] eqn:Hp. simpl.
    eexists _, _. split; [reflexivity|]. simpl.
    rewrite <- app_assoc. auto.
  - eexists _, _. split; [reflexivity|]. simpl. auto.
Qed.

(** C8: a message that [json.Unmarshal] rejects leaves the strategy as
    it is.  The listener returns without panicking for every sequence of
    delivered messages and every terminal error: the clients and the
    cancel function are untouched, a terminal error other than
    [context.Canceled] adds one log line and nothing else, and when all
    delivered messages are malformed the local cache is unchanged and no
    cache write is recorded.  The listener has no result, so no error
    reaches a caller. *)
Theorem C8_listener_drops_malformed (s : RistrettoPubSubStrategy C R) (p : R)
        (delivered : list string) (terminal : option error) :
  pubsubClient s = Some p ->
  (forall message e, json_Unmarshal message = inl e -> onMessage s message = s) /\
  exists s',
    listenForInvalidations s delivered terminal = Ok s' /\
    l1Cache s' = l1Cache (fold_left onMessage delivered s) /\
    redisClient s' = redisClient s /\ pubsubClient s' = pubsubClient s /\
    cancelBgTasks s' = cancelBgTasks s /\
    trace s' =
      trace (fold_left onMessage delivered s) ++
      match terminal with
      | None => []
      | Some err =>
          if is_context_Canceled err then []
          else [EvLog ("Error in Pub/Sub listener: " +:+ error_Error err)]
      end /\
    (Forall (fun message => exists e, json_Unmarshal message = inl e) delivered ->
     l1Cache s' = l1Cache s /\
     filter (fun ev => is_cache_write ev = true) (trace s')
       = filter (fun ev => is_cache_write ev = true) (trace s)).
Proof.
  intros Hp. split.
  { intros message e He. unfold onMessage. by rewrite He. }
  unfold listenForInvalidations. rewrite Hp.
  destruct (fold_onMessage_clients delivered s) as (Hr & Hps & Hcb & Hmc).
  destruct terminal as [err|]; [destruct (is_context_Canceled err) eqn:Hcan|];
    (eexists; split; [reflexivity|]); cbn [l1Cache redisClient pubsubClient cancelBgTasks trace];
    rewrite ?app_nil_r;
    (split; [done|]); do 3 (split; [congruence|]); (split; [done|]);
    intros Hall; rewrite (fold_onMessage_dropped _ _ Hall); (split; [done|]);
    rewrite ?filter_app; try reflexivity.
  change (filter _ [EvLog _]) with (@nil effect). by rewrite app_nil_r.
Qed.

(** C10: a message that parses to an empty key (the key is absent from
    the JSON object, or is the empty string) leaves the strategy, and so
    the local cache, unchanged; a message that parses to a non-empty key
    deletes exactly that key from the local cache; and the handler
    changes the strategy only in that second case. *)
Theorem C10_empty_key_evicts_nothing (s : RistrettoPubSubStrategy C R)
        (message : string) :
  (forall m, json_Unmarshal message = inr m -> msg_Key m = EmptyString ->
             onMessage s message = s) /\
  (forall m, json_Unmarshal message = inr m -> msg_Key m <> EmptyString ->
             onMessage s message =
             mkStrategy (l1_Del (l1Cache s) (msg_Key m)) (redisClient s)
                        (pubsubClient s) (cancelBgTasks s) (maxCost s)
                        (trace s ++ [EvCacheDel (msg_Key m)])) /\
  (onMessage s message <> s ->
   exists m, json_Unmarshal message = inr m /\ msg_Key m <> EmptyString).
Proof.
  destruct (onMessage_cases s message) as [[Hs Hk]|(m & Hm & Hk & Hs)].
  - split; [auto|]. split.
    + intros m Hm Hne. elim Hne. eauto.
    + intros Hne. done.
  - split; [|split].
    + intros m' Hm' Hk'. congruence.
    + intros m' Hm' _. congruence.
    + eauto.
Qed.
End StrategyFacts.

(** ** The strategy does not panic once initialised *)

Section StrategySafety.
Import implementations.
Context {C R : Type} `{L1Cache C} `{RedisClient R} `{JSONCodec}.

Lemma Init_initialised (s s0 : RistrettoPubSubStrategy C R) :
  Init s = Ok (None, s0) -> initialised s0.
Proof.
  unfold Init. destruct (ristretto_NewCache _ _ _); [discriminate|].
  destruct (rueidis_NewClient 0); [discriminate|].
  destruct (rueidis_NewClient 1); [discriminate|].
  intros [= <-]. unfold initialised. simpl. eauto.
Qed.

Lemma methods_safe : strategy_safe (@methods C R _ _ _) initialised.
Proof.
  intros s ([r Hr] & [p Hp] & [c Hc]). split; [|split].
  - intros k. simpl. unfold Read. rewrite Hr.
    destruct (l1_Get (l1Cache s) k) as [[v|] c1].
    + eexists _, _. split; [reflexivity|]. unfold initialised. simpl.
      rewrite Hp, Hc. eauto.
    + destruct (redis_Do r (CmdGet k)) as [res r1].
      destruct (RedisResult_ToString res) as [value [e|]];
        (eexists _, _; split; [reflexivity|]); unfold initialised; simpl;
        rewrite Hp, Hc; eauto.
  - intros k v. simpl. unfold Write. rewrite Hr.
    destruct (redis_Do r (CmdSet k v)) as [res r1].
    destruct (RedisResult_Error res).
    + eexists _, _. split; [reflexivity|]. unfold initialised. simpl.
      rewrite Hp, Hc. eauto.
    + destruct (redis_Do r1 _) as [res2 r2].
      eexists _, _. split; [reflexivity|]. unfold initialised. simpl.
      rewrite Hp, Hc. eauto.
  - simpl. unfold Close. rewrite Hr, Hp, Hc. eauto.
Qed.
End StrategySafety.

(** * Facts on binary64 rounding *)

Lemma iter_pos_nat {A : Type} (f : A -> A) (p : positive) (x : A) :
  SpecFloat.iter_pos f p x = Nat.iter (Pos.to_nat p) f x.
Proof.
  revert x. induction p as [p IH|p IH|]; intros x; cbn [SpecFloat.iter_pos].
  - rewrite !IH, Pos2Nat.inj_xI.
    replace (S (2 * Pos.to_nat p)) with (Pos.to_nat p + S (Pos.to_nat p))%nat by lia.
    by rewrite Nat.iter_add, Nat.iter_succ_r.
  - rewrite !IH, Pos2Nat.inj_xO.
    replace (2 * Pos.to_nat p)%nat with (Pos.to_nat p + Pos.to_nat p)%nat by lia.
    by rewrite Nat.iter_add.
  - reflexivity.
Qed.

Lemma shr_1_nonneg m r s :
  0 <= m ->
  shr_1 (Build_shr_record m r s) = Build_shr_record (Z.div2 m) (Z.odd m) (r || s).
Proof.
  intros Hm. destruct m as [|[p|p|]|p]; simpl; try reflexivity. lia.
Qed.

Lemma sticky_step m k :
  0 <= m -> 0 <= k ->
  Z.odd (m / 2 ^ k) || negb (m mod 2 ^ k =? 0) = negb (m mod 2 ^ (k + 1) =? 0).
Proof.
  intros Hm Hk.
  assert (Hp : 0 < 2 ^ k) by (apply Z.pow_pos_nonneg; lia).
  rewrite Z.pow_add_r by lia. change (2 ^ 1) with 2.
  rewrite Z.rem_mul_r by lia.
  rewrite (Zmod_odd (m / 2 ^ k)).
  pose proof (Z.mod_pos_bound m (2 ^ k) Hp) as Hb.
  destruct (Z.odd (m / 2 ^ k)); simpl.
  - symmetry. apply negb_true_iff. apply Z.eqb_neq. lia.
  - f_equal. f_equal. lia.
Qed.

Lemma shr_iter (k : nat) (m : Z) :
  0 <= m ->
  Nat.iter (S k) shr_1 (Build_shr_record m false false)
  = Build_shr_record (m / 2 ^ Z.of_nat (S k)) (Z.odd (m / 2 ^ Z.of_nat k))
                     (negb (m mod 2 ^ Z.of_nat k =? 0)).
Proof.
  intros Hm. induction k as [|k IH].
  - unfold Nat.iter; cbn [nat_rect]. rewrite shr_1_nonneg by done.
    change (2 ^ Z.of_nat 0) with 1. rewrite Z.div_1_r, Z.mod_1_r.
    rewrite Z.div2_div. reflexivity.
  - rewrite Nat.iter_succ, IH.
    assert (Hq : 0 <= m / 2 ^ Z.of_nat (S k)).
    { apply Z.div_pos; [done|]. apply Z.pow_pos_nonneg; lia. }
    rewrite shr_1_nonneg by done. f_equal.
    + rewrite Z.div2_div, Z.div_div by (try apply Z.pow_pos_nonneg; lia).
      f_equal. rewrite (Nat2Z.inj_succ (S k)). rewrite Z.pow_succ_r by lia. lia.
    + rewrite (Nat2Z.inj_succ k), <- Z.add_1_r.
      apply sticky_step; lia.
Qed.

Lemma shr_pos (m e sh : Z) :
  0 <= m -> 0 < sh ->
  shr (Build_shr_record m false false) e sh
  = (Build_shr_record (m / 2 ^ sh) (Z.odd (m / 2 ^ (sh - 1)))
                      (negb (m mod 2 ^ (sh - 1) =? 0)), e + sh).
Proof.
  intros Hm Hsh. destruct sh as [|p|p]; try lia.
  unfold shr. rewrite iter_pos_nat.
  destruct (Pos.to_nat p) as [|k] eqn:Hk; [lia|].
  rewrite shr_iter by done.
  assert (Hp : Z.pos p = Z.of_nat (S k)) by lia.
  rewrite Hp. replace (Z.of_nat (S k) - 1) with (Z.of_nat k) by lia. reflexivity.
Qed.

Lemma round_shr (m sh : Z) :
  0 <= m -> 0 < sh ->
  round_nearest_even
    (m / 2 ^ sh)
    (loc_of_shr_record
       (Build_shr_record (m / 2 ^ sh) (Z.odd (m / 2 ^ (sh - 1)))
                         (negb (m mod 2 ^ (sh - 1) =? 0))))
  = rne m sh.
Proof.
  intros Hm Hsh. unfold rne, rne_by.
  assert (Hp1 : 0 < 2 ^ (sh - 1)) by (apply Z.pow_pos_nonneg; lia).
  assert (Hp : 2 ^ sh = 2 ^ (sh - 1) * 2).
  { replace sh with (sh - 1 + 1) at 1 by lia. rewrite Z.pow_add_r by lia. reflexivity. }
  assert (Hrem : m mod 2 ^ sh
                 = m mod 2 ^ (sh - 1) + 2 ^ (sh - 1) * ((m / 2 ^ (sh - 1)) mod 2)).
  { rewrite Hp. apply Z.rem_mul_r; lia. }
  rewrite (Zmod_odd (m / 2 ^ (sh - 1))) in Hrem.
  pose proof (Z.mod_pos_bound m (2 ^ (sh - 1)) Hp1) as Hb.
  destruct (Z.odd (m / 2 ^ (sh - 1)));
    (destruct (Z.eqb_spec (m mod 2 ^ (sh - 1)) 0) as [Hz|Hz]);
    simpl loc_of_shr_record; simpl round_nearest_even.
  - (* tie *)
    replace (2 * (m mod 2 ^ sh) <? 2 ^ sh) with false by (symmetry; apply Z.ltb_ge; lia).
    replace (2 * (m mod 2 ^ sh) =? 2 ^ sh) with true by (symmetry; apply Z.eqb_eq; lia).
    reflexivity.
  - replace (2 * (m mod 2 ^ sh) <? 2 ^ sh) with false by (symmetry; apply Z.ltb_ge; lia).
    replace (2 * (m mod 2 ^ sh) =? 2 ^ sh) with false by (symmetry; apply Z.eqb_neq; lia).
    reflexivity.
  - replace (2 * (m mod 2 ^ sh) <? 2 ^ sh) with true by (symmetry; apply Z.ltb_lt; lia).
    reflexivity.
  - replace (2 * (m mod 2 ^ sh) <? 2 ^ sh) with true by (symmetry; apply Z.ltb_lt; lia).
    reflexivity.
Qed.

Lemma digits2_size (p : positive) : digits2_pos p = Pos.size p.
Proof. induction p as [p IH|p IH|]; simpl; by rewrite ?IH. Qed.

Lemma digits_spec (p : positive) :
  2 ^ (Z.pos (digits2_pos p) - 1) <= Z.pos p < 2 ^ Z.pos (digits2_pos p).
Proof.
  rewrite digits2_size.
  assert (Hs : Z.pos (Pos.size p) = Z.succ (Z.log2 (Z.pos p))).
  { destruct p as [p|p|]; simpl; lia. }
  rewrite Hs. replace (Z.succ (Z.log2 (Z.pos p)) - 1) with (Z.log2 (Z.pos p)) by lia.
  apply Z.log2_spec. lia.
Qed.

Lemma digits_unique (p : positive) (d : Z) :
  2 ^ (d - 1) <= Z.pos p < 2 ^ d -> 0 < d -> Z.pos (digits2_pos p) = d.
Proof.
  intros Hb Hd. pose proof (digits_spec p) as Hs.
  assert (Hd' : 0 < Z.pos (digits2_pos p)) by lia.
  destruct (Z.lt_trichotomy (Z.pos (digits2_pos p)) d) as [Hlt|[Heq|Hgt]]; [|done|].
  - assert (2 ^ Z.pos (digits2_pos p) <= 2 ^ (d - 1)) by (apply Z.pow_le_mono_r; lia). lia.
  - assert (2 ^ d <= 2 ^ (Z.pos (digits2_pos p) - 1)) by (apply Z.pow_le_mono_r; lia). lia.
Qed.

(** The value of [binary_round_aux] on a positive mantissa with at
    least 53 digits, away from underflow and overflow. *)
Lemma Zdigits2_log2 (p : positive) : Zdigits2 (Z.pos p) = Z.log2 (Z.pos p) + 1.
Proof.
  simpl. rewrite digits2_size. destruct p as [p|p|]; simpl; lia.
Qed.

Lemma shr_fexp_keep (m e : Z) :
  2 ^ 52 <= m < 2 ^ 53 -> -1074 <= e ->
  shr_fexp 53 1024 m e loc_Exact = (Build_shr_record m false false, e).
Proof.
  intros Hm He. destruct m as [|p|p]; try lia.
  unfold shr_fexp. rewrite Zdigits2_log2.
  rewrite (Z.log2_unique (Z.pos p) 52) by lia.
  unfold fexp, emin. replace (Z.max (52 + 1 + e - 53) (3 - 1024 - 53) - e) with 0 by lia.
  reflexivity.
Qed.

Lemma shr_fexp_carry (e : Z) :
  -1075 <= e ->
  shr_fexp 53 1024 (2 ^ 53) e loc_Exact = (Build_shr_record (2 ^ 52) false false, e + 1).
Proof.
  intros He. unfold shr_fexp. change (Zdigits2 (2 ^ 53)) with 54.
  unfold fexp, emin. replace (Z.max (54 + e - 53) (3 - 1024 - 53) - e) with 1 by lia.
  reflexivity.
Qed.

Lemma rne_bounds (m sh : Z) :
  0 <= sh -> 2 ^ (sh + 52) <= m < 2 ^ (sh + 53) ->
  2 ^ 52 <= m / 2 ^ sh < 2 ^ 53 /\
  (rne m sh = m / 2 ^ sh \/ rne m sh = m / 2 ^ sh + 1).
Proof.
  intros Hsh Hm.
  assert (Hp : 0 < 2 ^ sh) by (apply Z.pow_pos_nonneg; lia).
  rewrite !Z.pow_add_r in Hm by lia.
  split.
  - split.
    + apply Z.div_le_lower_bound; lia.
    + apply Z.div_lt_upper_bound; lia.
  - unfold rne, rne_by. destruct (_ <? _); [auto|]. destruct (_ =? _); [|auto].
    destruct (Z.even _); auto.
Qed.

Lemma rne_0 (m : Z) : rne m 0 = m.
Proof.
  unfold rne, rne_by. change (2 ^ 0) with 1. rewrite Z.mod_1_r, Z.div_1_r. reflexivity.
Qed.

Lemma binary_round_aux_normal (sx : bool) (p : positive) (e : Z) :
  let sh := Z.log2 (Z.pos p) + 1 - 53 in
  0 <= sh -> -1074 <= e + sh -> e + sh + 1 <= 971 ->
  binary_round_aux 53 1024 sx (Z.pos p) e loc_Exact = rounded sx (Z.pos p) e.
Proof.
  intros sh Hsh Hlo Hhi.
  pose proof (Z.log2_spec (Z.pos p) ltac:(lia)) as Hlog.
  assert (Hm : 2 ^ (sh + 52) <= Z.pos p < 2 ^ (sh + 53)).
  { unfold sh. replace (Z.log2 (Z.pos p) + 1 - 53 + 52) with (Z.log2 (Z.pos p)) by lia.
    replace (Z.log2 (Z.pos p) + 1 - 53 + 53) with (Z.succ (Z.log2 (Z.pos p))) by lia.
    exact Hlog. }
  destruct (rne_bounds _ _ Hsh Hm) as (Hq & Hr).
  unfold binary_round_aux, rounded. fold sh.
  assert (Hfirst :
    shr_fexp 53 1024 (Z.pos p) e loc_Exact
    = (if sh =? 0 then Build_shr_record (Z.pos p) false false
       else Build_shr_record (Z.pos p / 2 ^ sh) (Z.odd (Z.pos p / 2 ^ (sh - 1)))
                             (negb (Z.pos p mod 2 ^ (sh - 1) =? 0)), e + sh)).
  { unfold shr_fexp. rewrite Zdigits2_log2. unfold fexp, emin.
    replace (Z.max (Z.log2 (Z.pos p) + 1 + e - 53) (3 - 1024 - 53) - e) with sh
      by (unfold sh; lia).
    change (shr_record_of_loc (Z.pos p) loc_Exact)
      with (Build_shr_record (Z.pos p) false false).
    destruct (Z.eqb_spec sh 0) as [->|Hne].
    - simpl. f_equal. lia.
    - apply shr_pos; lia. }
  rewrite Hfirst.
  assert (Hround :
    round_nearest_even
      (shr_m (if sh =? 0 then Build_shr_record (Z.pos p) false false
              else Build_shr_record (Z.pos p / 2 ^ sh) (Z.odd (Z.pos p / 2 ^ (sh - 1)))
                                    (negb (Z.pos p mod 2 ^ (sh - 1) =? 0))))
      (loc_of_shr_record
         (if sh =? 0 then Build_shr_record (Z.pos p) false false
          else Build_shr_record (Z.pos p / 2 ^ sh) (Z.odd (Z.pos p / 2 ^ (sh - 1)))
                                (negb (Z.pos p mod 2 ^ (sh - 1) =? 0))))
    = rne (Z.pos p) sh).
  { destruct (Z.eqb_spec sh 0) as [Hz|Hne].
    - rewrite Hz. rewrite rne_0. reflexivity.
    - cbn [shr_m]. apply round_shr; lia. }
  rewrite Hround.
  destruct (Z.ltb_spec (rne (Z.pos p) sh) (2 ^ 53)) as [Hlt|Hge].
  - rewrite shr_fexp_keep by lia. cbn [shr_m].
    destruct (rne (Z.pos p) sh) as [|q|q] eqn:Hrq; try lia.
    replace (e + sh <=? 1024 - 53) with true by (symmetry; apply Z.leb_le; lia).
    reflexivity.
  - assert (Heq : rne (Z.pos p) sh = 2 ^ 53) by lia.
    rewrite Heq, shr_fexp_carry by lia. cbn [shr_m].
    replace (e + sh + 1 <=? 1024 - 53) with true by (symmetry; apply Z.leb_le; lia).
    reflexivity.
Qed.

(** ** Nothing here produces a NaN from a non-negative mantissa *)

Lemma shr_1_m_nonneg (mrs : shr_record) : 0 <= shr_m mrs -> 0 <= shr_m (shr_1 mrs).
Proof.
  destruct mrs as [m r s]. simpl. intros Hm.
  destruct m as [|[p|p|]|p]; simpl; lia.
Qed.

Lemma shr_m_nonneg (mrs : shr_record) (e n : Z) :
  0 <= shr_m mrs -> 0 <= shr_m (fst (shr mrs e n)).
Proof.
  intros Hm. destruct n as [|p|p]; simpl; try done.
  rewrite iter_pos_nat. induction (Pos.to_nat p) as [|k IH]; [done|].
  rewrite Nat.iter_succ. by apply shr_1_m_nonneg.
Qed.

Lemma shr_record_of_loc_m (m : Z) (l : location) : shr_m (shr_record_of_loc m l) = m.
Proof. destruct l as [|[| |]]; reflexivity. Qed.

Lemma round_nearest_even_nonneg (m : Z) (l : location) :
  0 <= m -> 0 <= round_nearest_even m l.
Proof.
  intros Hm. destruct l as [|[| |]]; simpl; try lia. destruct (Z.even m); lia.
Qed.

Lemma binary_round_aux_not_nan (sx : bool) (mx ex : Z) (lx : location) :
  0 <= mx -> is_nan (binary_round_aux 53 1024 sx mx ex lx) = false.
Proof.
  intros Hm. unfold binary_round_aux.
  destruct (shr_fexp 53 1024 mx ex lx) as [mrs' e'] eqn:H1.
  assert (Hm1 : 0 <= shr_m mrs').
  { replace mrs' with (fst (shr_fexp 53 1024 mx ex lx)) by (by rewrite H1).
    unfold shr_fexp. apply shr_m_nonneg. by rewrite shr_record_of_loc_m. }
  destruct (shr_fexp 53 1024 (round_nearest_even (shr_m mrs') (loc_of_shr_record mrs'))
                     e' loc_Exact) as [mrs'' e''] eqn:H2.
  assert (Hm2 : 0 <= shr_m mrs'').
  { replace mrs'' with
      (fst (shr_fexp 53 1024 (round_nearest_even (shr_m mrs') (loc_of_shr_record mrs'))
                     e' loc_Exact)) by (by rewrite H2).
    unfold shr_fexp. apply shr_m_nonneg. rewrite shr_record_of_loc_m.
    by apply round_nearest_even_nonneg. }
  destruct (shr_m mrs'') as [|q|q]; try lia; [reflexivity|].
  destruct (_ <=? _); reflexivity.
Qed.

Lemma fdiv_finite_not_nan sx mx ex sy my ey :
  is_nan (fdiv (S754_finite sx mx ex) (S754_finite sy my ey)) = false.
Proof.
  unfold fdiv, SFdiv, SFdiv_core_binary.
  set (m' := match _ with Z.pos _ => _ | 0 => _ | Z.neg _ => _ end).
  assert (Hm' : 0 <= m').
  { unfold m'. destruct (_ - _ - _)%Z; try lia. apply Z.shiftl_nonneg. lia. }
  destruct (Z.div_eucl m' (Z.pos my)) as [q r] eqn:Hd.
  apply binary_round_aux_not_nan.
  replace q with (m' / Z.pos my) by (unfold Z.div; by rewrite Hd).
  apply Z.div_pos; lia.
Qed.

(** ** Conversion of integers *)

Lemma float64_of_int_0 : float64_of_int 0 = S754_zero false.
Proof. reflexivity. Qed.

Lemma pow_pos_pow (d : positive) : Z.pow_pos 2 d = 2 ^ Z.pos d.
Proof. reflexivity. Qed.

(** Below [2 ^ 53] the conversion is exact: the integer is shifted left
    until its leading bit is the 53rd. *)
Lemma float64_of_int_exact (n : Z) :
  0 < n < 2 ^ 53 ->
  float64_of_int n
  = S754_finite false (Z.to_pos (n * 2 ^ (52 - Z.log2 n))) (Z.log2 n - 52).
Proof.
  intros Hn. destruct n as [|p|p]; try lia.
  pose proof (Z.log2_spec (Z.pos p) ltac:(lia)) as Hlog.
  assert (Hl : 0 <= Z.log2 (Z.pos p) < 53).
  { split; [apply Z.log2_nonneg|]. apply Z.log2_lt_pow2; lia. }
  unfold float64_of_int, binary_normalize, binary_round, prec64, emax64.
  change (Z.pos (digits2_pos p)) with (Zdigits2 (Z.pos p)).
  rewrite Zdigits2_log2. unfold fexp, emin.
  replace (Z.max (Z.log2 (Z.pos p) + 1 + 0 - 53) (3 - 1024 - 53))
    with (Z.log2 (Z.pos p) - 52) by lia.
  unfold shl_align. rewrite Z.sub_0_r.
  destruct (Z.log2 (Z.pos p) - 52) as [|d|d] eqn:Hd; try lia.
  - (* already 53 digits *)
    assert (Hlg : Z.log2 (Z.pos p) = 52) by lia.
    rewrite binary_round_aux_normal by (rewrite Hlg; lia).
    unfold rounded. rewrite Hlg. change (52 + 1 - 53) with 0. rewrite rne_0.
    replace (Z.pos p <? 2 ^ 53) with true by (symmetry; apply Z.ltb_lt; lia).
    change (2 ^ (52 - 52)) with 1. rewrite Z.mul_1_r. reflexivity.
  - (* shifted left by [d] *)
    fold (shift_pos d p).
    assert (Hs : Z.pos (shift_pos d p) = Z.pos p * 2 ^ Z.pos d).
    { rewrite shift_pos_correct, pow_pos_pow. lia. }
    assert (Hd' : Z.pos d = 52 - Z.log2 (Z.pos p)) by lia.
    assert (Hlg : Z.log2 (Z.pos (shift_pos d p)) = 52).
    { rewrite Hs. apply Z.log2_unique; [lia|].
      assert (H2d : 0 < 2 ^ Z.pos d) by (apply Z.pow_pos_nonneg; lia).
      assert (E1 : 2 ^ 52 = 2 ^ Z.pos d * 2 ^ Z.log2 (Z.pos p)).
      { rewrite <- Z.pow_add_r by lia. f_equal. lia. }
      assert (E2 : 2 ^ Z.succ 52 = 2 ^ Z.pos d * 2 ^ Z.succ (Z.log2 (Z.pos p))).
      { rewrite <- Z.pow_add_r by lia. f_equal. lia. }
      rewrite E1, E2. nia. }
    rewrite binary_round_aux_normal by (rewrite Hlg; lia).
    unfold rounded. rewrite Hlg. change (52 + 1 - 53) with 0. rewrite rne_0.
    pose proof (Z.log2_spec (Z.pos (shift_pos d p)) ltac:(lia)) as Hlog'.
    rewrite Hlg in Hlog'.
    replace (Z.pos (shift_pos d p) <? 2 ^ 53) with true
      by (symmetry; apply Z.ltb_lt; change (Z.succ 52) with 53 in Hlog'; lia).
    rewrite Hs, Hd'. f_equal; lia.
Qed.

(** Up to [2 ^ 64] the conversion gives a positive finite number. *)
Lemma float64_of_int_finite (n : Z) :
  0 < n < 2 ^ 64 -> exists m e, float64_of_int n = S754_finite false m e.
Proof.
  intros Hn. destruct (Z.ltb_spec n (2 ^ 53)) as [Hlt|Hge].
  - rewrite float64_of_int_exact by lia. eauto.
  - destruct n as [|p|p]; try lia.
    assert (Hl : 53 <= Z.log2 (Z.pos p) < 64).
    { split; [apply Z.log2_le_pow2; lia|apply Z.log2_lt_pow2; lia]. }
    unfold float64_of_int, binary_normalize, binary_round, prec64, emax64.
    change (Z.pos (digits2_pos p)) with (Zdigits2 (Z.pos p)).
    rewrite Zdigits2_log2. unfold fexp, emin.
    replace (Z.max (Z.log2 (Z.pos p) + 1 + 0 - 53) (3 - 1024 - 53))
      with (Z.log2 (Z.pos p) - 52) by lia.
    unfold shl_align. rewrite Z.sub_0_r.
    destruct (Z.log2 (Z.pos p) - 52) as [|d|d] eqn:Hd; try lia.
    rewrite binary_round_aux_normal by lia.
    unfold rounded. destruct (_ <? _); eauto.
Qed.

Lemma fdiv_int_not_nan (a b : Z) :
  0 <= a < 2 ^ 64 -> 0 < b < 2 ^ 64 ->
  is_nan (fdiv (float64_of_int a) (float64_of_int b)) = false.
Proof.
  intros Ha Hb. destruct (float64_of_int_finite b Hb) as (mb & eb & ->).
  destruct (Z.eq_dec a 0) as [->|Hne].
  - reflexivity.
  - destruct (float64_of_int_finite a ltac:(lia)) as (ma & ea & ->).
    apply fdiv_finite_not_nan.
Qed.

Lemma M95_eq : 20 * M95 = 19 * 2 ^ 53 - 8.
Proof. reflexivity. Qed.

Lemma rne_by_bounds m u : 0 < u -> m / u <= rne_by m u <= m / u + 1.
Proof.
  intros Hu. unfold rne_by. destruct (_ <? _); [lia|]. destruct (_ =? _); [|lia].
  destruct (Z.even _); lia.
Qed.

Lemma p95_core (n K j A T U P : Z) :
  0 < n < 2 ^ 48 -> 19 * n = 20 * K + j -> 0 <= j < 20 ->
  0 < A -> 32 <= T -> 0 < U -> T * U = 2 ^ 53 * A ->
  P = n * M95 * A -> P < U * 2 ^ 53 ->
  rne_by P U / T = K.
Proof.
  intros Hn HK Hj HA HT HU HW HP HPhi.
  pose proof M95_eq as HM.
  set (W := T * U) in *.
  assert (H20 : 20 * P = (20 * K + j) * W - 8 * n * A).
  { rewrite HP. rewrite HW. rewrite <- HK.
    replace (20 * (n * M95 * A)) with (n * A * (20 * M95)) by ring.
    rewrite HM. ring. }
  assert (HKnn : 0 <= K) by lia.
  destruct (Z.eq_dec j 0) as [Hj0|Hj0].
  - (* 19 n / 20 is exact: the product sits just below a representable
       number and is rounded up to it *)
    subst j.
    set (D := K * W - P).
    assert (HD20 : 20 * D = 8 * n * A) by (unfold D; lia).
    assert (HnA : 0 < n * A) by (apply Z.mul_pos_pos; lia).
    assert (HDpos : 0 < D) by lia.
    assert (HD : (19 * 2 ^ 53 - 8) * D = 8 * P).
    { assert (19 * (20 * D) = 8 * (19 * n) * A) by lia.
      assert (E : 19 * D = 8 * K * A) by nia.
      assert (19 * 2 ^ 53 * D = 8 * K * W).
      { rewrite HW. replace (19 * 2 ^ 53 * D) with (2 ^ 53 * (19 * D)) by ring.
        rewrite E. ring. }
      unfold D in *. lia. }
    assert (H2D : 2 * D < U) by lia.
    assert (HKT : 1 <= K * T).
    { assert (0 < K) by lia.
      assert (1 * 1 <= K * T) by (apply Z.mul_le_mono_nonneg; lia). lia. }
    assert (Hdecomp : P = (K * T - 1) * U + (U - D)).
    { unfold D, W. ring. }
    assert (Hq : P / U = K * T - 1).
    { symmetry. apply (Z.div_unique P U (K * T - 1) (U - D)); [lia|]. lia. }
    assert (Hr : P mod U = U - D).
    { symmetry. apply (Z.mod_unique P U (K * T - 1) (U - D)); [lia|]. lia. }
    unfold rne_by. rewrite Hq, Hr.
    replace (2 * (U - D) <? U) with false by (symmetry; apply Z.ltb_ge; lia).
    replace (2 * (U - D) =? U) with false by (symmetry; apply Z.eqb_neq; lia).
    replace (K * T - 1 + 1) with (K * T) by lia.
    apply Z.div_mul. lia.
  - (* otherwise the product is far from both neighbouring integers *)
    assert (Hlo : K * W <= P).
    { assert (0 <= j * W - 8 * n * A); [|lia].
      rewrite HW. assert (8 * n <= 2 ^ 53) by lia.
      assert (1 * (2 ^ 53 * A) <= j * (2 ^ 53 * A)) by (apply Z.mul_le_mono_nonneg_r; lia).
      nia. }
    assert (Hhi : 20 * (P - K * W) <= 19 * W).
    { assert (j * W <= 19 * W) by (apply Z.mul_le_mono_nonneg_r; unfold W; nia). nia. }
    assert (Hq1 : K * T <= P / U).
    { apply Z.div_le_lower_bound; [lia|]. unfold W in Hlo. lia. }
    assert (Hq2 : P / U <= K * T + T - 2).
    { destruct (Z_le_gt_dec (P / U) (K * T + T - 2)) as [|Hgt]; [assumption|]. exfalso.
      pose proof (Z.mul_div_le P U HU) as Hm.
      assert ((K * T + T - 1) * U <= U * (P / U)) by nia.
      assert (20 * W <= 19 * W + 20 * U) by (unfold W in *; nia).
      unfold W in *. nia. }
    pose proof (rne_by_bounds P U HU) as Hb.
    symmetry. apply (Z.div_unique_pos (rne_by P U) T K (rne_by P U - K * T)); lia.
Qed.

Lemma log2_bounds (n : Z) : 0 < n -> 2 ^ Z.log2 n <= n < 2 * 2 ^ Z.log2 n.
Proof.
  intros Hn. pose proof (Z.log2_spec n Hn) as H.
  rewrite Z.pow_succ_r in H by apply Z.log2_nonneg. lia.
Qed.

(** [float64(n) * 0.95] before the conversion back to an integer. *)
Lemma fmul_095 (n : Z) :
  0 < n < 2 ^ 53 ->
  fmul (float64_of_int n) main.f0_95
  = rounded false (n * 2 ^ (52 - Z.log2 n) * M95) (Z.log2 n - 105).
Proof.
  intros Hn. rewrite float64_of_int_exact by assumption.
  set (L := Z.log2 n).
  assert (HL : 0 <= L <= 52).
  { split; [apply Z.log2_nonneg|]. unfold L.
    assert (Z.log2 n < 53); [|lia]. apply Z.log2_lt_pow2; lia. }
  pose proof (log2_bounds n ltac:(lia)) as Hb. fold L in Hb.
  set (A := 2 ^ (52 - L)).
  assert (HA : 0 < A) by (apply Z.pow_pos_nonneg; lia).
  assert (HAL : A * 2 ^ L = 2 ^ 52).
  { unfold A. rewrite <- Z.pow_add_r by lia. f_equal. lia. }
  assert (Hmz : 2 ^ 52 <= n * A < 2 ^ 53) by nia.
  unfold fmul, SFmul, main.f0_95. cbn [xorb].
  rewrite Pos2Z.inj_mul, Z2Pos.id by lia.
  change (Z.pos 8556839292003942) with M95.
  assert (HP : 2 ^ 104 <= n * A * M95 < 2 ^ 106) by (unfold M95; nia).
  assert (Hlg : 104 <= Z.log2 (n * A * M95) < 106).
  { split; [apply Z.log2_le_pow2; lia | apply Z.log2_lt_pow2; lia]. }
  replace (L - 52 + -53) with (L - 105) by lia.
  destruct (n * A * M95) as [|p|p] eqn:Ep; try lia.
  apply (binary_round_aux_normal false p (L - 105)); lia.
Qed.

(** [int(float64(n) * 0.95)] is the integer part of [19 n / 20]. *)
Lemma p95Index_spec (n : Z) :
  0 < n < 2 ^ 48 -> main.p95Index n = Some (19 * n / 20).
Proof.
  intros Hn. unfold main.p95Index. rewrite fmul_095 by lia.
  set (L := Z.log2 n).
  assert (HL : 0 <= L <= 47).
  { split; [apply Z.log2_nonneg|]. unfold L.
    assert (Z.log2 n < 48); [|lia]. apply Z.log2_lt_pow2; lia. }
  pose proof (log2_bounds n ltac:(lia)) as Hb. fold L in Hb.
  set (A := 2 ^ (52 - L)).
  assert (HA : 0 < A) by (apply Z.pow_pos_nonneg; lia).
  assert (HAL : A * 2 ^ L = 2 ^ 52).
  { unfold A. rewrite <- Z.pow_add_r by lia. f_equal. lia. }
  assert (Hmz : 2 ^ 52 <= n * A < 2 ^ 53) by nia.
  set (P := n * A * M95).
  assert (HP : 2 ^ 104 <= P < 2 ^ 106) by (unfold P, M95; nia).
  assert (Hlg : 104 <= Z.log2 P < 106).
  { split; [apply Z.log2_le_pow2; lia | apply Z.log2_lt_pow2; lia]. }
  unfold rounded. set (sh := Z.log2 P + 1 - 53).
  assert (Hsh : 52 <= sh <= 53) by (unfold sh; lia).
  pose proof (log2_bounds P ltac:(lia)) as HbP.
  replace (Z.log2 P) with (sh + 52) in HbP by (unfold sh; lia).
  set (U := 2 ^ sh).
  assert (HU : 0 < U) by (apply Z.pow_pos_nonneg; lia).
  assert (HPU : U * 2 ^ 52 <= P < U * 2 ^ 53).
  { unfold U. rewrite <- !Z.pow_add_r by lia.
    replace (2 ^ (sh + 53)) with (2 * 2 ^ (sh + 52)); [lia|].
    rewrite <- Z.pow_succ_r by lia. f_equal. lia. }
  set (t := 105 - L - sh).
  assert (Ht : 5 <= t <= 53) by (unfold t; lia).
  set (T := 2 ^ t).
  assert (HT : 32 <= T).
  { unfold T. change 32 with (2 ^ 5). apply Z.pow_le_mono_r; lia. }
  assert (HTU : T * U = 2 ^ 53 * A).
  { unfold T, U, A. rewrite <- !Z.pow_add_r by lia. f_equal. unfold t. lia. }
  assert (Hcore : rne P sh / T = 19 * n / 20).
  { unfold rne. fold U.
    apply (p95_core n (19 * n / 20) (19 * n mod 20) A T U P); try lia.
    - apply Z.div_mod. lia.
    - apply Z.mod_pos_bound. lia. }
  assert (Hmr : 2 ^ 52 <= rne P sh <= 2 ^ 53).
  { pose proof (rne_by_bounds P U HU) as Hr. fold (rne P sh) in Hr.
    assert (2 ^ 52 <= P / U) by (apply Z.div_le_lower_bound; lia).
    assert (P / U < 2 ^ 53) by (apply Z.div_lt_upper_bound; lia).
    unfold rne. fold U. lia. }
  assert (HK : 0 <= 19 * n / 20 < 2 ^ 53).
  { split; [apply Z.div_pos; lia|]. apply Z.div_lt_upper_bound; lia. }
  destruct (rne P sh <? 2 ^ 53) eqn:Hc.
  - apply Z.ltb_lt in Hc. unfold int_of_float64.
    replace (0 <=? L - 105 + sh) with false by (symmetry; apply Z.leb_gt; lia).
    rewrite Z2Pos.id by lia.
    replace (- (L - 105 + sh)) with t by (unfold t; lia). fold T.
    rewrite Hcore.
    replace (19 * n / 20 <=? MaxInt64) with true; [reflexivity|].
    symmetry. apply Z.leb_le. unfold MaxInt64. lia.
  - apply Z.ltb_ge in Hc. assert (Hmr' : rne P sh = 2 ^ 53) by lia.
    rewrite Hmr' in Hcore. unfold int_of_float64.
    replace (0 <=? L - 105 + sh + 1) with false by (symmetry; apply Z.leb_gt; lia).
    rewrite Z2Pos.id by lia.
    replace (- (L - 105 + sh + 1)) with (t - 1) by (unfold t; lia).
    assert (E : 2 ^ 52 / 2 ^ (t - 1) = 2 ^ 53 / T).
    { unfold T. change (2 ^ 53) with (2 * 2 ^ 52).
      replace (2 ^ t) with (2 * 2 ^ (t - 1)).
      2:{ rewrite <- Z.pow_succ_r by lia. f_equal. lia. }
      rewrite Z.div_mul_cancel_l; [reflexivity| |lia].
      apply Z.pow_nonzero; lia. }
    rewrite E, Hcore.
    replace (19 * n / 20 <=? MaxInt64) with true; [reflexivity|].
    symmetry. apply Z.leb_le. unfold MaxInt64. lia.
Qed.

Lemma sort_Latencies_length (l : list Duration) :
  length (main.sort_Latencies l) = length l.
Proof. unfold main.sort_Latencies. by rewrite merge_sort_Permutation. Qed.


(* ===================================================================== *)
(** * The aggregated metrics                                              *)
(* ===================================================================== *)

Lemma count_nonneg (p : call_event -> bool) h : 0 <= count p h.
Proof.
  unfold count. induction h as [|e h IH]; simpl sumZ; [lia|].
  destruct (p e); simpl; lia.
Qed.

Lemma calculateFinalMetrics_HitRate (r : Result) :
  0 <= TotalHits r -> 0 <= TotalMisses r ->
  TotalHits r + TotalMisses r <= MaxInt64 ->
  HitRate (calculateFinalMetrics r)
  = if 0 <? TotalHits r + TotalMisses r
    then fdiv (float64_of_int (TotalHits r))
              (float64_of_int (TotalHits r + TotalMisses r))
    else HitRate r.
Proof.
  intros Hh Hm Hs. unfold calculateFinalMetrics.
  assert (Ha : add64 (TotalHits r) (TotalMisses r) = TotalHits r + TotalMisses r).
  { unfold add64. apply wrap64_small. unfold MaxInt64 in *. lia. }
  rewrite Ha. destruct (0 <? _); destruct (fgt _ _); reflexivity.
Qed.

(** C5: in the result [Run] returns, [TotalHits + TotalMisses] is the
    number of reads that returned no error.  When it is positive,
    [HitRate] is the binary64 quotient of [TotalHits] by
    [TotalHits + TotalMisses], and is not NaN; when it is zero,
    [HitRate] is [0].  For instance 80 hits and 20 misses give the
    binary64 nearest to [0.8]. *)
Theorem C5_hit_rate {S : Type} (impl : CachingStrategy S)
        (env : Environment) (s : S) (w : list Operation) (c size : Z)
        (res : Result) (err : option error) :
  Z.of_nat (length w) <= MaxInt64 ->
  outcome (Run env (NewRunner impl s w c size)) = Returned res err ->
  let h := calls (Run env (NewRunner impl s w c size)) in
  let reads := TotalHits res + TotalMisses res in
  TotalHits res = count counted_hit h /\
  reads = count read_ok h /\
  (0 < reads ->
   HitRate res = fdiv (float64_of_int (TotalHits res)) (float64_of_int reads) /\
   is_nan (HitRate res) = false) /\
  (reads = 0 -> HitRate res = fzero) /\
  (TotalHits res = 80 -> TotalMisses res = 20 ->
   HitRate res = S754_finite false 7205759403792794 (-53)).
Proof.
  intros Hlen Hout h reads.
  assert (Hmain : TotalHits res = count counted_hit h /\
                  TotalMisses res = count counted_miss h /\
                  Z.of_nat (length h) <= Z.of_nat (length w) /\
                  HitRate res
                  = if 0 <? reads
                    then fdiv (float64_of_int (TotalHits res)) (float64_of_int reads)
                    else fzero).
  { destruct (Run_inversion env _ _ _ Hout)
      as [(e & s0 & _ & _ & Hres & Hcalls)
         |(s0 & s2 & ce & Hinit & _ & Hp & Hcl & _ & Hcalls & Hres)].
    - unfold h, reads. rewrite Hcalls, Hres. simpl. repeat split; lia.
    - set (r := NewRunner impl s w c size) in *.
      destruct (end_machine_spec env r s0 Hlen eq_refl eq_refl eq_refl eq_refl Hp)
        as (Hh & Hm & _ & _ & _ & Hfr & Hops & _).
      destruct Hfr as (_ & _ & _ & Hhr & _ & _). simpl in Hhr.
      pose proof (count_partition (m_history (end_machine env r s0))) as Hpart.
      pose proof (count_nonneg counted_hit (m_history (end_machine env r s0))).
      pose proof (count_nonneg counted_miss (m_history (end_machine env r s0))).
      pose proof (count_nonneg counted_write (m_history (end_machine env r s0))).
      pose proof (count_nonneg counted_error (m_history (end_machine env r s0))).
      change (workload r) with w in Hops.
      match type of Hres with _ = calculateFinalMetrics ?x =>
        destruct (calculateFinalMetrics_counters x) as (C1 & C2 & _);
        pose proof (calculateFinalMetrics_HitRate x) as Hrate end.
      rewrite <- Hres in C1, C2, Hrate. simpl in C1, C2, Hrate.
      rewrite <- C1, <- C2, Hhr in Hrate.
      unfold h, reads. rewrite Hcalls, C1, C2, <- Hh, <- Hm.
      repeat split; try lia.
      rewrite C1, C2 in Hrate. apply Hrate; lia. }
  destruct Hmain as (Hh & Hm & Hle & Hrate).
  pose proof (count_reads h) as Hrd.
  pose proof (count_partition h) as Hpart.
  pose proof (count_nonneg counted_hit h).
  pose proof (count_nonneg counted_miss h).
  pose proof (count_nonneg counted_write h).
  pose proof (count_nonneg counted_error h).
  split; [exact Hh|]. split; [unfold reads; lia|].
  split; [|split].
  - intros Hpos. rewrite Hrate.
    replace (0 <? reads) with true by (symmetry; apply Z.ltb_lt; lia).
    split; [reflexivity|].
    apply fdiv_int_not_nan; unfold reads, MaxInt64 in *; lia.
  - intros Hz. rewrite Hrate, Hz. reflexivity.
  - intros E1 E2. rewrite Hrate. unfold reads. rewrite E1, E2. reflexivity.
Qed.

(* ===================================================================== *)
(** * The final comparison                                                *)
(* ===================================================================== *)

(** C9: the final comparison sorts the latencies of a result in
    ascending order.  With more than 20 samples the 95th percentile it
    reports is the element of the sorted sequence at index
    [floor (0.95 * n)], that is [19 * n / 20], which is within bounds;
    with 20 samples or fewer it is zero.  The index is computed in
    binary64; it is the exact one for every sequence of fewer than
    [2 ^ 48] samples. *)
Theorem C9_p95_latency (r : Result) :
  let lats := Latencies r in
  let n := Z.of_nat (length lats) in
  let sorted := main.sort_Latencies lats in
  n < 2 ^ 48 ->
  Sorted Z.le sorted /\ sorted ≡ₚ lats /\
  (n <= 20 -> main.p95Latency lats = Ok 0) /\
  (20 < n ->
   exists d, sorted !! Z.to_nat (19 * n / 20) = Some d /\
             main.p95Latency lats = Ok d) /\
  (0 < n ->
   exists row, main.comparisonRow r = Ok row /\
               main.p95Latency lats = Ok (main.row_p95Latency row)).
Proof.
  intros lats n sorted Hn.
  assert (Hlen : Z.of_nat (length sorted) = n).
  { unfold sorted. by rewrite sort_Latencies_length. }
  assert (Hsmall : n <= 20 -> main.p95Latency lats = Ok 0).
  { intros Hle. unfold main.p95Latency. fold sorted. rewrite Hlen.
    unfold main.p95_threshold.
    replace (20 <? n) with false by (symmetry; apply Z.ltb_ge; lia). reflexivity. }
  assert (Hbig : 20 < n ->
    exists d, sorted !! Z.to_nat (19 * n / 20) = Some d /\
              main.p95Latency lats = Ok d).
  { intros Hgt.
    assert (Hi : 0 <= 19 * n / 20 < n).
    { split; [apply Z.div_pos; lia | apply Z.div_lt_upper_bound; lia]. }
    destruct (lookup_lt_is_Some_2 sorted (Z.to_nat (19 * n / 20))) as [d Hd]; [lia|].
    exists d. split; [exact Hd|].
    unfold main.p95Latency. fold sorted. rewrite Hlen.
    unfold main.p95_threshold.
    replace (20 <? n) with true by (symmetry; apply Z.ltb_lt; lia).
    rewrite p95Index_spec by lia.
    replace (19 * n / 20 <? 0) with false by (symmetry; apply Z.ltb_ge; lia).
    by rewrite Hd. }
  split; [apply Sorted_merge_sort; apply _|].
  split; [apply merge_sort_Permutation|].
  split; [exact Hsmall|]. split; [exact Hbig|].
  intros Hpos.
  assert (Hp : exists d, main.p95Latency lats = Ok d).
  { destruct (Z_le_gt_dec n 20) as [Hle|Hgt].
    - exists 0. auto.
    - destruct Hbig as (d & _ & Hd); [lia|]. eauto. }
  destruct Hp as [d Hd]. unfold main.comparisonRow. fold lats. rewrite Hd.
  fold n. replace (n =? 0) with false by (symmetry; apply Z.eqb_neq; lia).
  eexists. split; [reflexivity|]. reflexivity.
Qed.


(* ===================================================================== *)
(** * The workload generators                                             *)
(* ===================================================================== *)

Section GeneratorFacts.
Context {G Zf : Type} `{RandSource G} `{ZipfSource Zf}.

Lemma Generate_loop_types n ratio (z : Zf) (g : G) :
  length (Generate_loop n ratio z g) = n /\
  map Type_ (Generate_loop n ratio z g)
  = map (fun d => classify d ratio) (ratio_draws n g).
Proof.
  revert z g. induction n as [|n IH]; intros z g; simpl; [auto|].
  destruct (zipf_Uint64 z) as [rank z']. destruct (rand_Float64 g) as [d g'].
  simpl. destruct (IH z' g') as [-> ->]. auto.
Qed.

Lemma GenerateUniform_loop_types n numKeys ratio (g : G) :
  length (GenerateUniform_loop n numKeys ratio g) = n /\
  map Type_ (GenerateUniform_loop n numKeys ratio g)
  = map (fun d => classify d ratio) (uniform_draws n numKeys g).
Proof.
  revert g. induction n as [|n IH]; intros g; simpl; [auto|].
  destruct (rand_Intn g numKeys) as [k g1]. destruct (rand_Float64 g1) as [d g2].
  simpl. destruct (IH g2) as [-> ->]. auto.
Qed.

Lemma classify_spec (d ratio : float64) :
  (classify d ratio = WriteOp <-> fgt d ratio = true) /\
  (classify d ratio = ReadOp <-> fgt d ratio = false).
Proof. unfold classify. destruct (fgt d ratio); split; split; congruence. Qed.

Lemma classify_below_one (d : float64) :
  SFltb d fone = true -> classify d fone = ReadOp.
Proof.
  unfold classify, fgt, SFltb. destruct (SFcompare d fone) as [[]|]; congruence.
Qed.

Lemma classified_all (ops : list Operation) (draws : list float64) ratio :
  map Type_ ops = map (fun d => classify d ratio) draws ->
  Forall2 (fun op d => (Type_ op = WriteOp <-> fgt d ratio = true) /\
                       (Type_ op = ReadOp <-> fgt d ratio = false)) ops draws /\
  (ratio = fone -> Forall (fun d => SFltb d fone = true) draws ->
   Forall (fun op => Type_ op = ReadOp) ops).
Proof.
  revert draws. induction ops as [|op ops IH]; intros [|d draws] Hm;
    simpl in Hm; try discriminate.
  - split; [constructor|]. intros _ _. constructor.
  - injection Hm as Hop Hrest. destruct (IH _ Hrest) as [IH1 IH2]. split.
    + constructor; [|exact IH1]. rewrite Hop. apply classify_spec.
    + intros -> Hd. inversion Hd; subst. constructor; [|auto].
      rewrite Hop. by apply classify_below_one.
Qed.

(** C6: for a non-negative number of operations, [Generate] and (with
    at least one key) [GenerateUniform] return that many operations, and
    the i-th operation is a write exactly when the i-th draw of
    [Float64] is greater than [readWriteRatio], a read otherwise.  With
    [readWriteRatio = 1] and draws below 1 every operation is a read. *)
Theorem C6_write_iff_draw_exceeds_ratio
        (numOps numKeys : Z) (ratio : float64) (z : Zf) (g : G) :
  0 <= numOps ->
  (exists ops,
     Generate numOps numKeys ratio (Some z) g = Ok ops /\
     length ops = Z.to_nat numOps /\
     let draws := ratio_draws (Z.to_nat numOps) g in
     Forall2 (fun op d => (Type_ op = WriteOp <-> fgt d ratio = true) /\
                          (Type_ op = ReadOp <-> fgt d ratio = false)) ops draws /\
     (ratio = fone -> Forall (fun d => SFltb d fone = true) draws ->
      Forall (fun op => Type_ op = ReadOp) ops)) /\
  (0 < numKeys ->
   exists ops,
     GenerateUniform numOps numKeys ratio g = Ok ops /\
     length ops = Z.to_nat numOps /\
     let draws := uniform_draws (Z.to_nat numOps) numKeys g in
     Forall2 (fun op d => (Type_ op = WriteOp <-> fgt d ratio = true) /\
                          (Type_ op = ReadOp <-> fgt d ratio = false)) ops draws /\
     (ratio = fone -> Forall (fun d => SFltb d fone = true) draws ->
      Forall (fun op => Type_ op = ReadOp) ops)).
Proof.
  intros Hn. split.
  - unfold Generate. replace (numOps <? 0) with false by (symmetry; apply Z.ltb_ge; lia).
    eexists. split; [reflexivity|].
    destruct (Generate_loop_types (Z.to_nat numOps) ratio z g) as [Hl Hm].
    split; [exact Hl|]. by apply classified_all.
  - intros Hk. unfold GenerateUniform.
    replace (numOps <? 0) with false by (symmetry; apply Z.ltb_ge; lia).
    replace (numKeys <=? 0) with false by (symmetry; apply Z.leb_gt; lia).
    rewrite andb_false_r.
    eexists. split; [reflexivity|].
    destruct (GenerateUniform_loop_types (Z.to_nat numOps) numKeys ratio g) as [Hl Hm].
    split; [exact Hl|]. by apply classified_all.
Qed.
End GeneratorFacts.


Section Tracking.
Context {S : Type} (impl : CachingStrategy S) (env : Environment) (size : Z).

(** A property of the machine kept by every move of a worker is kept by
    the run. *)
Lemma run_workers_preserves (I : machine S -> Prop) :
  (forall i w m, m_panic m = None -> m_workers m !! i = Some w ->
                 is_done w = false -> I m ->
                 I (worker_step impl env size i w m)) ->
  forall fuel m, I m -> I (run_workers impl env size fuel m).
Proof.
  intros Hstep fuel. induction fuel as [|fuel IH]; intros m HI; simpl; [done|].
  destruct (step impl env size m) as [m'|] eqn:Hs; [|done].
  destruct (step_Some _ _ _ _ _ Hs) as (Hp & i & w & Hl & Hd & ->).
  apply IH. by apply Hstep.
Qed.

Lemma flat_map_insert {A B : Type} (f : A -> list B) (l : list A) i x y :
  l !! i = Some x ->
  exists pre post, flat_map f l = pre ++ f x ++ post /\
                   flat_map f (<[i := y]> l) = pre ++ f y ++ post.
Proof.
  revert i. induction l as [|a l IH]; intros [|i] Hl; simpl in *; try discriminate.
  - injection Hl as ->. exists [], (flat_map f l). auto.
  - destruct (IH _ Hl) as (pre & post & -> & ->).
    exists (f a ++ pre), post. by rewrite <- !app_assoc.
Qed.

Lemma worker_step_conserved w0 i w (m : machine S) :
  m_workers m !! i = Some w -> conserved w0 m ->
  conserved w0 (worker_step impl env size i w m).
Proof.
  unfold conserved. intros Hl HI.
  assert (Hsame : forall w', held w = [] -> held w' = [] ->
            flat_map held (<[i := w']> (m_workers m)) = flat_map held (m_workers m)).
  { intros w' E1 E2.
    destruct (flat_map_insert held _ _ _ w' Hl) as (pre & post & -> & ->).
    by rewrite E1, E2. }
  destruct w as [|v|v op|v op start hit err|v start err|v err|];
    unfold worker_step; simpl.
  - destruct (generateValue _ _); simpl; [|done]. by rewrite Hsame.
  - destruct (m_ops m) as [|op rest] eqn:Hops; simpl.
    + by rewrite Hsame.
    + destruct (flat_map_insert held _ _ _ (WCall v op) Hl) as (pre & post & E1 & ->).
      rewrite E1 in HI. simpl in *. rewrite <- HI.
      apply Permutation_app_head. rewrite <- !app_assoc. apply Permutation_app_head.
      simpl. by rewrite Permutation_middle.
  - assert (Hmove : forall hit err,
      map ev_op (m_history m) ++ [op] ++
        flat_map held (<[i := WCount v op (now env (m_clock m)) hit err]> (m_workers m))
        ++ m_ops m ≡ₚ w0).
    { intros hit err.
      destruct (flat_map_insert held _ _ _ (WCount v op (now env (m_clock m)) hit err) Hl)
        as (pre' & post' & E1' & ->).
      rewrite E1' in HI. simpl in *. rewrite <- HI.
      apply Permutation_app_head. rewrite <- !app_assoc.
      by rewrite Permutation_middle. }
    destruct (Type_ op).
    + destruct (Read _ _ _) as [[[[val hit] err] s']|msg]; simpl; [|done].
      rewrite map_app. simpl. rewrite <- app_assoc. apply Hmove.
    + destruct (Write _ _ _ _) as [[err s']|msg]; simpl; [|done].
      rewrite map_app. simpl. rewrite <- app_assoc. apply Hmove.
  - by rewrite Hsame.
  - by rewrite Hsame.
  - by rewrite Hsame.
  - done.
Qed.

Lemma run_workers_conserved w0 fuel (m : machine S) :
  conserved w0 m -> conserved w0 (run_workers impl env size fuel m).
Proof.
  apply (run_workers_preserves (conserved w0)).
  intros i w m' _ Hl _. by apply worker_step_conserved.
Qed.

Lemma worker_step_in_order w0 i w (m : machine S) :
  m_workers m !! i = Some w -> in_order w0 m ->
  in_order w0 (worker_step impl env size i w m).
Proof.
  intros Hl (wk & Hw & HI). rewrite Hw in Hl.
  destruct i as [|i]; simpl in Hl; [|by destruct i]. injection Hl as <-.
  unfold in_order.
  destruct wk as [|v|v op|v op start hit err|v start err|v err|];
    unfold worker_step; simpl; rewrite ?Hw; simpl in *.
  - destruct (generateValue _ _); simpl; rewrite ?Hw; eauto.
  - destruct (m_ops m) as [|op rest]; simpl; eauto.
  - destruct (Type_ op).
    + destruct (Read _ _ _) as [[[[val hit] err] s']|msg]; simpl; rewrite ?Hw.
      * eexists. split; [reflexivity|]. rewrite map_app, <- app_assoc. exact HI.
      * eauto.
    + destruct (Write _ _ _ _) as [[err s']|msg]; simpl; rewrite ?Hw.
      * eexists. split; [reflexivity|]. rewrite map_app, <- app_assoc. exact HI.
      * eauto.
  - eauto.
  - eauto.
  - eauto.
  - eauto.
Qed.

Lemma worker_step_draining i w (m : machine S) :
  m_workers m !! i = Some w -> is_done w = false -> draining m ->
  draining (worker_step impl env size i w m).
Proof.
  unfold draining. intros Hl Hd HI.
  assert (Hput : forall w', is_done w' = false ->
            Forall (fun w => is_done w = false) (m_workers m) ->
            Forall (fun w => is_done w = false) (<[i := w']> (m_workers m))).
  { intros w' Hw' Hall. by apply Forall_insert. }
  destruct w as [|v|v op|v op start hit err|v start err|v err|];
    simpl in Hd; try discriminate; unfold worker_step; simpl.
  - destruct (generateValue _ _); simpl; [|done]. destruct HI; auto.
  - destruct (m_ops m) as [|op rest] eqn:Hops; simpl; [auto|].
    destruct HI as [|Hall]; [discriminate|]. right. by apply Hput.
  - destruct (Type_ op).
    + destruct (Read _ _ _) as [[[[val hit] err] s']|msg]; simpl; [|done].
      destruct HI; auto.
    + destruct (Write _ _ _ _) as [[err s']|msg]; simpl; [|done].
      destruct HI; auto.
  - destruct HI; auto.
  - destruct HI; auto.
  - destruct HI; auto.
Qed.

Lemma worker_step_payloads i w (m : machine S) :
  m_workers m !! i = Some w -> payloads env size m ->
  payloads env size (worker_step impl env size i w m).
Proof.
  intros Hl (Hw & Hh).
  assert (Hi : (i < length (m_workers m))%nat) by (eapply lookup_lt_Some; eauto).
  assert (Hput : forall w',
            (forall v, carried w' = Some v ->
                       generateValue (entropy env i) size = Ok v) ->
            forall j wj v, <[i := w']> (m_workers m) !! j = Some wj ->
                           carried wj = Some v ->
                           generateValue (entropy env j) size = Ok v).
  { intros w' Hw' j wj v Hj Hc. destruct (decide (i = j)) as [<-|Hne].
    - rewrite list_lookup_insert_eq in Hj by done. injection Hj as <-. auto.
    - rewrite list_lookup_insert_ne in Hj by done. eauto. }
  assert (Hkeep : forall w',
            Forall (fun e => payload_ok env size e /\
                             (ev_worker e < length (<[i := w']> (m_workers m)))%nat)
                   (m_history m)).
  { intros w'. by rewrite length_insert. }
  assert (Hmine : forall v, carried w = Some v ->
                             generateValue (entropy env i) size = Ok v).
  { intros v. by apply Hw. }
  destruct w as [|v|v op|v op start hit err|v start err|v err|];
    unfold worker_step, payloads; simpl.
  - destruct (generateValue _ _) as [v0|msg] eqn:Hg; simpl; [|done].
    split; [|apply Hkeep]. apply Hput. simpl. congruence.
  - destruct (m_ops m) as [|op rest]; simpl.
    + split; [|apply Hkeep]. apply Hput. discriminate.
    + split; [|apply Hkeep]. apply Hput. simpl. intros v0 [= <-]. by apply Hmine.
  - assert (Hv : generateValue (entropy env i) size = Ok v) by (by apply Hmine).
    destruct (Type_ op) eqn:Hty.
    + destruct (Read _ _ _) as [[[[val hit] err] s']|msg]; simpl; [|done].
      split; [apply Hput; simpl; congruence|].
      apply Forall_app. split; [apply Hkeep|]. constructor; [|constructor].
      rewrite length_insert. split; [|exact Hi].
      unfold payload_ok. simpl. by rewrite Hty.
    + destruct (Write _ _ _ _) as [[err s']|msg]; simpl; [|done].
      split; [apply Hput; simpl; congruence|].
      apply Forall_app. split; [apply Hkeep|]. constructor; [|constructor].
      rewrite length_insert. split; [|exact Hi].
      unfold payload_ok. simpl. rewrite Hty. eauto.
  - split; [|apply Hkeep]. apply Hput. simpl. intros v0 [= <-].
    by apply Hmine.
  - split; [|apply Hkeep]. apply Hput. simpl. intros v0 [= <-].
    by apply Hmine.
  - split; [|apply Hkeep]. apply Hput. simpl. intros v0 [= <-].
    by apply Hmine.
  - done.
Qed.

Lemma monotone_from_start t :
  monotone env -> now env 0 <= now env t.
Proof.
  intros Hm. induction t as [|t IH]; [lia|]. specialize (Hm t). lia.
Qed.

Lemma time_Since_mono t start start' :
  monotone env -> start' <= start ->
  time_Since env t start <= time_Since env (Datatypes.S t) start'.
Proof. intros Hm Hs. specialize (Hm t). unfold time_Since. lia. Qed.

Lemma worker_step_timed i w (m : machine S) :
  monotone env -> m_workers m !! i = Some w -> timed env m ->
  timed env (worker_step impl env size i w m).
Proof.
  intros Hmono Hl (Hw & Hlat).
  pose proof (Hmono (m_clock m)) as Hnext.
  pose proof (monotone_from_start (m_clock m) Hmono) as H0.
  assert (Hput : forall w',
            (forall start, started w' = Some start ->
                           now env 0 <= start <= now env (m_clock m)) ->
            forall j wj start, <[i := w']> (m_workers m) !! j = Some wj ->
                               started wj = Some start ->
                               now env 0 <= start <= now env (Datatypes.S (m_clock m))).
  { intros w' Hw' j wj start Hj Hs. destruct (decide (i = j)) as [<-|Hne].
    - rewrite list_lookup_insert_eq in Hj by (eapply lookup_lt_Some; eauto).
      injection Hj as <-. specialize (Hw' _ Hs). lia.
    - rewrite list_lookup_insert_ne in Hj by done.
      specialize (Hw _ _ _ Hj Hs). lia. }
  assert (Hkeep : Forall (fun l => 0 <= l <=
                            time_Since env (Datatypes.S (m_clock m)) (now env 0))
                         (m_latencies m)).
  { eapply Forall_impl; [exact Hlat|]. intros l Hb. simpl in Hb.
    pose proof (time_Since_mono (m_clock m) (now env 0) (now env 0) Hmono ltac:(lia)).
    lia. }
  assert (Hmine : forall start, started w = Some start ->
                                now env 0 <= start <= now env (m_clock m)).
  { intros start. by apply (Hw i). }
  assert (Hcrash : forall msg, timed env (crash m msg)).
  { intros msg. split; simpl; [|exact Hkeep].
    intros j wj start Hj Hs. specialize (Hw _ _ _ Hj Hs). lia. }
  destruct w as [|v|v op|v op start hit err|v start err|v err|];
    unfold worker_step, timed; simpl.
  - destruct (generateValue _ _); [|apply Hcrash]. simpl.
    split; [|exact Hkeep]. apply Hput. discriminate.
  - destruct (m_ops m) as [|op rest]; simpl;
      (split; [|exact Hkeep]); apply Hput; discriminate.
  - destruct (Type_ op).
    + destruct (Read _ _ _) as [[[[val hit] err] s']|msg]; [|apply Hcrash]. simpl.
      split; [|exact Hkeep]. apply Hput. simpl. intros start [= <-]. lia.
    + destruct (Write _ _ _ _) as [[err s']|msg]; [|apply Hcrash]. simpl.
      split; [|exact Hkeep]. apply Hput. simpl. intros start [= <-]. lia.
  - split; [|exact Hkeep]. apply Hput. simpl. intros s0 [= <-]. by apply Hmine.
  - split; [apply Hput; discriminate|].
    apply Forall_app. split; [exact Hkeep|]. constructor; [|constructor].
    specialize (Hmine start eq_refl). unfold time_Since, MaxInt64. lia.
  - split; [|exact Hkeep]. apply Hput. discriminate.
  - split; [exact Hw|exact Hlat].
Qed.
End Tracking.

Lemma count_outcome_frame op hit err (r r0 : Result) :
  same_frame r r0 -> same_frame (count_outcome op hit err r) r0.
Proof.
  unfold count_outcome. destruct (Type_ op), err, hit; simpl; auto.
Qed.

Lemma count_error_frame err (r r0 : Result) :
  same_frame r r0 -> same_frame (count_error err r) r0.
Proof. unfold count_error. destruct err; simpl; auto. Qed.

Lemma calculateFinalMetrics_frame (r : Result) :
  StrategyName (calculateFinalMetrics r) = StrategyName r /\
  TotalDuration (calculateFinalMetrics r) = TotalDuration r /\
  Latencies (calculateFinalMetrics r) = Latencies r.
Proof.
  unfold calculateFinalMetrics.
  destruct (0 <? _); destruct (fgt _ _); simpl; auto.
Qed.

Lemma worker_step_frame {S : Type} (impl : CachingStrategy S)
      (env : Environment) size r0 i w (m : machine S) :
  same_frame (m_result m) r0 ->
  same_frame (m_result (worker_step impl env size i w m)) r0.
Proof.
  intros Hf. destruct w as [|v|v op|v op start hit err|v start err|v err|];
    unfold worker_step; simpl; auto.
  - destruct (generateValue _ _); simpl; auto.
  - destruct (m_ops m); simpl; auto.
  - destruct (Type_ op).
    + destruct (Read _ _ _) as [[[[? ?] ?] ?]|?]; simpl; auto.
    + destruct (Write _ _ _ _) as [[? ?]|?]; simpl; auto.
  - by apply count_outcome_frame.
  - by apply count_error_frame.
Qed.

Section RunTracking.
Context {S : Type} (env : Environment).

Lemma end_machine_frame (r : Runner S) s0 :
  same_frame (m_result (end_machine env r s0)) (result r).
Proof.
  apply (run_workers_preserves (methods r) env (valueSizeBytes r)
           (fun m => same_frame (m_result m) (result r))).
  - intros i w m _ _ _. apply worker_step_frame.
  - unfold same_frame. simpl. auto 10.
Qed.

Lemma Run_calls (r : Runner S) :
  calls (Run env r) = [] \/
  exists s0, Init (methods r) (strategy r) = Ok (None, s0) /\
             0 <= concurrency r /\
             calls (Run env r) = m_history (end_machine env r s0).
Proof.
  unfold Run.
  destruct (Init (methods r) (strategy r)) as [[[e|] s0]|msg] eqn:Hinit; simpl; auto.
  destruct (concurrency r <? 0) eqn:Hc; simpl; auto.
  fold (start_machine r s0). fold (end_machine env r s0).
  right. exists s0. split; [done|]. split; [lia|].
  destruct (m_panic (end_machine env r s0)); simpl; [done|].
  destruct (Close _ _) as [[ce s2]|msg]; done.
Qed.

Lemma start_machine_conserved (r : Runner S) s0 :
  conserved (workload r) (start_machine r s0).
Proof.
  unfold conserved, start_machine. simpl.
  replace (flat_map held (replicate (Z.to_nat (concurrency r)) WStart))
    with (@nil Operation); [done|].
  induction (Z.to_nat (concurrency r)); simpl; auto.
Qed.

Lemma start_machine_payloads (r : Runner S) s0 :
  payloads env (valueSizeBytes r) (start_machine r s0).
Proof.
  split; simpl; [|constructor].
  intros i w v Hl Hc. apply lookup_replicate in Hl as [-> _]. discriminate.
Qed.

Lemma start_machine_timed (r : Runner S) s0 :
  monotone env -> timed env (start_machine r s0).
Proof.
  intros Hm. split; simpl; [|constructor].
  intros i w start Hl Hs. apply lookup_replicate in Hl as [-> _]. discriminate.
Qed.

Lemma end_machine_drained (r : Runner S) s0 :
  0 < concurrency r -> m_panic (end_machine env r s0) = None ->
  m_ops (end_machine env r s0) = [] /\
  Forall (fun w => is_done w = true) (m_workers (end_machine env r s0)).
Proof.
  intros Hc Hp.
  assert (Hfin : step (methods r) env (valueSizeBytes r) (end_machine env r s0) = None).
  { apply run_workers_final. unfold measure. simpl. lia. }
  pose proof (step_None _ _ _ _ Hfin Hp) as Hdone. split; [|exact Hdone].
  assert (Hdr : draining (end_machine env r s0)).
  { apply (run_workers_preserves (methods r) env (valueSizeBytes r) draining).
    - intros i w m _ Hl Hd. by apply worker_step_draining.
    - right. apply Forall_replicate. reflexivity. }
  destruct Hdr as [|Hnd]; [done|].
  pose proof (run_workers_length (methods r) env (valueSizeBytes r)
                (steps_bound (start_machine r s0)) (start_machine r s0)) as Hlen.
  fold (end_machine env r s0) in Hlen. simpl in Hlen. rewrite length_replicate in Hlen.
  destruct (m_workers (end_machine env r s0)) as [|w ws]; simpl in Hlen; [lia|].
  inversion Hdone; subst. inversion Hnd; subst. congruence.
Qed.
End RunTracking.

(* ===================================================================== *)
(** * More on the run: the queue, the payloads, the clock                 *)
(* ===================================================================== *)

Lemma done_holds_nothing (ws : list worker_state) :
  Forall (fun w => is_done w = true) ws -> flat_map held ws = [].
Proof.
  induction 1 as [|wk ws Hwk _ IH]; simpl; [done|].
  rewrite IH. by destruct wk.
Qed.

Section RunProperties.
Context {S : Type} (impl : CachingStrategy S) (env : Environment).

(** X1: No operation is passed to the strategy twice, however the run ends;
    a run that returns without error, with at least one worker, has
    passed each operation of the workload exactly once. *)
Theorem Run_executes_each_operation_once (s : S) (w : list Operation)
        (c size : Z) :
  let x := Run env (NewRunner impl s w c size) in
  map ev_op (calls x) ⊆+ w /\
  (forall res, 0 < c -> outcome x = Returned res None ->
               map ev_op (calls x) ≡ₚ w).
Proof.
  intros x. set (r := NewRunner impl s w c size) in *.
  assert (Hcons : forall s0, conserved w (end_machine env r s0)).
  { intros s0. apply run_workers_conserved. apply (start_machine_conserved r s0). }
  split.
  - unfold x. destruct (Run_calls env r) as [->|(s0 & _ & _ & ->)].
    + apply submseteq_nil_l.
    + rewrite <- (Hcons s0). by apply submseteq_inserts_r.
  - intros res Hc Hout.
    destruct (Run_inversion env _ _ _ Hout)
      as [(e & s0 & _ & He & _)|(s0 & s2 & ce & Hinit & _ & Hp & Hcl & _ & Hcalls & Hres)];
      [discriminate|].
    unfold x. rewrite Hcalls.
    destruct (end_machine_drained env r s0 Hc Hp) as (Hops & Hdone).
    specialize (Hcons s0). unfold conserved in Hcons. rewrite Hops, app_nil_r in Hcons.
    rewrite (done_holds_nothing _ Hdone) in Hcons. by rewrite app_nil_r in Hcons.
Qed.

(** X2: A single worker passes the operations to the strategy in the order
    of the workload: what it has passed is a prefix of the workload
    however the run ends, and the whole workload when the run returns
    without error. *)
Theorem Run_single_worker_in_order (s : S) (w : list Operation) (size : Z) :
  let x := Run env (NewRunner impl s w 1 size) in
  map ev_op (calls x) `prefix_of` w /\
  (forall res, outcome x = Returned res None -> map ev_op (calls x) = w).
Proof.
  intros x. set (r := NewRunner impl s w 1 size) in *.
  assert (Hord : forall s0, in_order w (end_machine env r s0)).
  { intros s0.
    apply (run_workers_preserves (methods r) env (valueSizeBytes r) (in_order w)).
    - intros i wk m _ Hl _. by apply worker_step_in_order.
    - exists WStart. split; reflexivity. }
  split.
  - unfold x. destruct (Run_calls env r) as [->|(s0 & _ & _ & ->)].
    + apply prefix_nil.
    + destruct (Hord s0) as (wk & _ & Heq). rewrite <- Heq. by apply prefix_app_r.
  - intros res Hout.
    destruct (Run_inversion env _ _ _ Hout)
      as [(e & s0 & _ & He & _)|(s0 & s2 & ce & Hinit & _ & Hp & Hcl & _ & Hcalls & Hres)];
      [discriminate|].
    unfold x. rewrite Hcalls.
    destruct (end_machine_drained env r s0 ltac:(reflexivity) Hp) as (Hops & Hdone).
    destruct (Hord s0) as (wk & Hw & Heq). rewrite Hw in Hdone.
    apply Forall_inv in Hdone. rewrite <- Heq, Hops.
    destruct wk; simpl in *; try discriminate. by rewrite !app_nil_r.
Qed.

(** X3: Every call of a run is made by one of its workers; a read passes no
    value and a write passes the payload its worker generated from its
    own random bytes, a string of two characters per configured byte.
    Two writes of one worker pass the same string. *)
Theorem Run_writes_carry_worker_payload (s : S) (w : list Operation)
        (c size : Z) :
  let h := calls (Run env (NewRunner impl s w c size)) in
  Forall (fun e => payload_ok env size e /\ (ev_worker e < Z.to_nat c)%nat) h /\
  (forall e v, e ∈ h -> ev_written e = Some v ->
               Type_ (ev_op e) = WriteOp /\
               Z.of_nat (String.length v) = 2 * size) /\
  (forall e1 e2, e1 ∈ h -> e2 ∈ h -> ev_worker e1 = ev_worker e2 ->
                 Type_ (ev_op e1) = WriteOp -> Type_ (ev_op e2) = WriteOp ->
                 ev_written e1 = ev_written e2).
Proof.
  intros h. set (r := NewRunner impl s w c size) in *.
  assert (Hall : Forall (fun e => payload_ok env size e /\
                                  (ev_worker e < Z.to_nat c)%nat) h).
  { unfold h. destruct (Run_calls env r) as [->|(s0 & _ & _ & ->)]; [constructor|].
    assert (Hpay : payloads env size (end_machine env r s0)).
    { apply (run_workers_preserves (methods r) env (valueSizeBytes r)
               (payloads env size)).
      - intros i wk m _ Hl _. by apply worker_step_payloads.
      - apply (start_machine_payloads env r s0). }
    destruct Hpay as (_ & Hh).
    pose proof (run_workers_length (methods r) env (valueSizeBytes r)
                  (steps_bound (start_machine r s0)) (start_machine r s0)) as Hlen.
    fold (end_machine env r s0) in Hlen. simpl in Hlen.
    rewrite length_replicate in Hlen. by rewrite Hlen in Hh. }
  split; [exact Hall|]. rewrite Forall_forall in Hall. split.
  - intros e v He Hv. destruct (Hall e He) as (Hok & _). unfold payload_ok in Hok.
    destruct (Type_ (ev_op e)); [congruence|]. split; [done|].
    destruct Hok as (v' & Hv' & Hg). rewrite Hv in Hv'. injection Hv' as <-.
    by destruct (generateValue_length _ _ _ Hg).
  - intros e1 e2 H1 H2 Hsame T1 T2.
    destruct (Hall e1 H1) as (Hok1 & _). destruct (Hall e2 H2) as (Hok2 & _).
    unfold payload_ok in *. rewrite T1 in Hok1. rewrite T2 in Hok2.
    destruct Hok1 as (v1 & -> & G1). destruct Hok2 as (v2 & -> & G2).
    rewrite Hsame in G1. congruence.
Qed.

(** X4: With a clock that does not go back, the total duration of a run that
    returns without error is not negative and no latency is negative or
    longer than the total duration. *)
Theorem Run_latencies_within_duration (s : S) (w : list Operation)
        (c size : Z) (res : Result) :
  monotone env ->
  outcome (Run env (NewRunner impl s w c size)) = Returned res None ->
  0 <= TotalDuration res /\
  Forall (fun l => 0 <= l <= TotalDuration res) (Latencies res).
Proof.
  intros Hmono Hout. set (r := NewRunner impl s w c size) in *.
  destruct (Run_inversion env _ _ _ Hout)
    as [(e & s0 & _ & He & _)|(s0 & s2 & ce & Hinit & _ & Hp & Hcl & _ & Hcalls & Hres)];
    [discriminate|].
  assert (Ht : timed env (end_machine env r s0)).
  { apply (run_workers_preserves (methods r) env (valueSizeBytes r) (timed env)).
    - intros i wk m _ Hl _. by apply worker_step_timed.
    - by apply start_machine_timed. }
  destruct Ht as (_ & Hlat).
  destruct (end_machine_frame env r s0) as (_ & _ & _ & _ & _ & Hl0).
  simpl in Hl0.
  match type of Hres with _ = calculateFinalMetrics ?x =>
    destruct (calculateFinalMetrics_frame x) as (_ & Hd & Hl) end.
  rewrite <- Hres in Hd, Hl. simpl in Hd, Hl. rewrite Hl0 in Hl. simpl in Hl.
  rewrite Hd, Hl. split; [|exact Hlat].
  pose proof (monotone_from_start env (m_clock (end_machine env r s0)) Hmono).
  unfold time_Since, MaxInt64. lia.
Qed.
End RunProperties.

Lemma run_workers_no_worker {S : Type} (impl : CachingStrategy S)
      (env : Environment) size fuel (m : machine S) :
  m_workers m = [] -> run_workers impl env size fuel m = m.
Proof.
  intros Hw. destruct fuel as [|fuel]; simpl; [done|].
  unfold step. rewrite Hw. simpl. by destruct (m_panic m).
Qed.

(** X5: With a concurrency of zero [Run] starts no worker: when [Init] and
    [Close] succeed it returns without error a result that reports the
    whole workload as [TotalOperations], although no operation was
    passed to the strategy, no counter moved and no latency was
    recorded. *)
Theorem Run_without_workers {S : Type} (impl : CachingStrategy S)
        (env : Environment) (s s0 s2 : S) (ce : option error)
        (w : list Operation) (size : Z) :
  Init impl s = Ok (None, s0) -> Close impl s0 = Ok (ce, s2) ->
  Z.of_nat (length w) <= MaxInt64 ->
  let x := Run env (NewRunner impl s w 0 size) in
  exists res,
    outcome x = Returned res None /\ calls x = [] /\
    strategy (runner_after x) = s2 /\
    TotalOperations res = Z.of_nat (length w) /\
    TotalHits res = 0 /\ TotalMisses res = 0 /\ TotalWrites res = 0 /\
    TotalErrors res = 0 /\ Latencies res = [] /\ HitRate res = fzero.
Proof.
  intros Hi Hc Hlen x. unfold x, Run.
  cbn [NewRunner methods strategy concurrency workload valueSizeBytes result].
  rewrite Hi. cbn [Z.ltb Z.compare Z.to_nat replicate].
  rewrite run_workers_no_worker by reflexivity.
  cbn [m_panic m_strategy m_result m_latencies m_clock m_history].
  rewrite Hc. cbn [outcome calls runner_after with_state strategy].
  eexists. split; [reflexivity|]. split; [reflexivity|]. split; [reflexivity|].
  match goal with |- TotalOperations (calculateFinalMetrics ?r) = _ /\ _ =>
    destruct (calculateFinalMetrics_counters r) as (-> & -> & -> & -> & -> & ->);
    pose proof (calculateFinalMetrics_HitRate r) as Hr end.
  cbn [set_Latencies set_TotalOperations set_TotalDuration TotalHits TotalMisses
       TotalWrites TotalErrors TotalOperations Latencies HitRate app] in *.
  rewrite Hr by (unfold MaxInt64; lia). cbn [Z.add Z.ltb Z.compare].
  rewrite wrap64_small by (unfold MaxInt64 in *; lia). auto 10.
Qed.

(** X6: Computing the final metrics a second time changes nothing. *)
Theorem calculateFinalMetrics_idempotent (r : Result) :
  calculateFinalMetrics (calculateFinalMetrics r) = calculateFinalMetrics r.
Proof.
  destruct r as [name ops hits misses writes errors dur rate persec lats].
  unfold calculateFinalMetrics.
  cbn [TotalHits TotalMisses TotalDuration TotalOperations].
  destruct (0 <? add64 hits misses) eqn:E1;
    cbn [set_HitRate TotalHits TotalMisses TotalDuration TotalOperations];
    destruct (fgt (Duration_Seconds dur) fzero) eqn:E2;
    cbn [set_HitRate set_OpsPerSecond TotalHits TotalMisses TotalDuration
         TotalOperations StrategyName TotalWrites TotalErrors HitRate
         OpsPerSecond Latencies];
    rewrite ?E1, ?E2;
    cbn [set_HitRate set_OpsPerSecond TotalHits TotalMisses TotalDuration
         TotalOperations StrategyName TotalWrites TotalErrors HitRate
         OpsPerSecond Latencies];
    rewrite ?E2; reflexivity.
Qed.

(* ===================================================================== *)
(** * More on the Ristretto + Pub/Sub strategy                            *)
(* ===================================================================== *)

Section StrategyProperties.
Import implementations.
Context {C R : Type} `{L1Cache C} `{RedisClient R} `{JSONCodec}.




(** X8: A write does not refresh the writer's own cached copy: when the key
    is in the local cache, the read that follows the write returns the
    value cached before it, as a hit, and sends nothing to Redis. *)
Theorem Read_after_Write_is_stale (s : RistrettoPubSubStrategy C R)
        (c c1 : C) (r : R) (key value old : string) :
  l1Cache s = Some c -> redisClient s = Some r ->
  cache_Get c key = (Some old, c1) ->
  exists e s1 s2,
    Write s key value = Ok (e, s1) /\
    Read s1 key = Ok ((old, true, None), s2) /\
    redisClient s2 = redisClient s1 /\
    trace s2 = trace s1 ++ [EvCacheGet key].
Proof.
  intros Hc Hr Hg. unfold Write. rewrite Hr.
  destruct (redis_Do r (CmdSet key value)) as [res r1].
  destruct (RedisResult_Error res) as [err|].
  - eexists _, _, _. split; [reflexivity|].
    unfold Read. simpl. rewrite Hc. simpl. rewrite Hg. auto.
  - destruct (redis_Do r1 _) as [res2 r2].
    eexists _, _, _. split; [reflexivity|].
    unfold Read. simpl. rewrite Hc. simpl. rewrite Hg. auto.
Qed.

(** X9: The message a write publishes for its key makes every strategy that
    receives it delete that key from its local cache, provided the key
    is not empty and the codec reads back what it wrote; the message of
    a write to the empty key evicts nothing. *)
Theorem published_invalidation_evicts (s' : RistrettoPubSubStrategy C R)
        (key : string) :
  let message := json_Marshal (mkInvalidationMessage key) in
  json_Unmarshal message = inr (mkInvalidationMessage key) ->
  (key <> EmptyString ->
   onMessage s' message =
   mkStrategy (l1_Del (l1Cache s') key) (redisClient s') (pubsubClient s')
              (cancelBgTasks s') (maxCost s') (trace s' ++ [EvCacheDel key])) /\
  (key = EmptyString -> onMessage s' message = s').
Proof.
  intros message Hrt. unfold onMessage. rewrite Hrt. simpl. split.
  - intros Hne. by rewrite (proj2 (String.eqb_neq _ _) Hne).
  - intros ->. reflexivity.
Qed.

(** X10: Before [Init] every method of the strategy dereferences a nil
    client and panics; after an [Init] that failed, [Close] does. *)
Theorem uninitialised_strategy_panics (maxCost : Z) :
  let s := NewRistrettoPubSubStrategy (C := C) (R := R) maxCost in
  (forall key, Read s key = Panic nil_deref) /\
  (forall key value, Write s key value = Panic nil_deref) /\
  Close s = Panic nil_deref /\
  (forall delivered terminal,
      listenForInvalidations s delivered terminal = Panic nil_deref) /\
  (forall e s0, Init s = Ok (Some e, s0) -> Close s0 = Panic nil_deref).
Proof.
  intros s. repeat split; try reflexivity.
  intros e s0. unfold Init, s. simpl.
  destruct (ristretto_NewCache _ _ _) as [e1|c]; [by intros [= <- <-]|].
  destruct (rueidis_NewClient 0) as [e2|r]; [by intros [= <- <-]|].
  destruct (rueidis_NewClient 1) as [e3|p]; [by intros [= <- <-]|].
  discriminate.
Qed.
End StrategyProperties.

Lemma Run_returns {S : Type} (env : Environment) (r : Runner S) s0 ce s2 :
  Init (methods r) (strategy r) = Ok (None, s0) ->
  0 <= concurrency r ->
  m_panic (end_machine env r s0) = None ->
  Close (methods r) (m_strategy (end_machine env r s0)) = Ok (ce, s2) ->
  exists res,
    Run env r = mkRunExec (Returned res None) (with_state r s2 res)
                          (m_history (end_machine env r s0)).
Proof.
  intros Hi Hc Hp Hcl. unfold end_machine, start_machine in *.
  unfold Run. rewrite Hi.
  destruct (concurrency r <? 0) eqn:Hc0; [lia|].
  cbv zeta. rewrite Hp, Hcl. eauto.
Qed.

Section RistrettoRun.
Import implementations.
Context {C R : Type} `{L1Cache C} `{RedisClient R} `{JSONCodec}.

Lemma Close_initialised (s : RistrettoPubSubStrategy C R) :
  initialised s ->
  exists s2, Close s = Ok (None, s2) /\ cancelBgTasks s2 = Some true.
Proof.
  intros ([r Hr] & [p Hp] & [c Hc]). unfold Close. rewrite Hr, Hp, Hc. eauto.
Qed.

(** X11: A run of the engine on the Ristretto + Pub/Sub strategy, with a
    concurrency and a value size that are not negative, always returns:
    with an error exactly when the cache or one of the two clients could
    not be created, and otherwise with the strategy closed and its
    background context cancelled. *)
Theorem ristretto_Run_returns (env : Environment) (maxCost : Z)
        (w : list Operation) (c size : Z) :
  0 <= c -> 0 <= size ->
  let fresh := NewRistrettoPubSubStrategy (C := C) (R := R) maxCost in
  let x := Run env (NewRunner methods fresh w c size) in
  exists res err,
    outcome x = Returned res err /\
    (err = None <-> exists s0, Init fresh = Ok (None, s0)) /\
    (err = None -> cancelBgTasks (strategy (runner_after x)) = Some true).
Proof.
  intros Hc Hsize fresh x. set (r := NewRunner methods fresh w c size) in *.
  destruct (Init fresh) as [[[e0|] s0]|msg] eqn:Hi.
  - exists (result r), (Some (Errorf_w "failed to initialize strategy: " e0)).
    unfold x. rewrite (Run_init_error env r e0 s0 Hi). simpl.
    split; [reflexivity|]. split; [|discriminate].
    split; [discriminate|]. intros (s1 & Hs1). discriminate.
  - assert (Hend : initialised (m_strategy (end_machine env r s0)) /\
                   m_panic (end_machine env r s0) = None).
    { unfold end_machine.
      apply (run_workers_safe _ _ _ initialised); auto.
      - apply methods_safe.
      - by apply (Init_initialised fresh). }
    destruct Hend as (Hinit & Hp).
    destruct (Close_initialised _ Hinit) as (s2 & Hcl & Hcancel).
    destruct (Run_returns env r s0 None s2 Hi Hc Hp Hcl) as (res & Hrun).
    exists res, None. unfold x. rewrite Hrun. simpl.
    split; [reflexivity|]. split; [|done]. split; eauto.
  - unfold Init in Hi.
    destruct (ristretto_NewCache _ _ _); [discriminate|].
    destruct (rueidis_NewClient 0); [discriminate|].
    destruct (rueidis_NewClient 1); discriminate.
Qed.
End RistrettoRun.

(* ===================================================================== *)
(** * More on the workload generators                                     *)
(* ===================================================================== *)

Lemma to_uint_nonnil (n : N) : N.to_uint n <> Decimal.Nil.
Proof.
  destruct n as [|p]; simpl; [discriminate|].
  apply DecimalPos.Unsigned.to_uint_nonnil.
Qed.

(** [%d] prints different numbers differently. *)
Lemma Sprintf_d_inj (a b : Z) :
  0 <= a -> 0 <= b -> Sprintf_d a = Sprintf_d b -> a = b.
Proof.
  unfold Sprintf_d. intros Ha Hb Heq.
  assert (Hu : Some (N.to_uint (Z.to_N a)) = Some (N.to_uint (Z.to_N b))).
  { rewrite <- (NilZero.usu _ (to_uint_nonnil (Z.to_N a))).
    rewrite <- (NilZero.usu _ (to_uint_nonnil (Z.to_N b))). by rewrite Heq. }
  injection Hu as Hu. apply DecimalN.Unsigned.to_uint_inj in Hu. lia.
Qed.

Section GeneratorProperties.
Context {G Zf : Type} `{RandSource G} `{ZipfSource Zf}.

Lemma GenerateUniform_loop_keys n numKeys ratio (g : G) :
  0 < numKeys ->
  (forall g0, 0 <= fst (rand_Intn g0 numKeys) < numKeys) ->
  Forall (fun op => exists i, 0 <= i < numKeys /\
                              Key op = ("key-" +:+ Sprintf_d i)%string)
         (GenerateUniform_loop n numKeys ratio g).
Proof.
  intros Hk Hr. revert g. induction n as [|n IH]; intros g; simpl; [constructor|].
  specialize (Hr g). destruct (rand_Intn g numKeys) as [k g1].
  destruct (rand_Float64 g1) as [d g2]. constructor; [|apply IH].
  simpl in *. eauto.
Qed.

Lemma Generate_loop_keys n imax ratio (z : Zf) (g : G) :
  (forall z0, 0 <= fst (zipf_Uint64 z0) <= imax) ->
  Forall (fun op => exists i, 0 <= i <= imax /\
                              Key op = ("key-" +:+ Sprintf_d i)%string)
         (Generate_loop n ratio z g).
Proof.
  intros Hr. revert z g. induction n as [|n IH]; intros z g; simpl; [constructor|].
  specialize (Hr z). destruct (zipf_Uint64 z) as [rank z'].
  destruct (rand_Float64 g) as [d g']. constructor; [|apply IH].
  simpl in *. eauto.
Qed.

Lemma generated_keys (numOps numKeys : Z) (ratio : float64)
      (z : Zf) (g : G) (ops : list Operation) :
  (forall g0, 0 < numKeys -> 0 <= fst (rand_Intn g0 numKeys) < numKeys) ->
  (forall z0, 0 <= fst (zipf_Uint64 z0) <= numKeys - 1) ->
  Generate numOps numKeys ratio (Some z) g = Ok ops \/
  GenerateUniform numOps numKeys ratio g = Ok ops ->
  Forall (fun op => exists i, 0 <= i < numKeys /\
                              Key op = ("key-" +:+ Sprintf_d i)%string) ops.
Proof.
  intros Hintn Hzipf [Hg|Hg].
  - unfold Generate in Hg. destruct (numOps <? 0); [discriminate|].
    injection Hg as <-.
    eapply Forall_impl; [apply (Generate_loop_keys _ (numKeys - 1)); exact Hzipf|].
    intros op (i & Hi & Hk). exists i. split; [lia|exact Hk].
  - unfold GenerateUniform in Hg. destruct (numOps <? 0); [discriminate|].
    destruct (0 <? numOps) eqn:Hn; simpl in Hg.
    + destruct (numKeys <=? 0) eqn:Hk; [discriminate|]. injection Hg as <-.
      apply GenerateUniform_loop_keys; [lia|]. intros g0. apply Hintn. lia.
    + injection Hg as <-.
      replace (Z.to_nat numOps) with 0%nat by lia. constructor.
Qed.

(** X12: When [Intn numKeys] stays in [[0, numKeys)] and the Zipf generator
    in [[0, numKeys - 1]], as their libraries promise, every key of a
    generated workload is ["key-i"] for one [i] in [[0, numKeys)], and
    that [i] is unique. *)
Theorem generated_keys_in_range (numOps numKeys : Z) (ratio : float64)
        (z : Zf) (g : G) (ops : list Operation) :
  (forall g0, 0 < numKeys -> 0 <= fst (rand_Intn g0 numKeys) < numKeys) ->
  (forall z0, 0 <= fst (zipf_Uint64 z0) <= numKeys - 1) ->
  Generate numOps numKeys ratio (Some z) g = Ok ops \/
  GenerateUniform numOps numKeys ratio g = Ok ops ->
  Forall (fun op => exists i, 0 <= i < numKeys /\
                              Key op = ("key-" +:+ Sprintf_d i)%string /\
                              forall j, 0 <= j ->
                                Key op = ("key-" +:+ Sprintf_d j)%string -> j = i)
         ops.
Proof.
  intros Hintn Hzipf Hgen.
  eapply Forall_impl; [exact (generated_keys _ _ _ _ _ _ Hintn Hzipf Hgen)|].
  intros op (i & Hi & Hk).
  exists i. split; [exact Hi|]. split; [exact Hk|].
  intros j Hj Hkj. rewrite Hk in Hkj. simpl in Hkj.
  injection Hkj as Hkj. symmetry. apply Sprintf_d_inj; [lia|lia|done].
Qed.

(** X13: [Generate] returns a workload unless the number of operations is
    negative, or is positive while the Zipf generator is nil;
    [GenerateUniform] unless the number of operations is negative, or is
    positive while there is no key to draw.  In those cases they
    panic.  A request for zero operations gives the empty workload. *)
Theorem generators_return_iff (numOps numKeys : Z) (ratio : float64)
        (zipf : option Zf) (g : G) :
  ((exists ops, Generate numOps numKeys ratio zipf g = Ok ops) <->
   0 <= numOps /\ (numOps = 0 \/ zipf <> None)) /\
  ((exists ops, GenerateUniform numOps numKeys ratio g = Ok ops) <->
   0 <= numOps /\ (numOps = 0 \/ 0 < numKeys)) /\
  (numOps = 0 -> Generate numOps numKeys ratio zipf g = Ok [] /\
                 GenerateUniform numOps numKeys ratio g = Ok []).
Proof.
  unfold Generate, GenerateUniform. split; [|split].
  - destruct (numOps <? 0) eqn:Hn.
    + split; [intros (ops & Ho); discriminate|]. lia.
    + destruct zipf as [z|].
      * split; [intros _; split; [lia|]; right; discriminate|eauto].
      * destruct (numOps =? 0) eqn:Hz.
        -- split; [intros _; lia|eauto].
        -- split; [intros (ops & Ho); discriminate|].
           intros (_ & [Hz0|Hne]); [lia|done].
  - destruct (numOps <? 0) eqn:Hn.
    + split; [intros (ops & Ho); discriminate|]. lia.
    + destruct (0 <? numOps) eqn:Hp; destruct (numKeys <=? 0) eqn:Hk; simpl.
      * split; [intros (ops & Ho); discriminate|]. lia.
      * split; [intros _; lia|eauto].
      * split; [intros _; lia|eauto].
      * split; [intros _; lia|eauto].
  - intros ->. simpl. split; [|reflexivity]. by destruct zipf.
Qed.
End GeneratorProperties.

(* ===================================================================== *)
(** * More on the final comparison                                        *)
(* ===================================================================== *)

Lemma wrap64_add_l (a b : Z) : wrap64 (wrap64 a + b) = wrap64 (a + b).
Proof.
  unfold wrap64. f_equal.
  replace ((a + 2 ^ 63) mod 2 ^ 64 - 2 ^ 63 + b + 2 ^ 63)
    with ((a + 2 ^ 63) mod 2 ^ 64 + b) by lia.
  rewrite Z.add_mod_idemp_l by lia. f_equal. lia.
Qed.

(** The running total of the latencies, with its wrap-around, is the
    wrapped sum. *)
Lemma fold_add64 (l : list Z) (acc : Z) :
  fold_left add64 l (wrap64 acc) = wrap64 (acc + sumZ id l).
Proof.
  revert acc. induction l as [|x l IH]; intros acc; simpl.
  - f_equal. lia.
  - unfold add64 at 2. rewrite wrap64_add_l, IH. f_equal. unfold id. lia.
Qed.

Lemma sumZ_Permutation (l k : list Z) : l ≡ₚ k -> sumZ id l = sumZ id k.
Proof. induction 1; simpl; lia. Qed.

Lemma sumZ_bounds (l : list Z) lo hi :
  Forall (fun x => lo <= x <= hi) l ->
  lo * Z.of_nat (length l) <= sumZ id l <= hi * Z.of_nat (length l).
Proof.
  induction 1 as [|x l Hx _ IH]; simpl length; simpl sumZ; unfold id in *; lia.
Qed.

Lemma p95Latency_returns (lats : list Duration) :
  Z.of_nat (length lats) < 2 ^ 48 ->
  exists d, main.p95Latency lats = Ok d /\
            (20 < Z.of_nat (length lats) ->
             main.sort_Latencies lats
               !! Z.to_nat (19 * Z.of_nat (length lats) / 20) = Some d).
Proof.
  intros Hn. unfold main.p95Latency. rewrite sort_Latencies_length.
  set (n := Z.of_nat (length lats)) in *. unfold main.p95_threshold.
  destruct (20 <? n) eqn:Hgt.
  - apply Z.ltb_lt in Hgt. rewrite p95Index_spec by lia.
    assert (Hi : 0 <= 19 * n / 20 < n).
    { split; [apply Z.div_pos; lia | apply Z.div_lt_upper_bound; lia]. }
    replace (19 * n / 20 <? 0) with false by (symmetry; apply Z.ltb_ge; lia).
    destruct (lookup_lt_is_Some_2 (main.sort_Latencies lats) (Z.to_nat (19 * n / 20)))
      as [d Hd]; [rewrite sort_Latencies_length; lia|].
    rewrite Hd. eauto.
  - apply Z.ltb_ge in Hgt. exists 0. split; [done|lia].
Qed.

(** X14: The average latency of a row is the sum of the latencies, wrapped
    to 64 bits, divided by their number: the order of the samples does
    not matter.  When the samples are not negative and their sum fits
    in an [int64], it lies between the smallest and the largest
    sample. *)
Theorem comparisonRow_average (r : Result) (row : main.Row) :
  main.comparisonRow r = Ok row ->
  let lats := Latencies r in
  let n := Z.of_nat (length lats) in
  0 < n /\
  main.row_avgLatency row = Z.quot (wrap64 (sumZ id lats)) n /\
  (forall lo hi, 0 <= lo -> Forall (fun l => lo <= l <= hi) lats ->
                 sumZ id lats <= MaxInt64 ->
                 lo <= main.row_avgLatency row <= hi).
Proof.
  intros Hrow lats n. unfold main.comparisonRow in Hrow. fold lats n in Hrow.
  destruct (main.p95Latency lats) as [p95|msg]; [|discriminate].
  destruct (n =? 0) eqn:Hn0; [discriminate|]. apply Z.eqb_neq in Hn0.
  injection Hrow as <-. simpl.
  assert (Hn : 0 < n) by (unfold n in *; lia).
  assert (Havg : Z.quot (fold_left add64 (main.sort_Latencies lats) 0) n
                 = Z.quot (wrap64 (sumZ id lats)) n).
  { change 0 with (wrap64 0) at 1. rewrite fold_add64. simpl.
    f_equal. f_equal. apply sumZ_Permutation. apply merge_sort_Permutation. }
  split; [exact Hn|]. split; [exact Havg|].
  intros lo hi Hlo Hall Hfit. rewrite Havg.
  pose proof (sumZ_bounds lats lo hi Hall) as Hb.
  change (Z.of_nat (length lats)) with n in Hb.
  assert (H0 : 0 <= sumZ id lats).
  { pose proof (Z.mul_nonneg_nonneg lo n Hlo ltac:(lia)). lia. }
  rewrite wrap64_small by (unfold MaxInt64 in *; lia).
  rewrite Z.quot_div_nonneg by lia. split.
  - apply Z.div_le_lower_bound; lia.
  - apply Z.div_le_upper_bound; lia.
Qed.

Lemma length_filter_all {A : Type} (P : A -> Prop) `{forall x, Decision (P x)}
      (l : list A) :
  Forall P l -> length (filter P l) = length l.
Proof.
  induction 1 as [|x l Hx _ IH]; [done|].
  rewrite filter_cons_True by done. simpl. by rewrite IH.
Qed.

(** X15: With more than 20 samples the 95th percentile of a row is one of
    the samples; at least [floor (0.95 n) + 1] of the [n] samples are
    not above it and at least [n - floor (0.95 n)] are not below it. *)
Theorem p95_dominates (lats : list Duration) :
  let n := Z.of_nat (length lats) in
  20 < n < 2 ^ 48 ->
  exists d,
    main.p95Latency lats = Ok d /\ d ∈ lats /\
    19 * n / 20 + 1 <= Z.of_nat (length (filter (fun x => x <= d) lats)) /\
    n - 19 * n / 20 <= Z.of_nat (length (filter (fun x => d <= x) lats)).
Proof.
  intros n Hn. destruct (p95Latency_returns lats ltac:(unfold n in Hn; lia))
    as (d & Hp & Hd).
  specialize (Hd ltac:(unfold n in Hn; lia)). fold n in Hd.
  exists d. split; [exact Hp|].
  set (sorted := main.sort_Latencies lats) in *.
  set (i := Z.to_nat (19 * n / 20)) in *.
  assert (Hperm : sorted ≡ₚ lats) by apply merge_sort_Permutation.
  assert (Hi : 0 <= 19 * n / 20 < n).
  { split; [apply Z.div_pos; lia | apply Z.div_lt_upper_bound; lia]. }
  assert (Hsplit : sorted = take i sorted ++ d :: drop (S i) sorted).
  { symmetry. by apply take_drop_middle. }
  assert (Hss : StronglySorted Z.le sorted).
  { apply StronglySorted_merge_sort; apply _. }
  rewrite Hsplit in Hss.
  assert (Hlen : length sorted = length lats) by (by rewrite Hperm).
  assert (Htake : length (take i sorted) = i).
  { rewrite length_take. unfold i, n in *. lia. }
  assert (Hdrop : (length (drop (S i) sorted) + S i = length lats)%nat).
  { rewrite length_drop. unfold i, n in *. lia. }
  assert (Hbelow : Forall (fun x => x <= d) (take i sorted ++ [d])).
  { apply Forall_app. split; [|constructor; [lia|constructor]].
    apply Forall_forall. intros x Hx.
    apply (StronglySorted_app_1_elem_of Z.le _ _ x d Hss Hx). left. }
  assert (Habove : Forall (fun x => d <= x) (d :: drop (S i) sorted)).
  { constructor; [lia|]. apply StronglySorted_app_1_r in Hss.
    by apply StronglySorted_cons in Hss as [Hall _]. }
  assert (Hzi : Z.of_nat i = 19 * n / 20) by (unfold i; lia).
  assert (Hzn : n = Z.of_nat (length lats)) by reflexivity.
  split; [rewrite <- Hperm, Hsplit; apply elem_of_app; right; left|].
  split.
  - rewrite <- Hperm, Hsplit.
    replace (take i sorted ++ d :: drop (S i) sorted)
      with ((take i sorted ++ [d]) ++ drop (S i) sorted) by (by rewrite <- app_assoc).
    rewrite filter_app, length_app, (length_filter_all _ _ Hbelow), length_app, Htake.
    simpl length. lia.
  - rewrite <- Hperm, Hsplit.
    rewrite filter_app, length_app, (length_filter_all _ _ Habove).
    simpl length. unfold Duration in *. lia.
Qed.

(** X16: The rows of the final comparison, for results of fewer than
    [2 ^ 48] samples each: one row per result, in their order, when
    every result has at least one latency; as soon as one result has
    none, the average divides by zero and the comparison panics. *)
Theorem comparisonRows_panics_iff (rs : list Result) :
  Forall (fun r => Z.of_nat (length (Latencies r)) < 2 ^ 48) rs ->
  (Forall (fun r => Latencies r <> []) rs ->
   exists rows, main.comparisonRows rs = Ok rows /\
                map main.row_StrategyName rows = map StrategyName rs) /\
  (Exists (fun r => Latencies r = []) rs ->
   main.comparisonRows rs = Panic "integer divide by zero").
Proof.
  intros Hsize.
  assert (Hrow : forall r, Z.of_nat (length (Latencies r)) < 2 ^ 48 ->
            (Latencies r <> [] ->
             exists row, main.comparisonRow r = Ok row /\
                         main.row_StrategyName row = StrategyName r) /\
            (Latencies r = [] ->
             main.comparisonRow r = Panic "integer divide by zero")).
  { intros r Hr. unfold main.comparisonRow.
    destruct (p95Latency_returns _ Hr) as (d & -> & _). split.
    - intros Hne. destruct (Latencies r) as [|l ls]; [done|]. simpl. eauto.
    - intros ->. reflexivity. }
  induction Hsize as [|r rs Hr _ IH]; simpl.
  - split; [eauto|]. intros Hex. inversion Hex.
  - destruct (Hrow r Hr) as (Hok & Hbad). destruct IH as (IHok & IHbad). split.
    + intros Hall. apply Forall_cons in Hall as [Hne Hall].
      destruct (Hok Hne) as (row & -> & Hname).
      destruct (IHok Hall) as (rows & -> & Hnames).
      eexists. split; [reflexivity|]. simpl. by rewrite Hname, Hnames.
    + intros Hex. destruct (decide (Latencies r = [])) as [He|Hne].
      * by rewrite (Hbad He).
      * destruct (Hok Hne) as (row & -> & _).
        apply Exists_cons in Hex as [He|Hex]; [done|]. by rewrite (IHbad Hex).
Qed.

(** X17: A run that returns without error after an empty workload, or with a
    concurrency of zero, has recorded no latency, and the final
    comparison panics on its result: the average divides by zero. *)
Theorem Run_without_samples_breaks_comparison {S : Type}
        (impl : CachingStrategy S) (env : Environment) (s : S)
        (w : list Operation) (c size : Z) (res : Result) :
  w = [] \/ c = 0 ->
  outcome (Run env (NewRunner impl s w c size)) = Returned res None ->
  Latencies res = [] /\
  main.comparisonRow res = Panic "integer divide by zero".
Proof.
  intros Hcase Hout. set (r := NewRunner impl s w c size) in *.
  destruct (Run_inversion env _ _ _ Hout)
    as [(e & s0 & _ & He & _)|(s0 & s2 & ce & Hinit & _ & Hp & Hcl & _ & Hcalls & Hres)];
    [discriminate|].
  assert (Hnone : m_latencies (end_machine env r s0) = []).
  { destruct Hcase as [->| ->].
    - destruct (end_machine_spec env r s0) as (_ & _ & _ & _ & Hlat & _ & Hops & _);
        try reflexivity; [simpl; unfold MaxInt64; lia|exact Hp|].
      simpl in Hops. apply length_zero_iff_nil. lia.
    - unfold end_machine. by rewrite run_workers_no_worker. }
  destruct (end_machine_frame env r s0) as (_ & _ & _ & _ & _ & Hl0).
  simpl in Hl0.
  match type of Hres with _ = calculateFinalMetrics ?x =>
    destruct (calculateFinalMetrics_frame x) as (_ & _ & Hl) end.
  rewrite <- Hres in Hl. simpl in Hl. rewrite Hl0, Hnone in Hl. simpl in Hl.
  split; [exact Hl|]. unfold main.comparisonRow. rewrite Hl. reflexivity.
Qed.

(* ===================================================================== *)
(** * The Rueidis client-side caching strategy                            *)
(* ===================================================================== *)

Section CSCRun.
Context {R : Type} `{csc.CachingClient R}.

Lemma csc_methods_safe :
  strategy_safe (csc.methods (R := R)) (fun s => is_Some (csc.client s)).
Proof.
  intros s [c Hc]. split; [|split]; simpl.
  - intros k. unfold csc.Read. rewrite Hc.
    destruct (csc.csc_DoCache c k _) as [[resp hit] c1].
    destruct (implementations.RedisResult_Error resp);
      [|destruct (implementations.RedisResult_ToString resp)];
      eexists _, _; (split; [reflexivity|]); simpl; eauto.
  - intros k v. unfold csc.Write. rewrite Hc.
    destruct (csc.csc_Do c _) as [resp c1]. eexists _, _. split; [reflexivity|].
    simpl. eauto.
  - unfold csc.Close. rewrite Hc. eauto.
Qed.

(** X18: A run of the engine on the client-side caching strategy, with a
    concurrency and a value size that are not negative, always returns:
    with the wrapped error of [NewClient] when the client could not be
    created, and no call made; otherwise without error, with the client
    closed, and with every operation passed to the strategy once when
    there is at least one worker. *)
Theorem csc_Run_returns (env : Environment) (limit : Z)
        (w : list Operation) (c size : Z) :
  0 <= c -> 0 <= size ->
  let fresh := csc.NewRueidisCSCStrategy (R := R) limit in
  let x := Run env (NewRunner csc.methods fresh w c size) in
  match csc.csc_NewClient limit with
  | inl e =>
      exists res,
        outcome x = Returned res
                      (Some (Errorf_w "failed to initialize strategy: " e)) /\
        calls x = [] /\ csc.client (strategy (runner_after x)) = None
  | inr _ =>
      exists res c',
        outcome x = Returned res None /\
        csc.client (strategy (runner_after x)) = Some (csc.csc_Close c') /\
        (0 < c -> map ev_op (calls x) ≡ₚ w)
  end.
Proof.
  intros Hc Hsize fresh x. set (r := NewRunner csc.methods fresh w c size) in *.
  destruct (csc.csc_NewClient limit) as [e|c0] eqn:Hnew.
  - assert (Hi : Init (methods r) (strategy r)
                 = Ok (Some e, csc.mkCSC None limit)).
    { simpl. unfold csc.Init. simpl. by rewrite Hnew. }
    exists (result r). unfold x. rewrite (Run_init_error env r _ _ Hi). auto.
  - assert (Hi : Init (methods r) (strategy r)
                 = Ok (None, csc.mkCSC (Some c0) limit)).
    { simpl. unfold csc.Init. simpl. by rewrite Hnew. }
    set (s0 := csc.mkCSC (Some c0) limit) in *.
    assert (Hend : is_Some (csc.client (m_strategy (end_machine env r s0))) /\
                   m_panic (end_machine env r s0) = None).
    { unfold end_machine.
      apply (run_workers_safe _ _ _ (fun s => is_Some (csc.client s)));
        [apply csc_methods_safe | exact Hsize | simpl; eauto | reflexivity]. }
    destruct Hend as ([c1 Hc1] & Hp).
    assert (Hcl : Close (methods r) (m_strategy (end_machine env r s0))
                  = Ok (None, csc.mkCSC (Some (csc.csc_Close c1))
                                 (csc.keyCountLimit (m_strategy (end_machine env r s0))))).
    { simpl. unfold csc.Close. by rewrite Hc1. }
    destruct (Run_returns env r s0 None _ Hi Hc Hp Hcl) as (res & Hrun).
    exists res, c1. unfold x. rewrite Hrun. simpl.
    split; [reflexivity|]. split; [reflexivity|].
    intros Hpos.
    destruct (end_machine_drained env r s0 Hpos Hp) as (Hops & Hdone).
    pose proof (run_workers_conserved (methods r) env (valueSizeBytes r) w
                  (steps_bound (start_machine r s0)) (start_machine r s0)
                  (start_machine_conserved r s0)) as Hcons.
    fold (end_machine env r s0) in Hcons. unfold conserved in Hcons.
    by rewrite Hops, (done_holds_nothing _ Hdone), !app_nil_r in Hcons.
Qed.
End CSCRun.

(* ===================================================================== *)
(** * Preparing the datastore                                             *)
(* ===================================================================== *)

Section Prepare.
Import implementations prepare.

Lemma prepare_commands_spec (numKeys : Z) (value : string) :
  length (prepare_commands numKeys value) = Z.to_nat numKeys /\
  NoDup (prepare_commands numKeys value) /\
  (forall cmd, cmd ∈ prepare_commands numKeys value <->
               exists i, 0 <= i < numKeys /\
                         cmd = CmdSet ("key-" +:+ Sprintf_d i) value).
Proof.
  unfold prepare_commands. split; [by rewrite length_map, length_seq|]. split.
  - apply NoDup_fmap_2_strong; [|apply NoDup_seq].
    intros i j _ _ Heq. injection Heq as Heq.
    apply Sprintf_d_inj in Heq; lia.
  - intros cmd. rewrite list_elem_of_fmap. split.
    + intros (i & -> & Hi). apply elem_of_seq in Hi.
      exists (Z.of_nat i). split; [lia|done].
    + intros (i & Hi & ->). exists (Z.to_nat i). split.
      * by rewrite Z2Nat.id by lia.
      * apply elem_of_seq. lia.
Qed.

(** X19: The batch of [prepareData] holds one [SET] per key index below
    [numKeys], all with the same value and no key twice; every key a
    generated workload can contain, for the same [numKeys] and sources
    that stay in range, is among them. *)
Theorem prepared_keys_cover_workload {G Zf : Type} `{RandSource G}
        `{ZipfSource Zf} (numOps numKeys : Z) (ratio : float64) (z : Zf)
        (g : G) (ops : list Operation) (value : string) :
  (forall g0, 0 < numKeys -> 0 <= fst (rand_Intn g0 numKeys) < numKeys) ->
  (forall z0, 0 <= fst (zipf_Uint64 z0) <= numKeys - 1) ->
  Generate numOps numKeys ratio (Some z) g = Ok ops \/
  GenerateUniform numOps numKeys ratio g = Ok ops ->
  let cmds := prepare_commands numKeys value in
  length cmds = Z.to_nat numKeys /\ NoDup cmds /\
  Forall (fun op => CmdSet (Key op) value ∈ cmds) ops.
Proof.
  intros Hintn Hzipf Hgen cmds.
  destruct (prepare_commands_spec numKeys value) as (Hlen & Hnd & Hin).
  split; [exact Hlen|]. split; [exact Hnd|].
  eapply Forall_impl; [exact (generated_keys _ _ _ _ _ _ Hintn Hzipf Hgen)|].
  intros op (i & Hi & Hk). apply Hin. exists i. by rewrite Hk.
Qed.

Section PrepareData.
Context {R : Type} `{BatchClient R}.

(** X20: [prepareData] sends the batch only after a successful [FLUSHALL];
    when it returns nil the batch sent is the whole batch, built from
    one generated value; a flush error is returned wrapped and a
    connection error as it is; and whenever a client was created it is
    closed at the end, also when the call panics. *)
Theorem prepareData_discipline (src : nat -> byte) (numKeys size : Z) :
  let x := prepareData (R := R) src numKeys size in
  (prep_result x = Ok None ->
   exists value, benchmark.generateValue src size = Ok value /\
                 prep_sent x = prepare_commands numKeys value) /\
  (prep_sent x <> [] ->
   exists c0 reply c1, batch_NewClient = inr c0 /\
                       batch_Flushall c0 = (RedisReply reply, c1)) /\
  (forall e, batch_NewClient = inl e ->
             prep_result x = Ok (Some e) /\ prep_client x = None) /\
  (forall c0 e c1, batch_NewClient = inr c0 ->
                   batch_Flushall c0 = (RedisError e, c1) ->
                   prep_result x
                   = Ok (Some (Errorf_w "failed to flush datastore: " e))) /\
  (forall c0, batch_NewClient = inr c0 ->
              exists c', prep_client x = Some (batch_Close c')).
Proof.
  intros x. unfold x, prepareData.
  destruct batch_NewClient as [e0|c0];
    [|destruct (batch_Flushall c0) as [[reply|e] c1] eqn:Hf; simpl;
      [destruct (numKeys <? 0);
       [|destruct (benchmark.generateValue src size) as [value|msg];
         [destruct (batch_DoMulti c1 _) as [resps c2]|]]|]];
    simpl; repeat match goal with |- _ /\ _ => split end; intros;
    repeat match goal with
           | Heq : inl _ = inl _ |- _ => injection Heq as <-
           | Heq : inr _ = inr _ |- _ => injection Heq as <-
           end;
    try discriminate; try congruence; eauto 10.
Qed.
End PrepareData.

Lemma MapRedis_DoMulti_sets {A : Type} (f : A -> string) (value : string)
      (l : list A) (store : gmap string string) (published : list (string * string)) :
  exists store',
    clients.MapRedis_DoMulti (instances.mkMapRedis store published true)
                             (map (fun i => CmdSet (f i) value) l)
    = (map (fun _ => RedisReply "OK") l,
       instances.mkMapRedis store' published true) /\
    forall k, store' !! k = if decide (k ∈ map f l) then Some value else store !! k.
Proof.
  revert store. induction l as [|i l IH]; intros store; simpl.
  - exists store. split; [reflexivity|]. intros k.
    destruct (decide (k ∈ [])) as [Hin|_]; [by apply elem_of_nil in Hin|done].
  - destruct (IH (<[f i := value]> store)) as (store' & -> & Hlook).
    exists store'. split; [reflexivity|]. intros k. rewrite Hlook.
    destruct (decide (k ∈ map f l)) as [Hin|Hnin].
    + rewrite decide_True by (right; exact Hin). reflexivity.
    + destruct (decide (k = f i)) as [->|Hne].
      * rewrite decide_True by left. by rewrite lookup_insert_eq.
      * rewrite lookup_insert_ne by done.
        rewrite decide_False; [done|]. intros Hin. apply elem_of_cons in Hin.
        destruct Hin; done.
Qed.

Lemma first_error_replies {A : Type} (l : list A) :
  first_error (map (fun _ => RedisReply "OK") l) = None.
Proof. induction l; simpl; auto. Qed.

(** X21: On a key-value server that can be reached, [prepareData] with a
    key count and a value size that are not negative returns nil and
    leaves the server holding exactly the keys ["key-0"] to
    ["key-(numKeys - 1)"], each bound to the one generated value,
    whatever the server held before; the client is closed. *)
Theorem prepareData_fills_store (server : gmap string string)
        (src : nat -> byte) (numKeys size : Z) :
  0 <= numKeys -> 0 <= size ->
  let x := prepareData (H := clients.MapRedis_batch server true)
                       src numKeys size in
  exists value c,
    benchmark.generateValue src size = Ok value /\
    prep_result x = Ok None /\ prep_client x = Some c /\
    instances.mr_connected c = false /\
    forall k v, instances.mr_store c !! k = Some v <->
                v = value /\
                exists i, 0 <= i < numKeys /\ k = ("key-" +:+ Sprintf_d i)%string.
Proof.
  intros Hn Hs x. unfold x, prepareData. simpl.
  replace (numKeys <? 0) with false by (symmetry; apply Z.ltb_ge; lia).
  unfold benchmark.generateValue.
  replace (size <? 0) with false by (symmetry; apply Z.ltb_ge; lia).
  set (value := Sprintf_x _). unfold prepare_commands.
  destruct (MapRedis_DoMulti_sets
              (fun i => ("key-" +:+ Sprintf_d (Z.of_nat i))%string) value
              (seq 0 (Z.to_nat numKeys)) ∅ [])
    as (store' & -> & Hlook).
  exists value. eexists. split; [reflexivity|]. simpl.
  rewrite first_error_replies. split; [reflexivity|]. split; [reflexivity|].
  split; [reflexivity|]. intros k v. rewrite Hlook.
  destruct (decide (k ∈ _)) as [Hin|Hnin].
  - apply list_elem_of_fmap in Hin as (i & -> & Hi). apply elem_of_seq in Hi. split.
    + intros [= <-]. split; [done|]. exists (Z.of_nat i). split; [lia|done].
    + intros (-> & _). reflexivity.
  - rewrite lookup_empty. split; [discriminate|].
    intros (_ & i & Hi & ->). exfalso. apply Hnin. apply list_elem_of_fmap.
    exists (Z.to_nat i). split; [by rewrite Z2Nat.id by lia|].
    apply elem_of_seq. lia.
Qed.
End Prepare.

(* ===================================================================== *)
(** * Counters against the workload, commands against the counters        *)
(* ===================================================================== *)

Lemma sumZ_perm {A : Type} (f : A -> Z) (l k : list A) :
  l ≡ₚ k -> sumZ f l = sumZ f k.
Proof. induction 1; simpl; lia. Qed.

Lemma sumZ_map {A B : Type} (g : A -> B) (f : B -> Z) (l : list A) :
  sumZ f (map g l) = sumZ (fun x => f (g x)) l.
Proof. induction l as [|x l IH]; simpl; [done|]. by rewrite IH. Qed.

Lemma reads_writes (w : list Operation) :
  reads w + writes w = Z.of_nat (length w).
Proof.
  unfold reads, writes, is_write. induction w as [|op w IH]; simpl; [done|].
  destruct (is_read op); simpl; lia.
Qed.

(** The calls of a history by kind of operation and by outcome. *)
Lemma history_by_type (h : list call_event) :
  exists re we,
    0 <= re /\ 0 <= we /\ re + we = count counted_error h /\
    count counted_hit h + count counted_miss h + re = reads (map ev_op h) /\
    count counted_write h + we = writes (map ev_op h).
Proof.
  unfold reads, writes, count. rewrite !sumZ_map.
  induction h as [|e h (re & we & Hre & Hwe & Herr & Hr & Hw)]; simpl.
  - exists 0, 0. lia.
  - unfold counted_hit, counted_miss, counted_write, counted_error, read_ok,
      is_write, is_read in *.
    destruct (Type_ (ev_op e)), (ev_err e), (ev_hit e); simpl;
      first [ exists (re + 1), we; lia | exists re, (we + 1); lia | exists re, we; lia ].
Qed.

(** X22: In a run that returns without error, with at least one worker,
    the hits, the misses and the reads that failed add up to the reads
    of the workload, and the successful writes and the writes that
    failed to its writes; the failed reads and writes together are
    [TotalErrors]. *)
Theorem Run_counts_by_type {S : Type} (impl : CachingStrategy S)
        (env : Environment) (s : S) (w : list Operation) (c size : Z)
        (res : Result) :
  0 < c -> Z.of_nat (length w) <= MaxInt64 ->
  outcome (Run env (NewRunner impl s w c size)) = Returned res None ->
  exists failed_reads failed_writes,
    0 <= failed_reads /\ 0 <= failed_writes /\
    failed_reads + failed_writes = TotalErrors res /\
    TotalHits res + TotalMisses res + failed_reads = reads w /\
    TotalWrites res + failed_writes = writes w.
Proof.
  intros Hc Hlen Hout. set (r := NewRunner impl s w c size) in *.
  destruct (Run_inversion env _ _ _ Hout)
    as [(e & s0 & _ & He & _)|(s0 & s2 & ce & Hinit & _ & Hp & Hcl & _ & Hcalls & Hres)];
    [discriminate|].
  destruct (end_machine_spec env r s0 Hlen eq_refl eq_refl eq_refl eq_refl Hp)
    as (Hh & Hm & Hw & Her & _).
  match type of Hres with _ = calculateFinalMetrics ?x =>
    destruct (calculateFinalMetrics_counters x) as (C1 & C2 & C3 & C4 & _) end.
  rewrite <- Hres in C1, C2, C3, C4. simpl in C1, C2, C3, C4.
  destruct (end_machine_drained env r s0 Hc Hp) as (Hops & Hdone).
  pose proof (run_workers_conserved (methods r) env (valueSizeBytes r) w
                (steps_bound (start_machine r s0)) (start_machine r s0)
                (start_machine_conserved r s0)) as Hcons.
  fold (end_machine env r s0) in Hcons. unfold conserved in Hcons.
  rewrite Hops, (done_holds_nothing _ Hdone), !app_nil_r in Hcons.
  destruct (history_by_type (m_history (end_machine env r s0)))
    as (re & we & Hre & Hwe & Herr & Hr & Hwr).
  unfold reads, writes in *.
  rewrite (sumZ_perm _ _ _ Hcons) in Hr. rewrite (sumZ_perm _ _ _ Hcons) in Hwr.
  exists re, we. rewrite C1, C2, C3, C4, Hh, Hm, Hw, Her. auto.
Qed.

Section Traffic.
Import implementations.
Context {C R : Type} `{L1Cache C} `{RedisClient R} `{JSONCodec}.

Lemma sent_app p (tr1 tr2 : list effect) :
  sent p (tr1 ++ tr2) = sent p tr1 + sent p tr2.
Proof. apply sumZ_app. Qed.

(** What a read adds to the commands sent. *)
Lemma Read_traffic (s s' : RistrettoPubSubStrategy C R) key value hit err :
  Read s key = Ok ((value, hit, err), s') ->
  sent is_get (trace s') = sent is_get (trace s) + Z.b2z (negb hit) /\
  sent is_set (trace s') = sent is_set (trace s) /\
  sent is_publish (trace s') = sent is_publish (trace s) /\
  (hit = true -> err = None).
Proof.
  unfold Read. destruct (l1_Get (l1Cache s) key) as [[val|] c1].
  - intros [= <- <- <- <-]. unfold sent. simpl. rewrite !sumZ_app. simpl.
    repeat split; auto; lia.
  - destruct (redisClient s) as [r|]; [|discriminate].
    destruct (redis_Do r (CmdGet key)) as [res r1].
    destruct (RedisResult_ToString res) as [v [e|]];
      intros [= <- <- <- <-]; unfold sent; simpl; rewrite !sumZ_app; simpl;
      repeat split; try lia; discriminate.
Qed.

(** What a write adds to the commands sent. *)
Lemma Write_traffic (s s' : RistrettoPubSubStrategy C R) key value err :
  Write s key value = Ok (err, s') ->
  sent is_get (trace s') = sent is_get (trace s) /\
  sent is_set (trace s') = sent is_set (trace s) + 1 /\
  exists p, sent is_publish (trace s') = sent is_publish (trace s) + p /\
            0 <= p <= 1 /\ (err = None -> p = 1).
Proof.
  unfold Write. destruct (redisClient s) as [r|]; [|discriminate].
  destruct (redis_Do r (CmdSet key value)) as [res r1].
  destruct (RedisResult_Error res) as [e|].
  - intros [= <- <-]. unfold sent. simpl. rewrite !sumZ_app. simpl.
    split; [lia|]. split; [lia|]. exists 0. split; [lia|]. split; [lia|discriminate].
  - destruct (redis_Do r1 _) as [res2 r2]. intros [= <- <-]. unfold sent. simpl.
    rewrite !sumZ_app. simpl.
    split; [lia|]. split; [lia|]. exists 1. split; [lia|]. split; [lia|done].
Qed.

Lemma worker_step_accounted (env : Environment) size i w
      (m : machine (RistrettoPubSubStrategy C R)) :
  accounted m -> accounted (worker_step methods env size i w m).
Proof.
  intros (Hg & Hs & Hp & Hh).
  assert (Hkeep : forall ws t ops lats res p,
            accounted (mkMachine (m_strategy m) ops lats res ws t p (m_history m))).
  { intros. unfold accounted. simpl. auto. }
  destruct w as [|v|v op|v op start hit err|v start err|v err|];
    unfold worker_step; simpl; try apply Hkeep.
  - destruct (generateValue _ _); simpl; apply Hkeep.
  - destruct (m_ops m); simpl; apply Hkeep.
  - destruct (Type_ op) eqn:Hty.
    + assert (Hrd : is_read op = true) by (unfold is_read; by rewrite Hty).
      assert (Hwr : is_write op = false) by (unfold is_write; by rewrite Hrd).
      destruct (Read (m_strategy m) (Key op)) as [[[[val hit] err] s']|msg] eqn:Hr;
        simpl; [|apply Hkeep].
      destruct (Read_traffic _ _ _ _ _ _ Hr) as (Tg & Ts & Tp & Thit).
      assert (Hcw : counted_write (mkCall i op None hit err) = false).
      { unfold counted_write. simpl. by rewrite Hty. }
      unfold accounted. simpl. rewrite !count_app. unfold count at 2 4 6 8.
      simpl. rewrite Hcw, Hrd, Hwr, Tg, Ts, Tp. simpl.
      split; [lia|]. split; [lia|]. split; [lia|].
      apply Forall_app. split; [exact Hh|]. constructor; [|constructor].
      simpl. intros Hhit. split; [by apply Thit|exact Hrd].
    + assert (Hrd : is_read op = false) by (unfold is_read; by rewrite Hty).
      assert (Hwr : is_write op = true) by (unfold is_write; by rewrite Hrd).
      destruct (Write (m_strategy m) (Key op) v) as [[err s']|msg] eqn:Hw;
        simpl; [|apply Hkeep].
      destruct (Write_traffic _ _ _ _ _ Hw) as (Tg & Ts & p & Tp & Hp01 & Hok).
      assert (Hcw : Z.b2z (counted_write (mkCall i op (Some v) false err)) <= p).
      { unfold counted_write. simpl. rewrite Hty.
        destruct err as [e|]; simpl; [lia|]. specialize (Hok eq_refl). lia. }
      unfold accounted. simpl. rewrite !count_app. unfold count at 2 4 6 8.
      simpl. rewrite Hrd, Hwr, Tg, Ts, Tp. simpl.
      split; [lia|]. split; [lia|]. split; [lia|].
      apply Forall_app. split; [exact Hh|]. constructor; [|constructor].
      simpl. discriminate.
  - unfold accounted. simpl. auto.
Qed.

Lemma misses_and_errors (h : list call_event) :
  Forall (fun e => ev_hit e = true ->
                   ev_err e = None /\ is_read (ev_op e) = true) h ->
  count (fun e => is_read (ev_op e) && negb (ev_hit e)) h
  = reads (map ev_op h) - count counted_hit h /\
  count (fun e => is_write (ev_op e)) h = writes (map ev_op h).
Proof.
  unfold reads, writes, count. rewrite !sumZ_map.
  induction 1 as [|e h He _ (IH1 & IH2)]; simpl; [done|].
  assert (Hpt : Z.b2z (is_read (ev_op e) && negb (ev_hit e))
                = Z.b2z (is_read (ev_op e)) - Z.b2z (counted_hit e)).
  { unfold counted_hit, read_ok, is_read in *.
    destruct (ev_hit e); [destruct (He eq_refl) as (-> & Hr)|];
      destruct (Type_ (ev_op e)); simpl in *; try discriminate; try lia.
    destruct (ev_err e); simpl; lia. }
  split; lia.
Qed.

Lemma Close_trace (s s2 : RistrettoPubSubStrategy C R) ce :
  Close s = Ok (ce, s2) -> trace s2 = trace s.
Proof.
  unfold Close.
  destruct (cancelBgTasks s), (redisClient s), (pubsubClient s); try discriminate.
  by intros [= _ <-].
Qed.

Lemma Init_trace (s s0 : RistrettoPubSubStrategy C R) e :
  Init s = Ok (e, s0) -> trace s0 = trace s.
Proof.
  unfold Init. destruct (ristretto_NewCache _ _ _); [by intros [= _ <-]|].
  destruct (rueidis_NewClient 0); [by intros [= _ <-]|].
  destruct (rueidis_NewClient 1); by intros [= _ <-].
Qed.

(** X23: What a run of the Ristretto + Pub/Sub strategy that returns
    without error, with at least one worker, has sent to Redis: one
    [GET] for every read of the workload that was not counted as a hit,
    one [SET] for every write of the workload, and a [PUBLISH] for every
    write counted as successful and for at most every write. *)
Theorem ristretto_Run_traffic (env : Environment) (maxCost : Z)
        (w : list Operation) (c size : Z) (res : Result) :
  0 < c -> Z.of_nat (length w) <= MaxInt64 ->
  let fresh := NewRistrettoPubSubStrategy (C := C) (R := R) maxCost in
  let x := Run env (NewRunner methods fresh w c size) in
  outcome x = Returned res None ->
  let tr := trace (strategy (runner_after x)) in
  sent is_get tr = reads w - TotalHits res /\
  sent is_set tr = writes w /\
  TotalWrites res <= sent is_publish tr <= writes w.
Proof.
  intros Hc Hlen fresh x Hout tr. set (r := NewRunner methods fresh w c size) in *.
  destruct (Run_inversion env _ _ _ Hout)
    as [(e & s0 & _ & He & _)|(s0 & s2 & ce & Hinit & Hc0 & Hp & Hcl & _ & Hcalls & Hres)];
    [discriminate|].
  destruct (Run_returns env r s0 ce s2 Hinit Hc0 Hp Hcl) as (res' & Hrun).
  assert (Htr : tr = trace (m_strategy (end_machine env r s0))).
  { unfold tr, x. rewrite Hrun. simpl. by apply (Close_trace _ _ ce). }
  assert (Hacc : accounted (end_machine env r s0)).
  { apply (run_workers_preserves (benchmark.methods r) env (valueSizeBytes r) accounted).
    - intros i wk m _ _ _. apply worker_step_accounted.
    - unfold accounted, start_machine. simpl.
      rewrite (Init_trace _ _ _ Hinit). simpl. unfold sent, count. simpl.
      repeat split; try lia. constructor. }
  destruct Hacc as (Hg & Hs & Hpub & Hh). rewrite <- Htr in Hg, Hs, Hpub.
  destruct (misses_and_errors _ Hh) as (Hmiss & Hwr).
  destruct (end_machine_spec env r s0 Hlen eq_refl eq_refl eq_refl eq_refl Hp)
    as (Hhits & _ & Hwrites & _).
  match type of Hres with _ = calculateFinalMetrics ?y =>
    destruct (calculateFinalMetrics_counters y) as (C1 & _ & C3 & _) end.
  rewrite <- Hres in C1, C3. simpl in C1, C3.
  destruct (end_machine_drained env r s0 Hc Hp) as (Hops & Hdone).
  pose proof (run_workers_conserved (benchmark.methods r) env (valueSizeBytes r) w
                (steps_bound (start_machine r s0)) (start_machine r s0)
                (start_machine_conserved r s0)) as Hcons.
  fold (end_machine env r s0) in Hcons. unfold conserved in Hcons.
  rewrite Hops, (done_holds_nothing _ Hdone), !app_nil_r in Hcons.
  assert (Hrw : reads (map ev_op (m_history (end_machine env r s0))) = reads w /\
                writes (map ev_op (m_history (end_machine env r s0))) = writes w).
  { unfold reads, writes. split; by apply sumZ_perm. }
  destruct Hrw as (Hrd & Hwt).
  rewrite C1, C3, Hhits, Hwrites, Hg, Hs, Hmiss, Hwr, Hrd, Hwt.
  rewrite Hwr, Hwt in Hpub. auto.
Qed.
End Traffic.

(* ===================================================================== *)
(** * The rates of a result are numbers                                   *)
(* ===================================================================== *)

(** A quotient by a float that compares above zero is not NaN when the
    dividend is zero or finite. *)
Lemma fdiv_positive_not_nan (a b : float64) :
  (a = fzero \/ exists m e, a = S754_finite false m e) ->
  fgt b fzero = true ->
  is_nan (fdiv a b) = false.
Proof.
  intros Ha Hb. unfold fgt, fzero in Hb.
  destruct b as [sb|sb| |sb mb eb]; simpl in Hb; try discriminate.
  - destruct Ha as [->|(m & e & ->)]; reflexivity.
  - destruct Ha as [->|(m & e & ->)]; [reflexivity|].
    apply fdiv_finite_not_nan.
Qed.

Lemma float64_of_int_nonneg (n : Z) :
  0 <= n < 2 ^ 64 ->
  float64_of_int n = fzero \/ exists m e, float64_of_int n = S754_finite false m e.
Proof.
  intros Hn. destruct (Z.eq_dec n 0) as [->|Hne]; [left; reflexivity|].
  right. apply float64_of_int_finite. lia.
Qed.

Lemma calculateFinalMetrics_not_nan (r : Result) :
  0 <= TotalHits r -> 0 <= TotalMisses r ->
  TotalHits r + TotalMisses r <= MaxInt64 ->
  0 <= TotalOperations r < 2 ^ 64 ->
  is_nan (HitRate r) = false -> is_nan (OpsPerSecond r) = false ->
  is_nan (HitRate (calculateFinalMetrics r)) = false /\
  is_nan (OpsPerSecond (calculateFinalMetrics r)) = false.
Proof.
  destruct r as [name ops hits misses writes errors dur rate persec lats].
  cbn [TotalHits TotalMisses TotalOperations HitRate OpsPerSecond].
  intros Hh Hm Hsum Hops Hrate Hps. unfold calculateFinalMetrics.
  cbn [TotalHits TotalMisses TotalDuration TotalOperations].
  assert (Hadd : add64 hits misses = hits + misses).
  { unfold add64. apply wrap64_small. unfold MaxInt64 in *. lia. }
  rewrite Hadd.
  assert (Hdiv : forall d, fgt d fzero = true ->
                           is_nan (fdiv (float64_of_int ops) d) = false).
  { intros d Hd. apply fdiv_positive_not_nan; [|exact Hd].
    by apply float64_of_int_nonneg. }
  assert (Hhr : 0 < hits + misses ->
                is_nan (fdiv (float64_of_int hits)
                             (float64_of_int (hits + misses))) = false).
  { intros Hpos. apply fdiv_int_not_nan; unfold MaxInt64 in *; lia. }
  destruct (0 <? hits + misses) eqn:Hpos;
    [apply Z.ltb_lt in Hpos|];
    cbn -[fdiv float64_of_int Duration_Seconds fgt is_nan];
    destruct (fgt (Duration_Seconds dur) fzero) eqn:Hd;
    cbn -[fdiv float64_of_int Duration_Seconds fgt is_nan]; auto.
Qed.

(** X24: Neither rate of the result of a run is NaN: the hit rate is a
    quotient by a positive count or the initial zero, and the
    operations per second a quotient by a duration that compares above
    zero, or the initial zero. *)
Theorem Run_rates_not_nan {S : Type} (impl : CachingStrategy S)
        (env : Environment) (s : S) (w : list Operation) (c size : Z)
        (res : Result) (err : option error) :
  Z.of_nat (length w) <= MaxInt64 ->
  outcome (Run env (NewRunner impl s w c size)) = Returned res err ->
  is_nan (HitRate res) = false /\ is_nan (OpsPerSecond res) = false.
Proof.
  intros Hlen Hout. set (r := NewRunner impl s w c size) in *.
  destruct (Run_inversion env _ _ _ Hout)
    as [(e & s0 & _ & _ & -> & _)
       |(s0 & s2 & ce & Hinit & _ & Hp & Hcl & _ & Hcalls & Hres)];
    [split; reflexivity|].
  destruct (end_machine_spec env r s0 Hlen eq_refl eq_refl eq_refl eq_refl Hp)
    as (Hh & Hm & _ & _ & _ & Hfr & Hops & _).
  destruct Hfr as (_ & _ & _ & Hhr & Hps & _). simpl in Hhr, Hps.
  pose proof (count_le_length counted_hit (m_history (end_machine env r s0))) as B1.
  pose proof (count_le_length counted_miss (m_history (end_machine env r s0))) as B2.
  pose proof (count_partition (m_history (end_machine env r s0))) as Hpart.
  pose proof (count_le_length counted_write (m_history (end_machine env r s0))) as B3.
  pose proof (count_le_length counted_error (m_history (end_machine env r s0))) as B4.
  change (workload r) with w in Hops.
  rewrite Hres. apply calculateFinalMetrics_not_nan;
    cbn [set_Latencies set_TotalOperations set_TotalDuration TotalHits TotalMisses
         TotalOperations HitRate OpsPerSecond];
    rewrite ?Hh, ?Hm, ?Hhr, ?Hps; try reflexivity; try lia.
  change (workload r) with w.
  rewrite wrap64_small by (unfold MaxInt64 in *; lia). unfold MaxInt64 in *. lia.
Qed.

Import instances.

(* ===================================================================== *)
(** * The theorems on the sample deployment                               *)
(* ===================================================================== *)

Section Samples.
Import implementations.
#[local] Existing Instance examples.redis.
Local Open Scope string_scope.

Lemma C1_run_accounting_witness :
  exists res,
    outcome examples.run_online = Returned res None /\
    TotalHits res + TotalMisses res + TotalWrites res + TotalErrors res
      = TotalOperations res /\
    Z.of_nat (length (Latencies res)) = TotalOperations res.
Proof.
  eexists. split; [vm_compute; reflexivity|].
  edestruct (C1_run_accounting examples.online round_robin examples.fresh
               examples.ops 2 4) as (H1 & H2 & _);
    [lia | vm_compute; discriminate | vm_compute; reflexivity |].
  split; [exact H1 | exact H2].
Defined.

Lemma C2_read_local_then_remote_witness :
  exists s',
    Read examples.ready "key-1" = Ok (("v1", false, None), s') /\
    fst (l1_Get (l1Cache s') "key-1") = Some "v1".
Proof.
  pose proof (C2_read_local_then_remote examples.ready
                (mkMapCache ∅ 1000) (mkMapRedis examples.server [] true)
                "key-1" eq_refl eq_refl) as H.
  destruct (cache_Get (mkMapCache ∅ 1000) "key-1") as [[v|] c1] eqn:E1;
    [vm_compute in E1; discriminate|].
  destruct (redis_Do (mkMapRedis examples.server [] true) (CmdGet "key-1"))
    as [[value|e] r1] eqn:E2; [|vm_compute in E2; discriminate].
  vm_compute in E1. vm_compute in E2.
  injection E1 as <-. injection E2 as <- <-.
  eexists. split; [exact H|]. vm_compute. reflexivity.
Defined.

Lemma C3_write_leaves_local_cache_witness :
  exists out s',
    Write examples.ready "key-2" "00010203" = Ok (out, s') /\
    l1Cache s' = l1Cache examples.ready.
Proof.
  destruct (C3_write_leaves_local_cache examples.ready
              (mkMapRedis examples.server [] true) "key-2" "00010203" eq_refl)
    as (out & s' & Hw & Hc & _).
  exists out, s'. split; [exact Hw | exact Hc].
Defined.

Lemma C4_run_fails_iff_init_fails_witness :
  (exists res e, outcome examples.run_offline = Returned res (Some e) /\
                 calls examples.run_offline = []) /\
  (exists res, outcome examples.run_online = Returned res None /\
               TotalErrors res = 1).
Proof.
  split.
  - destruct (C4_run_fails_iff_init_fails examples.offline round_robin
                examples.fresh examples.ops 2 4) as (Hiff & Habort & _).
    destruct (benchmark.Init examples.offline examples.fresh)
      as [[[e0|] s0]|msg] eqn:Hi; try (vm_compute in Hi; discriminate).
    exists (result (NewRunner examples.offline examples.fresh examples.ops 2 4)).
    exists (Errorf_w "failed to initialize strategy: " e0). split.
    + apply Hiff. exists e0, s0. auto.
    + apply (Habort e0 s0). reflexivity.
  - destruct (C4_run_fails_iff_init_fails examples.online round_robin
                examples.fresh examples.ops 2 4) as (_ & _ & Hok).
    destruct (Hok initialised examples.ready) as (res & Hout & Herr & _).
    + vm_compute. reflexivity.
    + apply (Init_initialised examples.fresh). vm_compute. reflexivity.
    + apply methods_safe.
    + lia.
    + lia.
    + vm_compute. discriminate.
    + exists res. split; [exact Hout|]. rewrite Herr. vm_compute. reflexivity.
Defined.

Lemma C5_hit_rate_witness :
  exists res,
    outcome examples.run_online = Returned res None /\
    HitRate res = fdiv (float64_of_int 1) (float64_of_int 3) /\
    is_nan (HitRate res) = false.
Proof.
  eexists. split; [vm_compute; reflexivity|].
  edestruct (C5_hit_rate examples.online round_robin examples.fresh
               examples.ops 2 4) as (_ & _ & Hrate & _);
    [vm_compute; discriminate | vm_compute; reflexivity |].
  apply Hrate. reflexivity.
Defined.

Lemma C6_write_iff_draw_exceeds_ratio_witness :
  exists ops,
    GenerateUniform 6 10 fone (mkLCG 42) = Ok ops /\
    Forall (fun op => Type_ op = ReadOp) ops.
Proof.
  destruct (C6_write_iff_draw_exceeds_ratio 6 10 fone
              (mkRankSource 9 7) (mkLCG 42) ltac:(lia)) as (_ & Hu).
  destruct (Hu ltac:(lia)) as (ops & Hg & _ & _ & Hall).
  exists ops. split; [exact Hg|].
  apply Hall; [reflexivity|].
  set (draws := uniform_draws _ _ _). vm_compute in draws. subst draws.
  repeat constructor.
Defined.

Lemma C8_listener_drops_malformed_witness :
  exists s',
    listenForInvalidations examples.ready
      [examples.msg_garbage; examples.msg_garbage]
      (Some (errorString "EOF")) = Ok s' /\
    l1Cache s' = l1Cache examples.ready.
Proof.
  destruct (C8_listener_drops_malformed examples.ready
              (mkMapRedis examples.server [] true)
              [examples.msg_garbage; examples.msg_garbage]
              (Some (errorString "EOF")) eq_refl)
    as (_ & s' & Hl & _ & _ & _ & _ & _ & Hdrop).
  exists s'. split; [exact Hl|].
  apply Hdrop. repeat constructor; eexists; vm_compute; reflexivity.
Defined.

Lemma C9_p95_latency_witness :
  main.p95Latency (Latencies examples.samples) = Ok 39.
Proof.
  destruct (C9_p95_latency examples.samples) as (_ & _ & _ & Hbig & _);
    [vm_compute; reflexivity|].
  destruct Hbig as (d & Hd & Hp); [vm_compute; reflexivity|].
  rewrite Hp. f_equal. vm_compute in Hd. congruence.
Defined.

Lemma C10_empty_key_evicts_nothing_witness :
  onMessage examples.ready examples.msg_no_key = examples.ready /\
  l1Cache (onMessage examples.ready examples.msg_key1)
    = l1_Del (l1Cache examples.ready) "key-1".
Proof.
  split.
  - destruct (C10_empty_key_evicts_nothing examples.ready examples.msg_no_key)
      as (Hempty & _).
    apply (Hempty (mkInvalidationMessage EmptyString)); reflexivity.
  - destruct (C10_empty_key_evicts_nothing examples.ready examples.msg_key1)
      as (_ & Hdel & _).
    rewrite (Hdel (mkInvalidationMessage "key-1")); [reflexivity|reflexivity|].
    discriminate.
Defined.
End Samples.

(* ===================================================================== *)
(** * More theorems on the sample deployment                              *)
(* ===================================================================== *)

Section MoreSamples.
Import implementations.
#[local] Existing Instance examples.redis.
Local Open Scope string_scope.

Lemma Run_latencies_within_duration_witness :
  exists res,
    outcome examples.run_online = Returned res None /\
    0 <= TotalDuration res /\
    Forall (fun l => 0 <= l <= TotalDuration res) (Latencies res).
Proof.
  eexists. split; [vm_compute; reflexivity|].
  apply (Run_latencies_within_duration examples.online round_robin examples.fresh
           examples.ops 2 4).
  - intros t. simpl. lia.
  - vm_compute. reflexivity.
Defined.

Lemma Run_without_workers_witness :
  exists res,
    outcome (Run round_robin (NewRunner examples.online examples.fresh examples.ops 0 4))
      = Returned res None /\
    TotalOperations res = 5 /\ Latencies res = [].
Proof.
  destruct (Run_without_workers examples.online round_robin examples.fresh
              examples.ready
              (match Close examples.ready with
               | Ok (_, s) => s
               | Panic _ => examples.ready
               end) None examples.ops 4)
    as (res & Hout & _ & _ & Hops & _ & _ & _ & _ & Hlat & _);
    [vm_compute; reflexivity | vm_compute; reflexivity | vm_compute; discriminate |].
  exists res. split; [exact Hout|]. split; [exact Hops | exact Hlat].
Defined.


Lemma Read_after_Write_is_stale_witness :
  exists e s1 s2,
    Write samples.warm "key-1" "00010203" = Ok (e, s1) /\
    Read s1 "key-1" = Ok (("v1", true, None), s2).
Proof.
  assert (Hget : cache_Get samples.warm_cache "key-1"
                 = (Some "v1", samples.warm_cache)) by (vm_compute; reflexivity).
  destruct (Read_after_Write_is_stale samples.warm
              samples.warm_cache samples.warm_cache
              (mkMapRedis examples.server [] true) "key-1" "00010203" "v1"
              eq_refl eq_refl Hget)
    as (e & s1 & s2 & Hw & Hr & _).
  exists e, s1, s2. split; [exact Hw | exact Hr].
Defined.

Lemma published_invalidation_evicts_witness :
  l1Cache (onMessage samples.warm (json_Marshal (mkInvalidationMessage "key-1")))
  = l1_Del (l1Cache samples.warm) "key-1".
Proof.
  assert (Hrt : json_Unmarshal (json_Marshal (mkInvalidationMessage "key-1"))
                = inr (mkInvalidationMessage "key-1")) by (vm_compute; reflexivity).
  destruct (published_invalidation_evicts samples.warm "key-1" Hrt) as (Hdel & _).
  rewrite Hdel by discriminate. reflexivity.
Defined.

Lemma ristretto_Run_returns_witness :
  exists res,
    outcome examples.run_online = Returned res None /\
    cancelBgTasks (strategy (runner_after examples.run_online)) = Some true.
Proof.
  destruct (ristretto_Run_returns round_robin 1000 examples.ops 2 4
              ltac:(lia) ltac:(lia)) as (res & err & Hout & Hiff & Hclosed).
  assert (Herr : err = None).
  { apply Hiff. eexists. vm_compute. reflexivity. }
  subst err. exists res. split; [exact Hout|]. by apply Hclosed.
Defined.

Lemma generated_keys_in_range_witness :
  exists ops,
    GenerateUniform 6 10 fone (mkLCG 42) = Ok ops /\
    Forall (fun op => exists i, 0 <= i < 10 /\
                                Key op = ("key-" +:+ Sprintf_d i)) ops.
Proof.
  eexists. split; [vm_compute; reflexivity|].
  eapply Forall_impl.
  - apply (generated_keys_in_range (H0 := samples.ranks10) 6 10 fone
             (mkLCG 7) (mkLCG 42)).
    + intros g0 _. simpl. apply Z.mod_pos_bound. lia.
    + intros z0. simpl.
      pose proof (Z.mod_pos_bound (LCG_next (lcg_state z0)) 10 ltac:(lia)). lia.
    + right. vm_compute. reflexivity.
  - intros op (i & Hi & Hk & _). eauto.
Defined.

Lemma comparisonRow_average_witness :
  exists row,
    main.comparisonRow examples.samples = Ok row /\
    main.row_avgLatency row = 20.
Proof.
  eexists. split; [vm_compute; reflexivity|].
  match goal with |- main.row_avgLatency ?row = _ =>
    destruct (comparisonRow_average examples.samples row) as (_ & Havg & _);
      [vm_compute; reflexivity|]; rewrite Havg
  end.
  vm_compute. reflexivity.
Defined.

Lemma p95_dominates_witness :
  exists d, main.p95Latency (Latencies examples.samples) = Ok d /\
            d ∈ Latencies examples.samples.
Proof.
  destruct (p95_dominates (Latencies examples.samples)) as (d & Hp & Hin & _).
  - vm_compute. split; reflexivity.
  - exists d. split; [exact Hp | exact Hin].
Defined.

Lemma comparisonRows_panics_iff_witness :
  main.comparisonRows [examples.samples; samples.no_samples]
  = Panic "integer divide by zero".
Proof.
  apply comparisonRows_panics_iff.
  - repeat constructor; vm_compute; reflexivity.
  - right. left. reflexivity.
Defined.

Lemma Run_without_samples_breaks_comparison_witness :
  exists res,
    outcome (Run round_robin (NewRunner examples.online examples.fresh [] 2 4))
      = Returned res None /\
    main.comparisonRow res = Panic "integer divide by zero".
Proof.
  eexists. split; [vm_compute; reflexivity|].
  apply (Run_without_samples_breaks_comparison examples.online round_robin
           examples.fresh [] 2 4).
  - left. reflexivity.
  - vm_compute. reflexivity.
Defined.

Lemma csc_Run_returns_witness :
  exists res,
    outcome (Run round_robin
               (NewRunner samples.csc_online (csc.NewRueidisCSCStrategy 100)
                          examples.ops 2 4))
      = Returned res None /\
    length (calls (Run round_robin
               (NewRunner samples.csc_online (csc.NewRueidisCSCStrategy 100)
                          examples.ops 2 4))) = 5%nat.
Proof.
  pose proof (csc_Run_returns (H := samples.caching) round_robin 100
                examples.ops 2 4 ltac:(lia) ltac:(lia)) as Hrun.
  cbn [csc.csc_NewClient samples.caching clients.CachedRedis_client] in Hrun.
  destruct Hrun as (res & c' & Hout & _ & Hlen).
  exists res. split; [exact Hout|].
  specialize (Hlen ltac:(lia)). apply Permutation_length in Hlen.
  by rewrite length_map in Hlen.
Defined.

Lemma prepared_keys_cover_workload_witness :
  exists ops,
    GenerateUniform 6 10 fone (mkLCG 42) = Ok ops /\
    Forall (fun op => CmdSet (Key op) "00010203"
                        ∈ prepare.prepare_commands 10 "00010203") ops.
Proof.
  eexists. split; [vm_compute; reflexivity|].
  apply (prepared_keys_cover_workload (H0 := samples.ranks10) 6 10 fone
           (mkLCG 7) (mkLCG 42)).
  - intros g0 _. simpl. apply Z.mod_pos_bound. lia.
  - intros z0. simpl.
    pose proof (Z.mod_pos_bound (LCG_next (lcg_state z0)) 10 ltac:(lia)). lia.
  - right. vm_compute. reflexivity.
Defined.

Lemma prepareData_fills_store_witness :
  exists c,
    prepare.prep_client
      (prepare.prepareData (H := clients.MapRedis_batch examples.server true)
                           (entropy round_robin 0) 3 2) = Some c /\
    mr_store c !! "key-2" = Some "0001" /\ mr_store c !! "key-3" = None.
Proof.
  destruct (prepareData_fills_store examples.server (entropy round_robin 0) 3 2
              ltac:(lia) ltac:(lia)) as (value & c & Hv & _ & Hc & _ & Hstore).
  exists c. split; [exact Hc|].
  vm_compute in Hv. injection Hv as <-. split.
  - apply Hstore. split; [reflexivity|]. exists 2. split; [lia|reflexivity].
  - destruct (mr_store c !! "key-3") as [v|] eqn:Hl; [|reflexivity].
    apply Hstore in Hl as (_ & i & Hi & Hk). exfalso.
    assert (i = 0 \/ i = 1 \/ i = 2) as [->|[->| ->]] by lia; discriminate.
Defined.

Lemma Run_counts_by_type_witness :
  exists res failed_reads,
    outcome examples.run_online = Returned res None /\
    TotalHits res + TotalMisses res + failed_reads = 4.
Proof.
  destruct (Run_counts_by_type examples.online round_robin examples.fresh
              examples.ops 2 4
              (match outcome examples.run_online with
               | Returned res _ => res
               | Crashed _ => samples.no_samples
               end))
    as (fr & fw & _ & _ & _ & Hr & _);
    [lia | vm_compute; discriminate | vm_compute; reflexivity |].
  eexists _, fr. split; [vm_compute; reflexivity|]. exact Hr.
Defined.

Lemma ristretto_Run_traffic_witness :
  sent is_get (trace (strategy (runner_after examples.run_online))) = 3.
Proof.
  destruct (ristretto_Run_traffic round_robin 1000 examples.ops 2 4
              (match outcome examples.run_online with
               | Returned res _ => res
               | Crashed _ => samples.no_samples
               end))
    as (Hget & _);
    [lia | vm_compute; discriminate | vm_compute; reflexivity |].
  etransitivity; [exact Hget|]. vm_compute. reflexivity.
Defined.

Lemma Run_rates_not_nan_witness :
  exists res,
    outcome examples.run_online = Returned res None /\
    is_nan (HitRate res) = false /\ is_nan (OpsPerSecond res) = false.
Proof.
  eexists. split; [vm_compute; reflexivity|].
  apply (Run_rates_not_nan examples.online round_robin examples.fresh
           examples.ops 2 4 _ None).
  - vm_compute. discriminate.
  - vm_compute. reflexivity.
Defined.
End MoreSamples.
